(** * Catalight: composition-sweep planner, gas system, calibration fit and
      study runner

    A shallow embedding of
    - [MainWindow.update_ind_var], [MainWindow.start_study] and
      [MainWindow.shut_down] of [catalight/catalight_GUI.py],
    - [Gas_System] of [photoreactor/equipment/alicat_MFC/gas_control.py],
    - the fitting loop of [analyze_cal_data] of
      [photoreactor_code/data_analysis/gc_analysis.py].

    Numbers.  The Python code computes with binary64 floats.  Every definition
    below is written once, over an interface [Number] that lists the
    operations the code uses, and the interface has two instances:
    - [float_Number]: Rocq's primitive binary64 floats, the arithmetic the
      program really runs; statements about concrete inputs are evaluated
      with it;
    - [Q_Number]: exact rationals, the arithmetic without rounding; the
      values that floats stand for are added in it, and statements made
      for every instance are run on it.
    Statements that follow the control flow are proved for every instance;
    statements about the values computed are proved for binary64. *)

From Stdlib Require Import ZArith QArith Qabs Qround List Bool Lia.
From Stdlib Require Import Ascii String.
From Stdlib Require Import Floats.
From stdpp Require Import base gmap strings.
Import ListNotations.

Set Warnings "-inexact-float".

(** ** The arithmetic interface *)

Class Number (F : Type) := {
  of_Z : Z -> F;                (* an integer literal or loop index *)
  nadd : F -> F -> F;
  nsub : F -> F -> F;
  nmul : F -> F -> F;
  ndiv : F -> F -> F;
  neqb : F -> F -> bool;         (* [==] *)
  nltb : F -> F -> bool;         (* [<]  *)
  nceil : F -> option Z          (* [ceil], [None] when not finite *)
}.

Declare Scope num_scope.
Delimit Scope num_scope with num.
Infix "+!" := nadd (at level 50, left associativity) : num_scope.
Infix "-!" := nsub (at level 50, left associativity) : num_scope.
Infix "*!" := nmul (at level 40, left associativity) : num_scope.
Infix "/!" := ndiv (at level 40, left associativity) : num_scope.
Infix "=?!" := neqb (at level 70, no associativity) : num_scope.
Infix "<?!" := nltb (at level 70, no associativity) : num_scope.
Local Open Scope num_scope.

(** Exact rationals. *)
#[export] Instance Q_Number : Number Q := {
  of_Z := inject_Z;
  nadd := Qplus;
  nsub := Qminus;
  nmul := Qmult;
  ndiv := Qdiv;
  neqb := Qeq_bool;
  nltb := fun x y => negb (Qle_bool y x);
  nceil := fun x => Some (Qceiling x)
}.

(** Binary64.  An integer below 2^53 in magnitude converts exactly. *)
Definition float_of_Z (z : Z) : float :=
  match z with
  | Z0 => PrimFloat.zero
  | Zpos _ => PrimFloat.of_uint63 (Uint63.of_Z z)
  | Zneg _ => PrimFloat.opp (PrimFloat.of_uint63 (Uint63.of_Z (- z)))
  end.

(** The least integer not below a finite float [(-1)^s * m * 2^e]. *)
Definition float_ceil (x : float) : option Z :=
  match Prim2SF x with
  | S754_zero _ => Some 0%Z
  | S754_finite s m e =>
      Some (- Z.shiftl (if s then Z.pos m else Z.neg m) e)%Z
  | S754_infinity _ => None
  | S754_nan => None
  end.

#[export] Instance float_Number : Number float := {
  of_Z := float_of_Z;
  nadd := PrimFloat.add;
  nsub := PrimFloat.sub;
  nmul := PrimFloat.mul;
  ndiv := PrimFloat.div;
  neqb := PrimFloat.eqb;
  nltb := PrimFloat.ltb;
  nceil := float_ceil
}.

(** ** Python and numpy helpers *)

Section Helpers.
Context {F : Type} `{Number F}.

Definition zero : F := of_Z 0.
Definition one : F := of_Z 1.
Definition hundred : F := of_Z 100.

(** Python's builtin [sum]: starts from 0 and adds from left to right.
    (From version 3.12 on CPython compensates the rounding error of a sum
    of floats; a statement whose outcome depends on the order of the
    additions says so.) *)
Definition sum (l : list F) : F := fold_left nadd l zero.

(** [np.arange(start, stop, step)] on floats: the length is
    [ceil((stop - start) / step)]; the first element is [start], the second
    [start + step], and element [i >= 2] is [start + i * delta] with
    [delta = (start + step) - start].  A length that is not finite makes
    numpy raise, which is [None] here. *)
Definition arange_elem (start step : F) (i : nat) : F :=
  match i with
  | O => start
  | S O => start +! step
  | _ => start +! of_Z (Z.of_nat i) *! ((start +! step) -! start)
  end.

Definition arange (start stop step : F) : option (list F) :=
  match nceil ((stop -! start) /! step) with
  | Some len => Some (map (arange_elem start step) (seq 0 (Z.to_nat len)))
  | None => None
  end.

(** Element-wise numpy operations on vectors of one length. *)
Definition vsub (u v : list F) : list F :=
  map (fun p => fst p -! snd p) (combine u v).

(** [np.array(cols).T.tolist()] for columns of one length: the row at
    sweep index [k] collects the [k]-th entry of every column. *)
Definition transpose (cols : list (list F)) : list (list F) :=
  map (fun k => map (fun c => nth k c zero) cols)
      (seq 0 (length (hd [] cols))).
End Helpers.

(** ** Exceptions *)

(** The Python exceptions the modelled code can raise.  [HardwareError]
    stands for whatever a flow-controller command raises (a serial failure,
    a rejected gas or mixture). *)
Inductive exn :=
| AttributeError | IndexError | UnboundLocalError | ZeroDivisionError
| ValueError | HardwareError | EquipmentError.

(** ** The composition-sweep planner ([MainWindow.update_ind_var]) *)

(** The entries of [combobox_options]:
    ['-', 'Fixed', 'Fill', 'Ind. Variable', 'Multiple']. *)
Inductive status := Unset | Fixed | Fill | IndVariable | Multiple.

Definition status_eqb (a b : status) : bool :=
  match a, b with
  | Unset, Unset | Fixed, Fixed | Fill, Fill
  | IndVariable, IndVariable | Multiple, Multiple => true
  | _, _ => false
  end.

(** One gas row of [comp_sweep_widgets]: columns 1 to 5 under the header
    ['Multiplier', 'Status', 'Start', 'Stop', 'Step']. *)
Record row (F : Type) := Row {
  Multiplier : F;
  Status : status;
  Start : F;
  Stop : F;
  Step : F
}.
Arguments Row {F}.
Arguments Multiplier {F}.
Arguments Status {F}.
Arguments Start {F}.
Arguments Stop {F}.
Arguments Step {F}.

(** A value stored in an attribute of an experiment. *)
Inductive pyval (F : Type) :=
| Vec (v : list F)
| Mat (m : list (list F)).
Arguments Vec {F}.
Arguments Mat {F}.

(** The [Experiment] object as far as [update_ind_var] uses it: its type,
    the name of its independent variable, and its attributes by name. *)
Record Experiment (F : Type) := {
  expt_type : string;
  ind_var : string;
  attrs : gmap string (pyval F)
}.
Arguments expt_type {F}.
Arguments ind_var {F}.
Arguments attrs {F}.

(** [setattr(expt, name, v)] *)
Definition setattr {F} (expt : Experiment F) (name : string) (v : pyval F)
  : Experiment F :=
  {| expt_type := expt_type expt; ind_var := ind_var expt;
     attrs := <[name := v]> (attrs expt) |}.

(** The widgets [update_ind_var] reads. *)
Record design_form (F : Type) := {
  comp_sweep_widgets : list (row F);   (* rows 1.., without the header *)
  IndVar_start : F;
  IndVar_stop : F;
  IndVar_step : F
}.
Arguments comp_sweep_widgets {F}.
Arguments IndVar_start {F}.
Arguments IndVar_stop {F}.
Arguments IndVar_step {F}.

(** How [update_ind_var] ends. *)
Inductive verdict :=
| Skipped          (* bare [return] *)
| Cleared          (* [self.update_plot()] then [return] *)
| RangeRejected    (* [return False] *)
| Updated          (* falls through to [self.update_plot(expt)] *)
| Failed (e : exn).

Inductive range_result (F : Type) :=
| RangeBad
| RangeRaise
| RangeOk (ind : list F).
Arguments RangeBad {F}.
Arguments RangeRaise {F}.
Arguments RangeOk {F}.

Inductive plan_result (F : Type) :=
| PSkipped
| PCleared
| PRangeRejected
| PFailed (e : exn)
| PStored (m : list (list F)).
Arguments PSkipped {F}.
Arguments PCleared {F}.
Arguments PRangeRejected {F}.
Arguments PFailed {F}.
Arguments PStored {F}.

Section Planner.
Context {F : Type} `{Number F}.

Definition has_status (s : status) (r : row F) : bool :=
  status_eqb (Status r) s.

(** [np.where(row_types == s)[0]] *)
Definition rows_of (s : status) (rows : list (row F)) : list (row F) :=
  List.filter (has_status s) rows.

(** [row_types.count(s)] *)
Definition row_count (s : status) (rows : list (row F)) : nat :=
  length (rows_of s rows).

(** The block of the 'Ind. Variable' row: [stop] already holds the
    widget's value plus one when it is compared with [start]. *)
Definition sweep_range (r : row F) : range_result F :=
  let start := Start r in
  let stop := Stop r +! one in
  let step := Step r in
  if (start <?! stop) && (zero <?! step) then
    match arange start stop step with
    | Some v => RangeOk (map (fun x => x /! hundred) v)
    | None => RangeRaise
    end
  else RangeBad.

(** [fill_vals = 1 - ind_var] *)
Definition fill_start (ind : list F) : list F :=
  map (fun x => one -! x) ind.

(** [ind_var * widget_grid[i][1].value()] *)
Definition col_Multiple (ind : list F) (r : row F) : list F :=
  map (fun x => x *! Multiplier r) ind.

(** [np.ones(len(ind_var)) * widget_grid[i][3].value() / 100] *)
Definition col_Fixed (ind : list F) (r : row F) : list F :=
  map (fun _ => (one *! Start r) /! hundred) ind.

(** The two subtraction loops, 'Multiple' rows first, then 'Fixed'. *)
Definition fill_vals (rows : list (row F)) (ind : list F) : list F :=
  fold_left (fun f r => vsub f (col_Fixed ind r)) (rows_of Fixed rows)
    (fold_left (fun f r => vsub f (col_Multiple ind r))
       (rows_of Multiple rows) (fill_start ind)).

(** [comp_list[i - 1]] once the four loops have run. *)
Definition comp_col (ind fill : list F) (r : row F) : list F :=
  match Status r with
  | IndVariable => ind
  | Multiple => col_Multiple ind r
  | Fixed => col_Fixed ind r
  | Fill => fill
  | Unset => []
  end.

Definition comp_list (rows : list (row F)) (ind fill : list F)
  : list (list F) :=
  map (comp_col ind fill) rows.

(** [(fill_vals < 0).any()] *)
Definition any_negative (v : list F) : bool :=
  existsb (fun x => x <?! zero) v.

(** The branch for 'comp_sweep' and 'calibration' experiments. *)
Definition plan_comp_sweep (rows : list (row F)) : plan_result F :=
  if existsb (has_status Unset) rows then PSkipped
  else if negb (row_count Fill rows =? 1)%nat
          || negb (row_count IndVariable rows =? 1)%nat then PCleared
  else
    match rows_of IndVariable rows with
    | [] => PCleared
    | r :: _ =>
        match sweep_range r with
        | RangeBad => PRangeRejected
        | RangeRaise => PFailed ValueError
        | RangeOk ind =>
            let fill := fill_vals rows ind in
            if any_negative fill then PCleared
            else PStored (transpose (comp_list rows ind fill))
        end
    end.

Definition is_sweep_type (t : string) : bool :=
  String.eqb t "comp_sweep" || String.eqb t "calibration".

Definition update_ind_var (form : design_form F) (expt : Experiment F)
  : verdict * Experiment F :=
  if is_sweep_type (expt_type expt) then
    match plan_comp_sweep (comp_sweep_widgets form) with
    | PSkipped => (Skipped, expt)
    | PCleared => (Cleared, expt)
    | PRangeRejected => (RangeRejected, expt)
    | PFailed e => (Failed e, expt)
    | PStored m => (Updated, setattr expt (ind_var expt) (Mat m))
    end
  else if (IndVar_start form <?! IndVar_stop form)
          && (zero <?! IndVar_step form)
          && negb (String.eqb (expt_type expt) "stability_test") then
    match arange (IndVar_start form) (IndVar_stop form +! one)
                 (IndVar_step form) with
    | Some v => (Updated, setattr expt (ind_var expt) (Vec v))
    | None => (Failed ValueError, expt)
    end
  else if String.eqb (expt_type expt) "stability_test" then (Updated, expt)
  else (Cleared, expt).
End Planner.

(** A sweep of gas 1 from 0 to 10 percent in steps of 5, gas 2 at twice gas
    1, gas 3 fixed at 20 percent and gas 4 as fill. *)
Definition demo_rows {F} `{Number F} : list (row F) :=
  [ Row zero IndVariable zero (of_Z 10) (of_Z 5);
    Row (of_Z 2) Multiple zero zero zero;
    Row zero Fixed (of_Z 20) zero zero;
    Row zero Fill zero zero zero ].

(** ** Outcomes and the state monad of the hardware code *)

(** A call returns, raises, or never comes back: [while self.is_busy:
    time.sleep(0)] entered with the flag set spins for ever when no other
    thread clears the flag. *)
Inductive outcome (A : Type) :=
| Returned (a : A)
| Raised (e : exn)
| Spins.
Arguments Returned {A}.
Arguments Raised {A}.
Arguments Spins {A}.

Definition M (S A : Type) : Type := S -> outcome A * S.

Definition ret {S A} (a : A) : M S A := fun s => (Returned a, s).

Definition bind {S A B} (m : M S A) (k : A -> M S B) : M S B :=
  fun s =>
    match m s with
    | (Returned a, s') => k a s'
    | (Raised e, s') => (Raised e, s')
    | (Spins, s') => (Spins, s')
    end.

Definition raise {S A} (e : exn) : M S A := fun s => (Raised e, s).

Notation "x <- m ;; k" := (bind m (fun x => k))
  (at level 100, m at next level, k at level 200, right associativity).
Notation "m ;;; k" := (bind m (fun _ => k))
  (at level 100, k at level 200, right associativity).

(** [l[i]] *)
Definition getitem {S A} (l : list A) (i : nat) : M S A :=
  match nth_error l i with
  | Some x => ret x
  | None => raise IndexError
  end.

(** ** The gas system ([Gas_System]) *)

Inductive channel := ChA | ChB | ChC | ChD | ChE.

(** What [set_gas] accepts and [get()['gas']] reports: a gas name or the
    number of a mixture slot. *)
Inductive gas_sel :=
| GasName (s : string)
| MixNo (n : Z).

Definition gas_eqb (a b : gas_sel) : bool :=
  match a, b with
  | GasName s, GasName t => String.eqb s t
  | MixNo n, MixNo m => Z.eqb n m
  | _, _ => false
  end.

(** A Python [dict]: keys in insertion order, one entry per key. *)
Definition dict (K V : Type) : Type := list (K * V).

(** [d[k] = v]: an existing key keeps its place and takes the new value, a
    new key goes to the end. *)
Fixpoint dict_set {K V} (eqb : K -> K -> bool) (d : dict K V) (k : K) (v : V)
  : dict K V :=
  match d with
  | [] => [(k, v)]
  | (k', v') :: d' =>
      if eqb k' k then (k', v) :: d' else (k', v') :: dict_set eqb d' k v
  end.

(** [dict(pairs)] *)
Definition dict_of {K V} (eqb : K -> K -> bool) (pairs : list (K * V))
  : dict K V :=
  fold_left (fun d p => dict_set eqb d (fst p) (snd p)) pairs [].

(** The commands of the [alicat] driver that the code calls. *)
Inductive command (F : Type) :=
| SetGas (g : gas_sel)
| SetFlowRate (x : F)
| CreateMix (mix_no : Z) (name : string) (gases : dict gas_sel F)
| Get
| Close.
Arguments SetGas {F}.
Arguments SetFlowRate {F}.
Arguments CreateMix {F}.
Arguments Get {F}.
Arguments Close {F}.

(** A command as the bank saw it: the channel, the command, the value of
    [is_busy] when it was issued, and whether the driver carried it out. *)
Record event (F : Type) := Event {
  ev_chan : channel;
  ev_cmd : command F;
  ev_busy : bool;
  ev_ok : bool
}.
Arguments Event {F}.
Arguments ev_chan {F}.
Arguments ev_cmd {F}.
Arguments ev_busy {F}.
Arguments ev_ok {F}.

(** The part of [mfc.get()] the code reads. *)
Record mfc_state (F : Type) := Mfc {
  gas : gas_sel;
  mass_flow : F
}.
Arguments Mfc {F}.
Arguments gas {F}.
Arguments mass_flow {F}.

Definition loc := nat.

(** The [Gas_System] object with its surroundings: the five devices, the
    flag, the store of the Python lists that callers pass by reference, the
    commands issued so far, and which of the commands the driver carries out
    ([hw_ok n] is false when the [n]-th command raises). *)
Record Gas_System (F : Type) := {
  mfc_A : mfc_state F;
  mfc_B : mfc_state F;
  mfc_C : mfc_state F;
  mfc_D : mfc_state F;
  mfc_E : mfc_state F;
  is_busy : bool;
  heap : gmap loc (list F);
  log : list (event F);
  hw_ok : nat -> bool
}.
Arguments mfc_A {F}.
Arguments mfc_B {F}.
Arguments mfc_C {F}.
Arguments mfc_D {F}.
Arguments mfc_E {F}.
Arguments is_busy {F}.
Arguments heap {F}.
Arguments log {F}.
Arguments hw_ok {F}.

Definition factory_gasses : list string :=
  ["C2H2"; "Air"; "Ar"; "i-C4H10"; "n-C4H10"; "CO2"; "CO";
   "D2"; "C2H6"; "C2H4"; "He"; "H2"; "Kr"; "CH4"; "Ne";
   "N2"; "N2O"; "O2"; "C3H8"; "SF6"; "Xe"]%string.

(** Two operations of pandas are not fixed by their arguments:
    [Series.sum] adds in an order of its own (numpy adds in blocks, and
    pandas may hand the sum to another library), and
    [sort_values(ascending=False)] leaves entries of equal value in any
    order (its default sort is not stable).  The model takes both as
    parameters. *)
Class Pandas (F : Type) := {
  Series_sum : list F -> F;
  sort_values : list (string * F) -> list (string * F)
}.

Section GasSystem.
Context {F : Type} `{Number F}.

Local Abbreviation GS := (Gas_System F).

Definition mfc (c : channel) (s : GS) : mfc_state F :=
  match c with
  | ChA => mfc_A s | ChB => mfc_B s | ChC => mfc_C s
  | ChD => mfc_D s | ChE => mfc_E s
  end.

Definition with_mfc (c : channel) (d : mfc_state F) (s : GS) : GS :=
  {| mfc_A := match c with ChA => d | _ => mfc_A s end;
     mfc_B := match c with ChB => d | _ => mfc_B s end;
     mfc_C := match c with ChC => d | _ => mfc_C s end;
     mfc_D := match c with ChD => d | _ => mfc_D s end;
     mfc_E := match c with ChE => d | _ => mfc_E s end;
     is_busy := is_busy s; heap := heap s; log := log s;
     hw_ok := hw_ok s |}.

Definition with_log (l : list (event F)) (s : GS) : GS :=
  {| mfc_A := mfc_A s; mfc_B := mfc_B s; mfc_C := mfc_C s;
     mfc_D := mfc_D s; mfc_E := mfc_E s;
     is_busy := is_busy s; heap := heap s; log := l; hw_ok := hw_ok s |}.

Definition with_heap (h : gmap loc (list F)) (s : GS) : GS :=
  {| mfc_A := mfc_A s; mfc_B := mfc_B s; mfc_C := mfc_C s;
     mfc_D := mfc_D s; mfc_E := mfc_E s;
     is_busy := is_busy s; heap := h; log := log s; hw_ok := hw_ok s |}.

(** [self.is_busy = b] *)
Definition set_busy (b : bool) : M GS unit :=
  fun s =>
    (Returned tt,
     {| mfc_A := mfc_A s; mfc_B := mfc_B s; mfc_C := mfc_C s;
        mfc_D := mfc_D s; mfc_E := mfc_E s;
        is_busy := b; heap := heap s; log := log s; hw_ok := hw_ok s |}).

(** [while self.is_busy: time.sleep(0)] *)
Definition wait_idle : M GS unit :=
  fun s => if is_busy s then (Spins, s) else (Returned tt, s).

(** What a command that is carried out does to its device. *)
Definition apply_cmd (cmd : command F) (d : mfc_state F) : mfc_state F :=
  match cmd with
  | SetGas g => Mfc g (mass_flow d)
  | SetFlowRate x => Mfc (gas d) x
  | CreateMix _ _ _ | Get | Close => d
  end.

(** One driver call on channel [c].  It is entered in the log with the
    flag's value; it raises when the driver refuses it, and otherwise
    returns the device's state after it. *)
Definition issue (c : channel) (cmd : command F) : M GS (mfc_state F) :=
  fun s =>
    let ok := hw_ok s (length (log s)) in
    let s1 := with_log (log s ++ [Event c cmd (is_busy s) ok]) s in
    if ok then
      let d := apply_cmd cmd (mfc c s1) in
      (Returned d, with_mfc c d s1)
    else (Raised HardwareError, s1).

(** Reading and overwriting a list object of the caller. *)
Definition load (r : loc) : M GS (list F) :=
  fun s =>
    match heap s !! r with
    | Some l => (Returned l, s)
    | None => (Raised ValueError, s)
    end.

Definition store (r : loc) (l : list F) : M GS unit :=
  fun s => (Returned tt, with_heap (<[r := l]> (heap s)) s).

(** [check_comp_total]: the slice assignment [comp_list[:] = ...] rewrites
    the caller's list; the very same object is returned. *)
Definition check_comp_total (comp_list : loc) : M GS loc :=
  l <- load comp_list ;;
  (if sum l =?! hundred
   then store comp_list (map (fun x => x /! hundred) l)
   else ret tt) ;;;
  l' <- load comp_list ;;
  if negb (sum l' =?! one) && negb (sum l' =?! zero)
  then raise AttributeError
  else ret comp_list.

Definition set_gasses (gas_list : list gas_sel) : M GS unit :=
  wait_idle ;;;
  set_busy true ;;;
  g0 <- getitem gas_list 0 ;; issue ChA (SetGas g0) ;;;
  g1 <- getitem gas_list 1 ;; issue ChB (SetGas g1) ;;;
  g2 <- getitem gas_list 2 ;; issue ChC (SetGas g2) ;;;
  g3 <- getitem gas_list 3 ;; issue ChD (SetGas g3) ;;;
  set_busy false.

(** The mixture for channel E: percents keyed by gas, zero values
    dropped. *)
Definition gas_dict_of (gas_list : list gas_sel) (comp : list F)
  : dict gas_sel F :=
  let percents := map (fun x => x *! hundred) comp in
  List.filter (fun kv => negb (snd kv =?! zero))
              (dict_of gas_eqb (combine gas_list percents)).

Definition set_gasE (comp_list : loc) : M GS unit :=
  comp_list <- check_comp_total comp_list ;;
  wait_idle ;;;
  set_busy true ;;;
  a <- issue ChA Get ;;
  b <- issue ChB Get ;;
  c <- issue ChC Get ;;
  d <- issue ChD Get ;;
  l <- load comp_list ;;
  let gas_dict := gas_dict_of [gas a; gas b; gas c; gas d] l in
  (if (1 <? length gas_dict)%nat then
     issue ChE (CreateMix 236 "output" gas_dict) ;;;
     issue ChE (SetGas (MixNo 236)) ;;;
     ret tt
   else
     k <- getitem (map fst gas_dict) 0 ;;
     issue ChE (SetGas k) ;;;
     ret tt) ;;;
  set_busy false.

Definition set_flows (comp_list : loc) (tot_flow : F) : M GS unit :=
  comp_list <- check_comp_total comp_list ;;
  wait_idle ;;;
  set_busy true ;;;
  l <- load comp_list ;;
  x0 <- getitem l 0 ;; issue ChA (SetFlowRate (x0 *! tot_flow)) ;;;
  x1 <- getitem l 1 ;; issue ChB (SetFlowRate (x1 *! tot_flow)) ;;;
  x2 <- getitem l 2 ;; issue ChC (SetFlowRate (x2 *! tot_flow)) ;;;
  x3 <- getitem l 3 ;; issue ChD (SetFlowRate (x3 *! tot_flow)) ;;;
  set_busy false ;;;
  set_gasE comp_list.

(** [print_flows] reads every device twice, for ['mass_flow'] and for
    ['gas']; what it prints is not modelled. *)
Definition print_flows : M GS unit :=
  wait_idle ;;;
  set_busy true ;;;
  issue ChA Get ;;; issue ChA Get ;;;
  issue ChB Get ;;; issue ChB Get ;;;
  issue ChC Get ;;; issue ChC Get ;;;
  issue ChD Get ;;; issue ChD Get ;;;
  issue ChE Get ;;; issue ChE Get ;;;
  set_busy false.

Definition print_details : M GS unit :=
  wait_idle ;;;
  set_busy true ;;;
  issue ChA Get ;;; issue ChB Get ;;; issue ChC Get ;;;
  issue ChD Get ;;; issue ChE Get ;;;
  set_busy false.

(** [read_flows] returns the five states, in the order of the keys
    ['mfc_A' .. 'mfc_E']. *)
Definition read_flows : M GS (list (mfc_state F)) :=
  wait_idle ;;;
  set_busy true ;;;
  a <- issue ChA Get ;;
  b <- issue ChB Get ;;
  c <- issue ChC Get ;;
  d <- issue ChD Get ;;
  e <- issue ChE Get ;;
  set_busy false ;;;
  ret [a; b; c; d; e].

(** [gas in ['Ar', 'N2']] *)
Definition is_inert (g : gas_sel) : bool :=
  gas_eqb g (GasName "Ar") || gas_eqb g (GasName "N2").

(** One turn of the loop of [shut_down]. *)
Definition shut_down_one (c : channel) : M GS unit :=
  d <- issue c Get ;;
  (if is_inert (gas d)
   then issue c (SetFlowRate one)
   else issue c (SetFlowRate zero)) ;;;
  ret tt.

Definition shut_down : M GS unit :=
  wait_idle ;;;
  set_busy true ;;;
  shut_down_one ChA ;;;
  shut_down_one ChB ;;;
  shut_down_one ChC ;;;
  shut_down_one ChD ;;;
  set_busy false.

Definition disconnect : M GS unit :=
  shut_down ;;;
  wait_idle ;;;
  set_busy true ;;;
  issue ChA Close ;;; issue ChB Close ;;; issue ChC Close ;;;
  issue ChD Close ;;; issue ChE Close ;;;
  set_busy false.

(** [x.split('_')[0]] *)
Fixpoint base_name (x : string) : string :=
  match x with
  | EmptyString => EmptyString
  | String a x' =>
      if Ascii.eqb a "_"%char then EmptyString else String a (base_name x')
  end.

(** [percents[~percents.index.duplicated()]]: the first entry of every
    label stays. *)
Fixpoint drop_duplicated (seen : list string) (l : list (string * F))
  : list (string * F) :=
  match l with
  | [] => []
  | (k, v) :: l' =>
      if existsb (String.eqb k) seen then drop_duplicated seen l'
      else (k, v) :: drop_duplicated (k :: seen) l'
  end.

Context `{Pandas F}.

(** The mixture [set_calibration_gas] writes, from the rows
    [(Chem ID, ppm)] of [calDF]. *)
Definition cal_mix (calDF : list (string * F)) (fill_gas : string)
  : dict gas_sel F :=
  let percents :=
    map (fun kv => (base_name (fst kv), snd kv /! of_Z 10000)) calDF in
  let percents := drop_duplicated [] percents in
  let percents :=
    dict_set String.eqb percents fill_gas
             (hundred -! Series_sum (map snd percents)) in
  let percents := sort_values percents in
  let percents :=
    List.filter (fun kv => existsb (String.eqb (fst kv)) factory_gasses)
                percents in
  map (fun kv => (GasName (fst kv), snd kv)) (firstn 5 percents).

(** [set_calibration_gas] calls the driver of the device it is given and
    never looks at [is_busy]. *)
Definition set_calibration_gas (mfc : channel) (calDF : list (string * F))
    (fill_gas : string) : M GS unit :=
  issue mfc (CreateMix 237 "CalGas" (cal_mix calDF fill_gas)) ;;;
  ret tt.
End GasSystem.

(** One pandas, to run the model with: it adds from left to right and
    sorts by insertion, which keeps equal values in their order.  The
    statements about [set_calibration_gas] are made for every [Pandas];
    this one is used on tables where the choice cannot show: at most two
    values to add, and no two values equal. *)
Fixpoint insert_desc {F} `{Number F} (kv : string * F)
    (l : list (string * F)) : list (string * F) :=
  match l with
  | [] => [kv]
  | h :: t =>
      if snd kv <?! snd h then h :: insert_desc kv t else kv :: h :: t
  end.

#[export] Instance insertion_Pandas {F} `{Number F} : Pandas F := {
  Series_sum := sum;
  sort_values := fold_right insert_desc []
}.

(** ** The calibration fit ([analyze_cal_data]) *)

(** [np.polyfit(x, y, 1, cov=True, w=w)] with the square roots of the
    diagonal of its covariance: slope, intercept and their errors, or
    [np.linalg.LinAlgError]. *)
Inductive polyfit_result (F : Type) :=
| Fitted (m b err_m err_b : F)
| LinAlgError.
Arguments Fitted {F}.
Arguments LinAlgError {F}.

(** A row of the calibration table; the four fitted cells are empty until
    something is written to them. *)
Record cal_entry (F : Type) := CalEntry {
  ppm : F;
  slope : option F;
  err_slope : option F;
  intercept : option F;
  err_intercept : option F
}.
Arguments CalEntry {F}.
Arguments ppm {F}.
Arguments slope {F}.
Arguments err_slope {F}.
Arguments intercept {F}.
Arguments err_intercept {F}.

Section Calibration.
Context {F : Type} `{Number F}.

(** The numerical fit, a library routine. *)
Variable polyfit : list F -> list F -> list F -> polyfit_result F.

(** The constant [1e-19]. *)
Variable tiny : F.

Local Abbreviation table := (list (string * cal_entry F)).

(** The local variables [m, err_m, b, err_b] of the loop: unbound until
    the first fit that succeeds. *)
Local Abbreviation locals := (option (F * F * F * F)).

(** [new_calibration.loc[chemical, 'slope':'err_intercept'] = [...]] *)
Definition loc_set (t : table) (chemical : string) (v : F * F * F * F)
  : table :=
  map (fun ke =>
         if String.eqb (fst ke) chemical then
           let '(m, err_m, b, err_b) := v in
           (fst ke, CalEntry (ppm (snd ke)) (Some m) (Some err_m)
                             (Some b) (Some err_b))
         else ke) t.

(** The three vectors handed to the fit. *)
Definition fit_data (force_zero : bool) (expected_ppm avg std : list F)
  : list F * list F * list F :=
  if force_zero
  then (zero :: expected_ppm, zero :: avg, tiny :: std)
  else (expected_ppm, avg, std).

(** One turn of the loop over the chemicals: the [try] block binds the
    four locals when the fit succeeds, the [except] block only labels the
    plot, and the assignment after them runs in both cases. *)
Definition fit_chemical (force_zero : bool) (calgas_flow : list F)
    (avg std : string -> list F) (st : locals * table)
    (chem : string * F) : exn + locals * table :=
  let '(vars, t) := st in
  let chemical := fst chem in
  let expected_ppm := map (fun f => snd chem *! f) calgas_flow in
  let '(x_data, y_data, y_err) :=
    fit_data force_zero expected_ppm (avg chemical) (std chemical) in
  let vars' :=
    match polyfit x_data y_data (map (fun e => one /! e) y_err) with
    | Fitted m b err_m err_b => Some (m, err_m, b, err_b)
    | LinAlgError => vars
    end in
  match vars' with
  | Some v => inr (vars', loc_set t chemical v)
  | None => inl UnboundLocalError
  end.

Fixpoint fit_loop (force_zero : bool) (calgas_flow : list F)
    (avg std : string -> list F) (st : locals * table)
    (chems : list (string * F)) : exn + locals * table :=
  match chems with
  | [] => inr st
  | chem :: rest =>
      match fit_chemical force_zero calgas_flow avg std st chem with
      | inl e => inl e
      | inr st' => fit_loop force_zero calgas_flow avg std st' rest
      end
  end.

(** [analyze_cal_data], from the table [calDF], the averages and standard
    deviations of [run_analysis] and the calibration-gas flows read off the
    condition labels, to the table written to [calibration.csv].  The plot
    grid is sized first: [n_rows = len // 3], and
    [n_cols = -(-len // n_rows)] divides by it. *)
Definition analyze_cal_data (calDF : table) (avg std : string -> list F)
    (calgas_flow : list F) (force_zero : bool) : exn + table :=
  let n_rows := (length calDF / 3)%nat in
  if (n_rows =? 0)%nat then inl ZeroDivisionError
  else
    match fit_loop force_zero calgas_flow avg std (None, calDF)
                   (map (fun ke => (fst ke, ppm (snd ke))) calDF) with
    | inl e => inl e
    | inr (_, t) => inr t
    end.
End Calibration.

(** ** The study runner ([MainWindow.start_study], [MainWindow.shut_down]) *)


Inductive gui_event :=
| ToggleControls (b : bool)
| RunExperiment (i : nat)
| ShutDownCalled
| GasShutDown
| HeaterShutDown
| LaserShutDown (i : nat).




(** [for x in l: body(x)] *)
Fixpoint for_each {S A} (l : list A) (body : A -> M S unit) : M S unit :=
  match l with
  | [] => ret tt
  | x :: l' => body x ;;; for_each l' body
  end.





(** ** Observations and inputs used by the statements *)

Section Observations.
Context {F : Type} `{Number F}.

(** The fill vector [update_ind_var] has computed when it reaches the
    test [(fill_vals < 0).any()], if it gets that far. *)
Definition computed_fill (rows : list (row F)) : option (list F) :=
  if existsb (has_status Unset) rows then None
  else if negb (row_count Fill rows =? 1)%nat
          || negb (row_count IndVariable rows =? 1)%nat then None
  else
    match rows_of IndVariable rows with
    | [] => None
    | r :: _ =>
        match sweep_range r with
        | RangeOk ind => Some (fill_vals rows ind)
        | _ => None
        end
    end.

(** The independent variable in the words of the specification:
    [arange(start, stop + step, step) / 100]. *)
Definition spec_ind_var (r : row F) : option (list F) :=
  match arange (Start r) (Stop r +! Step r) (Step r) with
  | Some v => Some (map (fun x => x /! hundred) v)
  | None => None
  end.

(** The tests [== 100], [!= 1] and [!= 0] of [check_comp_total] tell the
    three values apart. *)
Definition exact_tests : Prop :=
  forall x : F,
    (x =?! one) || (x =?! zero) = true -> (x =?! hundred) = false.

(** The list [check_comp_total] leaves in the caller's object. *)
Definition rescaled (l : list F) : list F :=
  if sum l =?! hundred then map (fun x => x /! hundred) l else l.

(** The operations of [Gas_System] that wait for the flag. *)
Inductive operation :=
| Op_set_gasses (gas_list : list gas_sel)
| Op_set_flows (comp_list : loc) (tot_flow : F)
| Op_set_gasE (comp_list : loc)
| Op_print_flows
| Op_print_details
| Op_read_flows
| Op_shut_down
| Op_disconnect.

Definition run_op (op : operation) : M (Gas_System F) unit :=
  match op with
  | Op_set_gasses gas_list => set_gasses gas_list
  | Op_set_flows comp_list tot_flow => set_flows comp_list tot_flow
  | Op_set_gasE comp_list => set_gasE comp_list
  | Op_print_flows => print_flows
  | Op_print_details => print_details
  | Op_read_flows => read_flows ;;; ret tt
  | Op_shut_down => shut_down
  | Op_disconnect => disconnect
  end.

(** The commands issued between two states. *)
Definition issued (s s' : Gas_System F) : list (event F) :=
  skipn (length (log s)) (log s').

(** A gas system at rest: the four controllers on the gases [gs], channel
    E on argon, the flag clear, the list [l] stored at address 0, nothing
    issued yet and a driver that carries out every command. *)
Definition at_rest (gs : list string) (l : list F) : Gas_System F :=
  {| mfc_A := Mfc (GasName (nth 0 gs ""%string)) zero;
     mfc_B := Mfc (GasName (nth 1 gs ""%string)) zero;
     mfc_C := Mfc (GasName (nth 2 gs ""%string)) zero;
     mfc_D := Mfc (GasName (nth 3 gs ""%string)) zero;
     mfc_E := Mfc (GasName "Ar") zero;
     is_busy := false;
     heap := {[ 0%nat := l ]};
     log := [];
     hw_ok := fun _ => true |}.
End Observations.

Definition is_create_mix {F} (e : event F) : bool :=
  match ev_cmd e with
  | CreateMix _ _ _ => true
  | _ => false
  end.

(** The commands sent to channel E. *)
Definition to_channel_E {F} (l : list (event F)) : list (event F) :=
  List.filter (fun e => match ev_chan e with ChE => true | _ => false end) l.


Definition is_run_experiment (e : gui_event) : bool :=
  match e with
  | RunExperiment _ => true
  | _ => false
  end.




(** A stand-in for the fit on exact rationals: singular when the measured
    counts do not vary, and otherwise the line through the first and the
    last point, with no error. *)
Definition demo_polyfit (x y w : list Q) : polyfit_result Q :=
  match x, y with
  | x0 :: _, y0 :: _ =>
      let x1 := List.last x x0 in
      let y1 := List.last y y0 in
      if forallb (Qeq_bool y0) y then LinAlgError
      else
        let m := Qred ((y1 - y0) / (x1 - x0)) in
        Fitted m (Qred (y0 - m * x0)) 0%Q 0%Q
  | _, _ => LinAlgError
  end.

(** Three chemicals at 100, 200 and 300 ppm, measured at calibration-gas
    flows 0.5 and 1. *)
Definition demo_calDF : list (string * cal_entry Q) :=
  [ ("CH4"%string, CalEntry 100%Q None None None None);
    ("C2H4"%string, CalEntry 200%Q None None None None);
    ("C2H6"%string, CalEntry 300%Q None None None None) ].

Definition demo_flows : list Q := [1 # 2; 1%Q].

(** Counts on the lines [2 * ppm + 5], [3 * ppm + 7] and [4 * ppm + 1],
    except for the chemical [flat], whose counts are all zero. *)
Definition demo_avg (flat : string) (chemical : string) : list Q :=
  if String.eqb chemical flat then [0%Q; 0%Q]
  else if String.eqb chemical "CH4" then [105%Q; 205%Q]
  else if String.eqb chemical "C2H4" then [307%Q; 607%Q]
  else [601%Q; 1201%Q].

Definition demo_std (chemical : string) : list Q := [1%Q; 1%Q].

(** Sample rows and forms for the planner. *)

(** As [demo_rows], with gas 3 fixed at 95 percent: the fill drops below
    zero from the second sweep index on. *)
Definition overflow_rows {F} `{Number F} : list (row F) :=
  [ Row zero IndVariable zero (of_Z 10) (of_Z 5);
    Row zero Fixed zero zero zero;
    Row zero Fixed (of_Z 95) zero zero;
    Row zero Fill zero zero zero ].

(** A sweep of gas 1 from [start] to [stop] percent in steps of [step],
    gas 2 fixed at 10 percent, gas 3 at 0 and gas 4 as fill. *)
Definition range_rows {F} `{Number F} (start stop step : Z) : list (row F) :=
  [ Row zero IndVariable (of_Z start) (of_Z stop) (of_Z step);
    Row zero Fixed (of_Z 10) zero zero;
    Row zero Fixed zero zero zero;
    Row zero Fill zero zero zero ].

Definition form_of {F} `{Number F} (rows : list (row F)) : design_form F :=
  {| comp_sweep_widgets := rows;
     IndVar_start := zero; IndVar_stop := zero; IndVar_step := zero |}.

Definition demo_expt {F} : Experiment F :=
  {| expt_type := "comp_sweep"; ind_var := "gas_comp"; attrs := ∅ |}.

(** ** A Hoare logic for the state monad *)

(** From a state in [P], the computation [m] ends in an outcome and a
    state related by [Q]. *)
Definition hoare {S A} (P : S -> Prop) (m : M S A)
    (Q : outcome A -> S -> Prop) : Prop :=
  forall s, P s -> Q (fst (m s)) (snd (m s)).

(** ** The flag discipline of [Gas_System], as predicates *)

Section FlagPredicates.
Context {F : Type}.

Local Abbreviation GS := (Gas_System F).

(** Every command issued after the first [n] was issued with the flag
    set. *)
Definition good (n : nat) (s : GS) : Prop :=
  Forall (fun e => ev_busy e = true) (skipn n (log s)).

Definition Busy (n : nat) (s : GS) : Prop := is_busy s = true /\ good n s.
Definition Idle (n : nat) (s : GS) : Prop := is_busy s = false /\ good n s.

(** An outcome met inside a bracket: the call goes on or fails, but it
    neither spins nor fails the composition check. *)
Definition passes {A} (o : outcome A) : Prop :=
  match o with
  | Returned _ => True
  | Raised e => e <> AttributeError
  | Spins => False
  end.

(** The outcomes after which the flag has to be clear: a normal return
    and a failed composition check. *)
Definition clears {A} (o : outcome A) : bool :=
  match o with
  | Returned _ | Raised AttributeError => true
  | _ => false
  end.

(** A step inside a bracket keeps the flag set. *)
Definition inner {A} (n : nat) (m : M GS A) : Prop :=
  hoare (Busy n) m (fun o s => Busy n s /\ passes o).

(** What an operation owes its caller: its commands went out under the
    flag, the flag is clear after the outcomes of [clears], and the call
    has come back. *)
Definition closed {A} (n : nat) (o : outcome A) (s : GS) : Prop :=
  good n s /\ (clears o = true -> is_busy s = false) /\ o <> Spins.

Definition closing {A} (n : nat) (m : M GS A) : Prop :=
  hoare (Busy n) m (closed n).

Definition bracketed {A} (n : nat) (m : M GS A) : Prop :=
  hoare (Idle n) m (closed n).

(** A state met while [set_gasE] reads the four controllers of [s0]: the
    flag is set, the driver carries out every command, and the store, the
    devices and the commands sent to channel E are those of [s0]. *)
Definition reading (s0 s : GS) : Prop :=
  is_busy s = true
  /\ (forall n, hw_ok s n = true)
  /\ heap s = heap s0
  /\ mfc_A s = mfc_A s0 /\ mfc_B s = mfc_B s0 /\ mfc_C s = mfc_C s0
  /\ mfc_D s = mfc_D s0 /\ mfc_E s = mfc_E s0
  /\ to_channel_E (log s) = to_channel_E (log s0).

(** The computation [m] leaves a store [h] as it is. *)
Definition keeps {A} (h : gmap loc (list F)) (m : M GS A) : Prop :=
  hoare (fun s => heap s = h) m (fun _ s => heap s = h).
End FlagPredicates.

(** ** Further observations of the gas system *)

Section GasObservations.
Context {F : Type} `{Number F}.

(** The five devices, A to E. *)
Definition devices (s : Gas_System F) : list (mfc_state F) :=
  [mfc_A s; mfc_B s; mfc_C s; mfc_D s; mfc_E s].

(** The driver carries out every command. *)
Definition works (s : Gas_System F) : Prop :=
  forall n, hw_ok s n = true.

(** A controller as [shut_down] leaves it: 1 sccm on argon or nitrogen,
    no flow otherwise. *)
Definition safe_flow (d : mfc_state F) : mfc_state F :=
  Mfc (gas d) (if is_inert (gas d) then one else zero).

(** Channels and commands of a list of events. *)
Definition commands (l : list (event F)) : list (channel * command F) :=
  map (fun e => (ev_chan e, ev_cmd e)) l.

(** The state after [self.is_busy = b]. *)
Definition with_busy (b : bool) (s : Gas_System F) : Gas_System F :=
  snd (set_busy b s).

(** The state after a command that the driver has carried out. *)
Definition after (c : channel) (cmd : command F) (s : Gas_System F)
  : Gas_System F :=
  with_mfc c (apply_cmd cmd (mfc c s))
           (with_log (log s ++ [Event c cmd (is_busy s) true]) s).

(** The bank [s] with a driver that refuses the command number [k]. *)
Definition with_fault (k : nat) (s : Gas_System F) : Gas_System F :=
  {| mfc_A := mfc_A s; mfc_B := mfc_B s; mfc_C := mfc_C s;
     mfc_D := mfc_D s; mfc_E := mfc_E s;
     is_busy := is_busy s; heap := heap s; log := log s;
     hw_ok := fun n => negb (Nat.eqb n k) |}.

(** The exceptions raised between [self.is_busy = True] and
    [self.is_busy = False]: by the driver, or by an index out of range. *)
Definition raised_in_bracket {A} (o : outcome A) : bool :=
  match o with
  | Raised HardwareError | Raised IndexError => true
  | _ => false
  end.

(** What an operation started idle leaves behind: the flag clear when it
    returns, the flag set when it fails inside its bracket. *)
Definition flag_after {A} (o : outcome A) (s : Gas_System F) : Prop :=
  match o with
  | Returned _ => is_busy s = false
  | Raised e =>
      raised_in_bracket (Raised (A:=A) e) = true -> is_busy s = true
  | Spins => False
  end.


End GasObservations.

(** ** The pressure test ([Gas_System.test_pressure]) *)

(** [range(start, stop, step)] for a positive step. *)
Definition range (start stop step : Z) : list Z :=
  map (fun i => (start + Z.of_nat i * step)%Z)
      (seq 0 (Z.to_nat ((stop - start + step - 1) / step))).

Section PressureTest.
Context {F : Type} `{Number F}.

Local Abbreviation GS := (Gas_System F).

(** One turn of the first loop: a controller on argon or nitrogen becomes
    the test controller, any other is set to zero. *)
Definition test_pressure_scan (c : channel) (test_mfc : option channel)
  : M GS (option channel) :=
  d <- issue c Get ;;
  if is_inert (gas d) then ret (Some c)
  else (issue c (SetFlowRate zero) ;;; ret test_mfc).

(** One sample: the pressure at the test controller and the flow at the
    meter; the minute of sleep and the table of readings are left out. *)
Definition test_pressure_sample (c : channel) : M GS unit :=
  issue c Get ;;; issue ChE Get ;;; ret tt.

Definition test_pressure_setpoint (c : channel) (setpoint : Z) : M GS unit :=
  issue c (SetFlowRate (of_Z setpoint)) ;;;
  for_each (range 0 5 1) (fun _ => test_pressure_sample c).

(** [test_pressure] up to the plots and files it writes at the end.  The
    name [test_mfc] is bound only when a controller holds argon or
    nitrogen. *)
Definition test_pressure : M GS unit :=
  t <- test_pressure_scan ChA None ;;
  t <- test_pressure_scan ChB t ;;
  t <- test_pressure_scan ChC t ;;
  t <- test_pressure_scan ChD t ;;
  match t with
  | None => raise UnboundLocalError
  | Some c =>
      d <- issue c Get ;;
      issue ChE (SetGas (gas d)) ;;;
      print_flows ;;;
      for_each (range 5 51 5) (test_pressure_setpoint c)
  end.

Definition channel_eqb (a b : channel) : bool :=
  match a, b with
  | ChA, ChA | ChB, ChB | ChC, ChC | ChD, ChD | ChE, ChE => true
  | _, _ => false
  end.

(** The controller the test runs on: the last of A to D that holds argon
    or nitrogen. *)
Definition test_channel (s : GS) : option channel :=
  List.find (fun c => is_inert (gas (mfc c s))) [ChD; ChC; ChB; ChA].

(** A controller after the first loop: one that holds neither argon nor
    nitrogen is closed. *)
Definition vented (d : mfc_state F) : mfc_state F :=
  if is_inert (gas d) then d else Mfc (gas d) zero.

(** The device on channel [x] after a test on controller [c]. *)
Definition pressure_tested (c : channel) (s : GS) (x : channel)
  : mfc_state F :=
  if channel_eqb x ChE then Mfc (gas (mfc c s)) (mass_flow (mfc_E s))
  else if channel_eqb x c then Mfc (gas (mfc c s)) (of_Z 50)
  else vented (mfc x s).
End PressureTest.

(** ** The grid of the composition sweep ([update_ind_var_grid]) *)

Section Grid.
Context {F : Type} `{Number F}.

(** [selection_rule]: which of the widgets Multiplier, Start, Stop and
    Step of a row [update_ind_var_grid] enables for the row's status. *)
Definition selection_rule (s : status) : bool * bool * bool * bool :=
  match s with
  | Fill => (false, false, false, false)
  | Fixed => (false, true, false, false)
  | Multiple => (true, false, false, false)
  | IndVariable => (false, true, true, true)
  | Unset => (false, false, false, false)
  end.

(** Two rows with the same status and the same values in the widgets
    that are enabled for it. *)
Definition same_enabled (r r' : row F) : Prop :=
  Status r = Status r'
  /\ let '(m, a, b, c) := selection_rule (Status r) in
     (m = true -> Multiplier r = Multiplier r')
     /\ (a = true -> Start r = Start r')
     /\ (b = true -> Stop r = Stop r')
     /\ (c = true -> Step r = Step r').
End Grid.

(** ** The data files ([list_FID], [list_TCD], [get_run_number]) *)

(** File names are strings of characters with codes below 256; among
    these the pattern [\d] matches the ten ASCII digits only. *)
Definition is_digit (c : ascii) : bool :=
  ((48 <=? N_of_ascii c) && (N_of_ascii c <=? 57))%N.

(** [s.split(sep)] for a separator of one character. *)
Fixpoint split (sep : ascii) (s : string) : list string :=
  match s with
  | EmptyString => [EmptyString]
  | String c s' =>
      if Ascii.eqb c sep then EmptyString :: split sep s'
      else match split sep s' with
           | [] => [String c EmptyString]
           | h :: t => String c h :: t
           end
  end.

(** [l[i]] for an index that may be negative. *)
Definition getitem_wrap {A} (l : list A) (i : Z) : exn + A :=
  let n := Z.of_nat (length l) in
  let j := if (i <? 0)%Z then (n + i)%Z else i in
  if (j <? 0)%Z then inl IndexError
  else match nth_error l (Z.to_nat j) with
       | Some x => inr x
       | None => inl IndexError
       end.

Fixpoint take_while {A} (p : A -> bool) (l : list A) : list A :=
  match l with
  | [] => []
  | x :: l' => if p x then x :: take_while p l' else []
  end.

(** [re.search(r'\d+$', s)]: the longest run of digits that ends where
    [$] matches, at the end of [s] or before a newline that ends [s]. *)
Definition search_digits_end (s : string) : option (list ascii) :=
  let r := rev (list_ascii_of_string s) in
  let r := match r with
           | c :: r' => if Ascii.eqb c "010" then r' else r
           | [] => r
           end in
  match take_while is_digit r with
  | [] => None
  | ds => Some (rev ds)
  end.

(** [int(digits)] for a string of decimal digits, of which a file name
    holds far fewer than the 4300 that Python converts. *)
Definition int_of_digits (ds : list ascii) : Z :=
  fold_left (fun n c => (10 * n + (Z.of_N (N_of_ascii c) - 48))%Z) ds 0%Z.

Definition get_run_number (filename : string) : exn + option Z :=
  let parts := split "." filename in
  match getitem_wrap parts (Z.of_nat (length parts) - 2) with
  | inl e => inl e
  | inr run_num_part =>
      inr (option_map int_of_digits (search_digits_end run_num_part))
  end.

(** The last character of [s] is a digit. *)
Definition ends_in_digit (s : string) : bool :=
  match rev (list_ascii_of_string s) with
  | c :: _ => is_digit c
  | [] => false
  end.

(** [s.endswith(suffix)] *)
Definition endswith (s suffix : string) : bool :=
  String.prefix (string_of_list_ascii (rev (list_ascii_of_string suffix)))
                (string_of_list_ascii (rev (list_ascii_of_string s))).

(** [sub in s] *)
Fixpoint contains (sub s : string) : bool :=
  String.prefix sub s
  || match s with
     | EmptyString => false
     | String _ s' => contains sub s'
     end.

(** [sorted(l)] on strings, which Python compares by the codes of their
    characters. *)
Fixpoint insert_sorted (x : string) (l : list string) : list string :=
  match l with
  | [] => [x]
  | h :: t => if String.leb x h then x :: l else h :: insert_sorted x t
  end.

Definition sorted (l : list string) : list string :=
  fold_right insert_sorted [] l.

(** [list_FID] and [list_TCD], from the names [os.listdir] returns. *)
Definition list_FID (listdir : list string) : list string :=
  List.filter (fun filename =>
                 endswith filename ".ASC" && contains "FID" filename)
              (sorted listdir).

Definition list_TCD (listdir : list string) : list string :=
  List.filter (fun filename =>
                 endswith filename ".ASC" && contains "TCD" filename)
              (sorted listdir).

(** ** The index of the result tables ([convert_index]) *)

(** [re.sub(r'\D', '', s)] *)
Definition sub_nondigits (s : string) : list ascii :=
  List.filter is_digit (list_ascii_of_string s).

(** The binary64 value nearest to an integer, ties to even; infinite
    from [2^1024 - 2^970] on. *)
Definition nearest_float (z : Z) : float :=
  SF2Prim (binary_normalize prec emax z 0 false).

(** [float(digits)] for a string of decimal digits: the number it
    spells, rounded to binary64; the empty string is refused. *)
Definition float_of_digits (ds : list ascii) : exn + float :=
  match ds with
  | [] => inl ValueError
  | _ => inr (nearest_float (int_of_digits ds))
  end.

(** [astype(float)] over the labels, in their order. *)
Fixpoint astype_float (labels : list (list ascii)) : exn + list float :=
  match labels with
  | [] => inr []
  | l :: rest =>
      match float_of_digits l with
      | inl e => inl e
      | inr x =>
          match astype_float rest with
          | inl e => inl e
          | inr xs => inr (x :: xs)
          end
      end
  end.

(** [convert_index], from the labels of the index to the new index; the
    first label is read for the unit before any row is dropped. *)
Definition convert_index (index : list string) : exn + list float :=
  match index with
  | [] => inl IndexError
  | _ =>
      let kept :=
        List.filter (fun l => negb (String.eqb l "Over_Run_Data")) index in
      astype_float (map sub_nondigits kept)
  end.

(** A label written as a decimal number with a unit. *)
Definition decimal_label (wfu : string * string * string) : string :=
  let '(whole, frac, unit) := wfu in
  (whole ++ String "." (frac ++ unit))%string.

(** ** Further observations of the calibration fit *)

Section CalibrationObservations.
Context {F : Type} `{Number F}.
Variable polyfit : list F -> list F -> list F -> polyfit_result F.
Variable tiny : F.

(** The fit [analyze_cal_data] asks for, for the chemical [chem] with its
    ppm value. *)
Definition fit_of (force_zero : bool) (calgas_flow : list F)
    (avg std : string -> list F) (chem : string * F) : polyfit_result F :=
  let expected_ppm := map (fun f => snd chem *! f) calgas_flow in
  let '(x_data, y_data, y_err) :=
    fit_data tiny force_zero expected_ppm (avg (fst chem)) (std (fst chem)) in
  polyfit x_data y_data (map (fun e => one /! e) y_err).

(** A row with the result of a fit written to it. *)
Definition fitted_row (ke : string * cal_entry F) (r : polyfit_result F)
  : string * cal_entry F :=
  match r with
  | Fitted m b err_m err_b =>
      (fst ke, CalEntry (ppm (snd ke)) (Some m) (Some err_m)
                        (Some b) (Some err_b))
  | LinAlgError => ke
  end.

(** All four fitted cells of a row hold a value. *)
Definition is_filled (e : cal_entry F) : bool :=
  match slope e, err_slope e, intercept e, err_intercept e with
  | Some _, Some _, Some _, Some _ => true
  | _, _, _, _ => false
  end.
End CalibrationObservations.

(** ** Binary64 values *)

(** The integer a finite binary64 value stands for, in units of
    [2^-1074], the least positive value; 0 for the others. *)
Definition sval (x : spec_float) : Z :=
  match x with
  | S754_finite s m e => cond_Zopp s (Zpos m * 2 ^ (e + 1074))%Z
  | _ => 0%Z
  end.

(** Zero or finite. *)
Definition is_finite_sf (x : spec_float) : bool :=
  match x with
  | S754_zero _ | S754_finite _ _ _ => true
  | _ => false
  end.

(** Zero, or finite, positive and below [2^B]. *)
Definition bnd (B : Z) (x : spec_float) : Prop :=
  match x with
  | S754_zero _ => True
  | S754_finite false m e => (Zpos (digits2_pos m) + e <= B)%Z
  | _ => False
  end.

(** [mrs] is what is left of the integer [M] after [n] bits have been
    shifted out: the mantissa, and the place of [M] between two
    neighbours. *)
Definition located (M n : Z) (mrs : shr_record) : Prop :=
  let m := shr_m mrs in
  (0 <= m)%Z /\
  match shr_r mrs, shr_s mrs with
  | false, false => (M = 2 ^ n * m)%Z
  | false, true => (2 ^ n * m < M /\ 2 * M < 2 ^ n * (2 * m + 1))%Z
  | true, false => (2 * M = 2 ^ n * (2 * m + 1))%Z
  | true, true => (2 ^ n * (2 * m + 1) < 2 * M /\ M < 2 ^ n * (m + 1))%Z
  end.

(** The same without the place: the mantissa is [M / 2^n]. *)
Definition truncated (M n : Z) (mrs : shr_record) : Prop :=
  let m := shr_m mrs in
  (0 <= m /\ 2 ^ n * m <= M < 2 ^ n * (m + 1))%Z.

(** The integer a float stands for, in units of [2^-1074]. *)
Definition fval (x : float) : Z := sval (Prim2SF x).

(** Neither NaN nor infinite. *)
Definition is_finite (x : float) : bool := is_finite_sf (Prim2SF x).

(** Finite, not negative and below [2^B]. *)
Definition sized (B : Z) (x : float) : Prop := bnd B (Prim2SF x).

(** Negative: finite and below zero, or minus infinity. *)
Definition negative (x : float) : Prop :=
  (is_finite x = true /\ (fval x < 0)%Z) \/ Prim2SF x = S754_infinity true.

(** The rational number a finite value stands for. *)
Definition SF2Q (x : spec_float) : Q :=
  match x with
  | S754_finite s m e =>
      match e with
      | Zneg p => Qmake (cond_Zopp s (Zpos m)) (2 ^ p)%positive
      | _ => inject_Z (cond_Zopp s (Zpos m) * 2 ^ e)
      end
  | _ => 0%Q
  end.

Definition F2Q (x : float) : Q := SF2Q (Prim2SF x).

Definition zsum (l : list Z) : Z := fold_right Z.add 0%Z l.

(** Not negative: a zero, a positive value or plus infinity. *)
Definition nonneg_sf (x : spec_float) : bool :=
  match x with
  | S754_zero _ | S754_finite false _ _ | S754_infinity false => true
  | _ => false
  end.

Definition is_zero_sf (x : spec_float) : bool :=
  match x with
  | S754_zero _ => true
  | _ => false
  end.

(** The range of the spin boxes of the grid: a [QDoubleSpinBox] starts at
    0, and [setMaximum(101)] ends it at 101. *)
Definition in_spin_range (x : float) : bool :=
  (0 <=? x)%float && (x <=? 101)%float.

Definition grid_in_range (rows : list (row float)) : bool :=
  forallb (fun r => in_spin_range (Multiplier r) && in_spin_range (Start r)
                    && in_spin_range (Stop r) && in_spin_range (Step r))
          rows.


(** * Theorems *)

(** ** [check_comp_total] *)

Section CheckCompTotal.
Context {F : Type} `{Number F}.

Lemma rescaled_hundred (l : list F) :
  (sum l =?! hundred) = true -> rescaled l = map (fun x => x /! hundred) l.
Proof. unfold rescaled. intros ->. reflexivity. Qed.

Lemma rescaled_other (l : list F) :
  (sum l =?! hundred) = false -> rescaled l = l.
Proof. unfold rescaled. intros ->. reflexivity. Qed.

(** What [check_comp_total] does to a state in which [comp_list] holds
    [l]: only the store can change, only at [comp_list], and the result
    depends on the exact tests on the list left there. *)
Lemma check_comp_total_run (s : Gas_System F) (r : loc) (l : list F) :
  heap s !! r = Some l ->
  check_comp_total r s =
    (if negb (sum (rescaled l) =?! one) && negb (sum (rescaled l) =?! zero)
     then Raised AttributeError else Returned r,
     if sum l =?! hundred
     then with_heap (<[r := rescaled l]> (heap s)) s
     else s).
Proof.
  intros Hl. unfold check_comp_total, bind, load, store, rescaled, ret, raise.
  rewrite Hl. destruct (sum l =?! hundred) eqn:E; cbn.
  - rewrite lookup_insert_eq.
    destruct (negb _ && negb _); reflexivity.
  - rewrite Hl. destruct (negb _ && negb _); reflexivity.
Qed.

Lemma check_comp_total_heap (s : Gas_System F) (r : loc) (l : list F) :
  heap s !! r = Some l ->
  heap (snd (check_comp_total r s)) !! r = Some (rescaled l).
Proof.
  intros Hl. rewrite (check_comp_total_run s r l Hl). cbn.
  unfold rescaled. destruct (sum l =?! hundred); cbn.
  - apply lookup_insert_eq.
  - exact Hl.
Qed.

Lemma check_comp_total_frame (s : Gas_System F) (r : loc) :
  let s' := snd (check_comp_total r s) in
  is_busy s' = is_busy s /\ log s' = log s /\ hw_ok s' = hw_ok s /\
  mfc_A s' = mfc_A s /\ mfc_B s' = mfc_B s /\ mfc_C s' = mfc_C s /\
  mfc_D s' = mfc_D s /\ mfc_E s' = mfc_E s.
Proof.
  cbn zeta. unfold check_comp_total, bind, load, store, ret, raise.
  destruct (heap s !! r) as [l|] eqn:Hl; cbn; [|repeat split].
  destruct (sum l =?! hundred); cbn.
  - rewrite lookup_insert_eq. destruct (negb _ && negb _); cbn; repeat split.
  - rewrite Hl. destruct (negb _ && negb _); cbn; repeat split.
Qed.
End CheckCompTotal.


(** The three examples of the specification, in binary64. *)
Example check_comp_total_percent :
  let r := check_comp_total 0%nat
             (at_rest [] [25; 25; 25; 25]%float) in
  fst r = Returned 0%nat
  /\ heap (snd r) !! 0%nat = Some [0.25; 0.25; 0.25; 0.25]%float.
Proof. vm_compute. split; reflexivity. Qed.

Example check_comp_total_fraction :
  let r := check_comp_total 0%nat
             (at_rest [] [0.25; 0.25; 0.25; 0.25]%float) in
  fst r = Returned 0%nat
  /\ heap (snd r) !! 0%nat = Some [0.25; 0.25; 0.25; 0.25]%float.
Proof. vm_compute. split; reflexivity. Qed.

Example check_comp_total_ten :
  let r := check_comp_total 0%nat
             (at_rest [] [10; 10; 10; 10]%float) in
  fst r = Raised AttributeError
  /\ heap (snd r) !! 0%nat = Some [10; 10; 10; 10]%float.
Proof. vm_compute. split; reflexivity. Qed.



(** With additions from left to right, a list of percents that sums to
    exactly 100 can be refused after it has been rewritten: the fractions
    of [70, 10, 10, 10] add up to [1 - 2^-53]. *)
Example check_comp_total_percent_refused :
  let r := check_comp_total 0%nat
             (at_rest [] [70; 10; 10; 10]%float) in
  sum [70; 10; 10; 10]%float = 100%float
  /\ fst r = Raised AttributeError
  /\ heap (snd r) !! 0%nat = Some [0.7; 0.1; 0.1; 0.1]%float.
Proof. vm_compute. repeat split; reflexivity. Qed.

(** ** Rules of the Hoare logic *)

Section Hoare.
Context {S : Type}.

Lemma hoare_bind {A B} (P : S -> Prop) (m : M S A) (k : A -> M S B)
    (R : outcome A -> S -> Prop) (Q : outcome B -> S -> Prop) :
  hoare P m R ->
  (forall a, hoare (R (Returned a)) (k a) Q) ->
  (forall e s, R (Raised e) s -> Q (Raised e) s) ->
  (forall s, R Spins s -> Q Spins s) ->
  hoare P (bind m k) Q.
Proof.
  intros Hm Hk He Hs s HP. specialize (Hm s HP). unfold bind.
  destruct (m s) as [[a|e|] s']; cbn in *; auto.
  apply Hk; assumption.
Qed.

Lemma hoare_weaken {A} (P P' : S -> Prop) (m : M S A)
    (Q Q' : outcome A -> S -> Prop) :
  hoare P' m Q' ->
  (forall s, P s -> P' s) ->
  (forall o s, Q' o s -> Q o s) ->
  hoare P m Q.
Proof. intros Hm HP HQ s Hs. apply HQ, Hm, HP, Hs. Qed.

Lemma hoare_ret {A} (P : S -> Prop) (a : A) :
  hoare P (ret a) (fun o s => o = Returned a /\ P s).
Proof. intros s Hs. split; [reflexivity | exact Hs]. Qed.

Lemma hoare_getitem {A} (P : S -> Prop) (l : list A) (i : nat) :
  hoare P (getitem l i)
        (fun o s => P s /\ (o = Raised IndexError \/ exists a, o = Returned a)).
Proof.
  intros s Hs. unfold getitem. destruct (nth_error l i); cbn; eauto.
Qed.
End Hoare.

(** ** The flag discipline of [Gas_System], proved *)

Section Flag.
Context {F : Type} `{Number F}.

Local Abbreviation GS := (Gas_System F).

Lemma good_issue (n : nat) (s : GS) (c : channel) (cmd : command F)
    (ok : bool) :
  good n s ->
  good n (with_log (log s ++ [Event c cmd true ok]) s).
Proof.
  unfold good. cbn. intros Hg. rewrite skipn_app. apply Forall_app. split.
  - exact Hg.
  - destruct (n - length (log s))%nat; cbn.
    + constructor; [reflexivity | constructor].
    + rewrite skipn_nil. constructor.
Qed.

Lemma inner_issue (n : nat) (c : channel) (cmd : command F) :
  inner (F:=F) n (issue c cmd).
Proof.
  intros s [Hb Hg]. unfold issue. rewrite Hb.
  pose proof (good_issue n s c cmd (hw_ok s (length (log s))) Hg) as Hg'.
  destruct (hw_ok s (length (log s))); cbn.
  - split; [split|]; [exact Hb | | exact I].
    unfold good in *. cbn in *. destruct c; exact Hg'.
  - split; [split|]; [exact Hb | exact Hg' | discriminate].
Qed.

Lemma inner_ret {A} (n : nat) (a : A) : inner (F:=F) n (ret a).
Proof. intros s Hs. split; [exact Hs | exact I]. Qed.

Lemma inner_getitem {A} (n : nat) (l : list A) (i : nat) :
  inner (F:=F) n (getitem l i).
Proof.
  intros s Hs. unfold getitem. destruct (nth_error l i); cbn.
  - split; [exact Hs | exact I].
  - split; [exact Hs | discriminate].
Qed.

Lemma inner_load (n : nat) (r : loc) : inner (F:=F) n (load r).
Proof.
  intros s Hs. unfold load. destruct (heap s !! r); cbn.
  - split; [exact Hs | exact I].
  - split; [exact Hs | discriminate].
Qed.

Lemma inner_bind {A B} (n : nat) (m : M GS A) (k : A -> M GS B) :
  inner n m -> (forall a, inner (F:=F) n (k a)) -> inner (F:=F) n (bind m k).
Proof.
  intros Hm Hk.
  apply hoare_bind with (R := fun o s => Busy n s /\ passes o).
  - exact Hm.
  - intros a. eapply hoare_weaken; [apply Hk | | auto]. intros s [Hs _]. exact Hs.
  - intros e s Hs. exact Hs.
  - intros s [_ []].
Qed.

Lemma inner_if {A} (n : nat) (b : bool) (m1 m2 : M GS A) :
  inner (F:=F) n m1 -> inner (F:=F) n m2 -> inner (F:=F) n (if b then m1 else m2).
Proof. destruct b; auto. Qed.

Lemma closing_bind {A B} (n : nat) (m : M GS A) (k : A -> M GS B) :
  inner n m -> (forall a, closing (F:=F) n (k a)) -> closing (F:=F) n (bind m k).
Proof.
  intros Hm Hk.
  apply hoare_bind with (R := fun o s => Busy n s /\ passes o).
  - exact Hm.
  - intros a. eapply hoare_weaken; [apply Hk | | auto]. intros s [Hs _]. exact Hs.
  - intros e s [[Hb Hg] Hp]. split; [exact Hg|]. split; [|discriminate].
    cbn in *. destruct e; congruence.
  - intros s [_ []].
Qed.

Lemma closing_set_busy_false (n : nat) : closing (F:=F) n (set_busy false).
Proof.
  intros s [Hb Hg]. split; [exact Hg|]. split; [reflexivity | discriminate].
Qed.

(** Clearing the flag and going on with an operation that starts idle. *)
Lemma closing_then {A} (n : nat) (m : M GS A) :
  bracketed n m -> closing (F:=F) n (set_busy false ;;; m).
Proof.
  intros Hm s [Hb Hg]. unfold bind, set_busy. cbn.
  match goal with |- closed n (fst (m ?s')) _ => apply (Hm s') end.
  split; [reflexivity | exact Hg].
Qed.

(** [while self.is_busy: ...; self.is_busy = True; body] *)
Lemma bracketed_wait {A} (n : nat) (body : M GS A) :
  closing n body -> bracketed (F:=F) n (wait_idle ;;; set_busy true ;;; body).
Proof.
  intros Hb s [Hi Hg]. unfold bind, wait_idle, set_busy. rewrite Hi. cbn.
  match goal with |- closed n (fst (body ?s')) _ => apply (Hb s') end.
  split; [reflexivity | exact Hg].
Qed.

Lemma check_comp_total_comes_back (s : GS) (r : loc) :
  fst (check_comp_total r s) <> Spins.
Proof.
  unfold check_comp_total, bind, load, store, ret, raise.
  destruct (heap s !! r) as [l|] eqn:Hl; cbn; [|discriminate].
  destruct (sum l =?! hundred); cbn.
  - rewrite lookup_insert_eq. destruct (negb _ && negb _); discriminate.
  - rewrite Hl. destruct (negb _ && negb _); discriminate.
Qed.

Lemma bracketed_check {A} (n : nat) (r : loc) (k : loc -> M GS A) :
  (forall r', bracketed (F:=F) n (k r')) ->
  bracketed (F:=F) n (bind (check_comp_total r) k).
Proof.
  intros Hk s [Hi Hg]. unfold bind.
  destruct (check_comp_total_frame s r) as (Hb & Hl & _).
  pose proof (check_comp_total_comes_back s r) as Hn.
  destruct (check_comp_total r s) as [[r'|e|] s'] eqn:E; cbn in *.
  - apply Hk. split; [congruence|]. unfold good. rewrite Hl. exact Hg.
  - split; [unfold good; rewrite Hl; exact Hg |].
    split; [congruence | discriminate].
  - congruence.
Qed.

Lemma bracketed_bind {A B} (n : nat) (m : M GS A) (k : A -> M GS B) :
  bracketed n m -> (forall a, bracketed (F:=F) n (k a)) -> bracketed (F:=F) n (bind m k).
Proof.
  intros Hm Hk s Hs. specialize (Hm s Hs). unfold bind.
  destruct (m s) as [[a|e|] s'] eqn:E; cbn in *.
  - destruct Hm as (Hg & Hc & _). apply Hk.
    split; [apply Hc; reflexivity | exact Hg].
  - destruct Hm as (Hg & Hc & _).
    split; [exact Hg|]. split; [exact Hc | discriminate].
  - destruct Hm as (_ & _ & Hn). congruence.
Qed.

Lemma bracketed_ret {A} (n : nat) (a : A) : bracketed (F:=F) n (ret a).
Proof.
  intros s [Hi Hg]. split; [exact Hg|].
  split; [intros _; exact Hi | discriminate].
Qed.

Create HintDb flag.
#[local] Hint Resolve inner_issue inner_ret inner_getitem inner_load
  closing_set_busy_false bracketed_ret : flag.
#[local] Hint Extern 2 (inner _ (bind _ _)) =>
  apply inner_bind; [ | intros ? ] : flag.
#[local] Hint Extern 2 (inner _ (if _ then _ else _)) =>
  apply inner_if : flag.
#[local] Hint Extern 3 (closing _ (bind _ _)) =>
  apply closing_bind; [ | intros ? ] : flag.

Lemma set_gasses_bracketed n gas_list : bracketed (F:=F) n (set_gasses gas_list).
Proof. apply bracketed_wait. auto 20 with flag. Qed.

Lemma set_gasE_bracketed n r : bracketed (F:=F) n (set_gasE r).
Proof.
  apply bracketed_check. intros r'. apply bracketed_wait.
  do 5 (apply closing_bind; [auto with flag | intros ?]).
  cbv zeta. apply closing_bind; [ | intros ?; apply closing_set_busy_false ].
  apply inner_if; auto 10 with flag.
Qed.

Lemma set_flows_bracketed n r tot_flow : bracketed (F:=F) n (set_flows r tot_flow).
Proof.
  apply bracketed_check. intros r'. apply bracketed_wait.
  do 9 (apply closing_bind; [auto with flag | intros ?]).
  apply closing_then, set_gasE_bracketed.
Qed.

Lemma print_flows_bracketed n : bracketed (F:=F) n print_flows.
Proof. apply bracketed_wait. auto 30 with flag. Qed.

Lemma print_details_bracketed n : bracketed (F:=F) n print_details.
Proof. apply bracketed_wait. auto 20 with flag. Qed.

Lemma read_flows_bracketed n : bracketed (F:=F) n read_flows.
Proof.
  apply bracketed_wait.
  do 5 (apply closing_bind; [auto with flag | intros ?]).
  intros s [Hb Hg]. split; [exact Hg|].
  split; [reflexivity | discriminate].
Qed.

Lemma shut_down_one_inner n c : inner (F:=F) n (shut_down_one c).
Proof. unfold shut_down_one. auto 10 with flag. Qed.

Lemma shut_down_bracketed n : bracketed (F:=F) n shut_down.
Proof.
  apply bracketed_wait.
  do 4 (apply closing_bind; [apply shut_down_one_inner | intros ?]).
  apply closing_set_busy_false.
Qed.

Lemma disconnect_bracketed n : bracketed (F:=F) n disconnect.
Proof.
  apply bracketed_bind; [apply shut_down_bracketed | intros _].
  apply bracketed_wait. auto 20 with flag.
Qed.

Lemma run_op_bracketed n (op : operation) : bracketed (F:=F) n (run_op op).
Proof.
  destruct op; cbn.
  - apply set_gasses_bracketed.
  - apply set_flows_bracketed.
  - apply set_gasE_bracketed.
  - apply print_flows_bracketed.
  - apply print_details_bracketed.
  - apply bracketed_bind; [apply read_flows_bracketed | intros _].
    apply bracketed_ret.
  - apply shut_down_bracketed.
  - apply disconnect_bracketed.
Qed.
End Flag.

(** C6, as the code has it.  Each of [set_gasses], [set_flows],
    [set_gasE], [print_flows], [print_details], [read_flows], [shut_down]
    and [disconnect], started with the flag clear, issues every one of its
    channel commands with the flag set and comes back; the flag is clear
    again when the operation returns normally and when the composition
    check fails. *)
Theorem is_busy_bracket {F : Type} `{Number F}
    (op : operation) (s : Gas_System F) :
  is_busy s = false ->
  Forall (fun e => ev_busy e = true) (issued s (snd (run_op op s)))
  /\ (clears (fst (run_op op s)) = true -> is_busy (snd (run_op op s)) = false)
  /\ fst (run_op op s) <> Spins.
Proof.
  intros Hi. apply (run_op_bracketed (length (log s)) op s).
  split; [exact Hi|]. unfold good. rewrite skipn_all. constructor.
Qed.

Lemma is_busy_bracket_witness :
  let s := at_rest ["Ar"; "H2"; "N2"; "O2"]%string [25; 25; 25; 25]%float in
  let r := run_op (Op_set_flows 0%nat 50%float) s in
  is_busy s = false
  /\ Forall (fun e => ev_busy e = true) (issued s (snd r))
  /\ (clears (fst r) = true -> is_busy (snd r) = false)
  /\ fst r <> Spins.
Proof.
  split; [reflexivity|].
  apply (is_busy_bracket (Op_set_flows 0%nat 50%float)
           (at_rest ["Ar"; "H2"; "N2"; "O2"]%string [25; 25; 25; 25]%float)).
  reflexivity.
Defined.

(** C6 as stated fails on the paths that raise inside a bracket.  With
    the composition [0, 0, 0, 0], which the check accepts, [set_gasE]
    raises [IndexError] after it has set the flag, and leaves it set; the
    next operation then waits for ever.  A command the driver refuses
    does the same.  [set_calibration_gas] issues its command without
    setting the flag at all. *)
Lemma is_busy_left_set :
  let s := at_rest ["Ar"; "H2"; "N2"; "O2"]%string [0; 0; 0; 0]%float in
  let r := set_gasE 0%nat s in
  (is_busy s = false
   /\ fst r = Raised IndexError
   /\ is_busy (snd r) = true
   /\ fst (read_flows (snd r)) = Spins)
  /\ (let s1 := {| mfc_A := mfc_A s; mfc_B := mfc_B s; mfc_C := mfc_C s;
                   mfc_D := mfc_D s; mfc_E := mfc_E s; is_busy := false;
                   heap := heap s; log := []; hw_ok := fun n => negb (n =? 1)%nat |} in
      let r1 := set_gasses [GasName "Ar"; GasName "H2"; GasName "N2";
                            GasName "O2"] s1 in
      fst r1 = Raised HardwareError /\ is_busy (snd r1) = true)
  /\ (let r2 := set_calibration_gas ChA [("CH4_FID"%string, 1000%float)]
                  "Ar" s in
      fst r2 = Returned tt /\ map ev_busy (log (snd r2)) = [false]).
Proof. vm_compute. repeat split; reflexivity. Qed.

(** ** [set_gasE] *)

(** C4 on the code: with the gases [Ar, H2, Ar, Ar] and the fractions
    [0.5, 0.2, 0.3, 0] the dictionary built by [dict(zip(...))] keeps the
    last percent of argon, which is 0, so that only [H2: 20] is left;
    [set_gasE] writes no mixture and selects hydrogen on channel E. *)
Theorem set_gasE_duplicate_species :
  let gases := ["Ar"; "H2"; "Ar"; "Ar"]%string in
  let r := set_gasE 0%nat (at_rest gases [0.5; 0.2; 0.3; 0]%float) in
  gas_dict_of (map GasName gases) [0.5; 0.2; 0.3; 0]%float
  = [(GasName "H2", 20%float)]
  /\ fst r = Returned tt
  /\ map (fun e => (ev_chan e, ev_cmd e)) (log (snd r))
     = [(ChA, Get); (ChB, Get); (ChC, Get); (ChD, Get);
        (ChE, SetGas (GasName "H2"))]
  /\ existsb is_create_mix (log (snd r)) = false
  /\ mfc_E (snd r) = Mfc (GasName "H2") 0%float.
Proof. vm_compute. repeat split; reflexivity. Qed.

(** Without a repeated gas the mixture is written as expected. *)
Example set_gasE_distinct_species :
  let gases := ["Ar"; "H2"; "N2"; "O2"]%string in
  let r := set_gasE 0%nat (at_rest gases [0.5; 0.2; 0.3; 0]%float) in
  map (fun e => (ev_chan e, ev_cmd e)) (log (snd r))
  = [(ChA, Get); (ChB, Get); (ChC, Get); (ChD, Get);
     (ChE, CreateMix 236 "output"
             [(GasName "Ar", 50%float); (GasName "H2", 20%float);
              (GasName "N2", 30%float)]);
     (ChE, SetGas (MixNo 236))].
Proof. vm_compute. reflexivity. Qed.

(** ** The caller's list *)

Section Store.
Context {F : Type} `{Number F}.

Local Abbreviation GS := (Gas_System F).

Lemma keeps_bind {A B} h (m : M GS A) (k : A -> M GS B) :
  keeps h m -> (forall a, keeps h (k a)) -> keeps h (bind m k).
Proof.
  intros Hm Hk.
  apply hoare_bind with (R := fun _ s => heap s = h); auto.
Qed.

Lemma keeps_ret {A} h (a : A) : keeps (F:=F) h (ret a).
Proof. intros s Hs. exact Hs. Qed.

Lemma keeps_getitem {A} h (l : list A) (i : nat) :
  keeps (F:=F) h (getitem l i).
Proof. intros s Hs. unfold getitem. destruct (nth_error l i); exact Hs. Qed.

Lemma keeps_load h (r : loc) : keeps (F:=F) h (load r).
Proof. intros s Hs. unfold load. destruct (heap s !! r); exact Hs. Qed.

Lemma keeps_wait_idle h : keeps (F:=F) h wait_idle.
Proof. intros s Hs. unfold wait_idle. destruct (is_busy s); exact Hs. Qed.

Lemma keeps_set_busy h b : keeps (F:=F) h (set_busy b).
Proof. intros s Hs. exact Hs. Qed.

Lemma keeps_issue h (c : channel) (cmd : command F) :
  keeps h (issue c cmd).
Proof.
  intros s Hs. unfold issue. destruct (hw_ok s (length (log s))); exact Hs.
Qed.

Lemma keeps_if {A} h (b : bool) (m1 m2 : M GS A) :
  keeps h m1 -> keeps h m2 -> keeps h (if b then m1 else m2).
Proof. destruct b; auto. Qed.

Create HintDb store.
#[local] Hint Resolve keeps_ret keeps_getitem keeps_load keeps_wait_idle
  keeps_set_busy keeps_issue : store.
#[local] Hint Extern 2 (keeps _ (bind _ _)) =>
  apply keeps_bind; [ | intros ? ] : store.
#[local] Hint Extern 2 (keeps _ (if _ then _ else _)) =>
  apply keeps_if : store.

(** A list that does not sum to 100 stays as it is under the check. *)
Lemma keeps_check h (r : loc) (l : list F) :
  h !! r = Some l -> (sum l =?! hundred) = false ->
  keeps h (check_comp_total r).
Proof.
  intros Hl Hs s Hh. subst h.
  rewrite (check_comp_total_run s r l Hl), Hs. reflexivity.
Qed.

Lemma keeps_set_gasE h (r : loc) (l : list F) :
  h !! r = Some l -> (sum l =?! hundred) = false ->
  keeps h (set_gasE r).
Proof.
  intros Hl Hs. unfold set_gasE.
  apply keeps_bind; [apply (keeps_check h r l Hl Hs) | intros r'].
  do 7 (apply keeps_bind; [auto with store | intros ?]).
  cbv zeta. auto 10 with store.
Qed.

(** Through [set_flows] the caller's list is rewritten once, by the first
    check, whatever happens afterwards. *)
Lemma set_flows_heap (s : GS) (r : loc) (l : list F) (tot_flow : F) :
  exact_tests ->
  heap s !! r = Some l ->
  heap (snd (set_flows r tot_flow s)) !! r = Some (rescaled l).
Proof.
  intros HF Hl. unfold set_flows. unfold bind at 1.
  pose proof (check_comp_total_heap s r l Hl) as Hh.
  rewrite (check_comp_total_run s r l Hl) in *. cbn [fst snd] in *.
  destruct (sum (rescaled l) =?! one) eqn:E1;
    [| destruct (sum (rescaled l) =?! zero) eqn:E0 ]; cbn [negb andb];
    try exact Hh.
  all: match goal with
       | |- heap (snd (?m ?s1)) !! _ = _ =>
           assert (Hk : keeps (heap s1) m); [| rewrite (Hk s1 eq_refl); exact Hh]
       end.
  all: assert (H100 : (sum (rescaled l) =?! hundred) = false)
         by (apply HF; rewrite ?E1, ?E0, ?orb_true_r; reflexivity).
  all: do 12 (apply keeps_bind; [auto with store | intros ?]).
  all: exact (keeps_set_gasE _ _ _ Hh H100).
Qed.
End Store.

(** The exact tests of both arithmetics tell 0, 1 and 100 apart. *)
Lemma Q_exact_tests : exact_tests (F:=Q).
Proof.
  intros x Hx. cbn in *.
  apply orb_true_iff in Hx.
  destruct (Qeq_bool x (inject_Z 100)) eqn:E; [|reflexivity].
  apply Qeq_bool_eq in E.
  destruct Hx as [Hx|Hx]; apply Qeq_bool_eq in Hx; rewrite Hx in E;
    discriminate E.
Qed.

Lemma float_eqb_finite (x y : float) s m e :
  Prim2SF y = S754_finite s m e ->
  PrimFloat.eqb x y = true -> Prim2SF x = Prim2SF y.
Proof.
  intros Hy Hx. rewrite FloatAxioms.eqb_spec, Hy in Hx. rewrite Hy.
  unfold SFeqb, SFcompare in Hx.
  destruct (Prim2SF x) as [s'| s' | | s' m' e']; try discriminate.
  - destruct s; discriminate.
  - destruct s', s; discriminate.
  - destruct s', s; try discriminate.
    all: destruct (Z.compare e' e) eqn:Ez; try discriminate.
    all: apply Z.compare_eq in Ez; subst e'.
    all: destruct (Pos.compare_cont Eq m' m) eqn:Em; try discriminate.
    all: apply Pos.compare_eq in Em; subst m'; reflexivity.
Qed.

Lemma float_exact_tests : exact_tests (F:=float).
Proof.
  intros x Hx. cbn in *. apply orb_true_iff in Hx. destruct Hx as [Hx|Hx].
  - apply (float_eqb_finite x _ false 4503599627370496 (-52)) in Hx;
      [| reflexivity].
    rewrite FloatAxioms.eqb_spec, Hx. reflexivity.
  - rewrite FloatAxioms.eqb_spec in *.
    change (Prim2SF (float_of_Z 0)) with (S754_zero false) in Hx.
    change (Prim2SF (float_of_Z 100))
      with (S754_finite false 7036874417766400 (-46)).
    destruct (Prim2SF x) as [s'| s' | | s' m' e']; cbn in *;
      try discriminate; try reflexivity.
    all: destruct s'; discriminate.
Qed.

(** C10.  [check_comp_total] works on the caller's own list: when the list
    sums to exactly 100 the object holds the elements divided by 100 after
    the call, and otherwise the store is as before; the object returned is
    the one passed.  After [set_flows] the caller's list therefore holds
    the rescaled elements. *)
Theorem check_comp_total_in_place {F : Type} `{Number F}
    (s : Gas_System F) (comp_list : loc) (l : list F) (tot_flow : F) :
  exact_tests ->
  heap s !! comp_list = Some l ->
  ((sum l =?! hundred) = true ->
     heap (snd (check_comp_total comp_list s)) !! comp_list
     = Some (map (fun x => x /! hundred) l)
     /\ heap (snd (set_flows comp_list tot_flow s)) !! comp_list
        = Some (map (fun x => x /! hundred) l))
  /\ ((sum l =?! hundred) = false ->
        heap (snd (check_comp_total comp_list s)) = heap s
        /\ heap (snd (set_flows comp_list tot_flow s)) !! comp_list = Some l)
  /\ (forall r, fst (check_comp_total comp_list s) = Returned r ->
                r = comp_list).
Proof.
  intros HF Hl. repeat split.
  - rewrite (check_comp_total_heap s comp_list l Hl).
    rewrite rescaled_hundred by assumption. reflexivity.
  - rewrite (set_flows_heap s comp_list l tot_flow HF Hl).
    rewrite rescaled_hundred by assumption. reflexivity.
  - rewrite (check_comp_total_run s comp_list l Hl).
    rewrite H0. reflexivity.
  - rewrite (set_flows_heap s comp_list l tot_flow HF Hl).
    rewrite rescaled_other by assumption. reflexivity.
  - intros r. rewrite (check_comp_total_run s comp_list l Hl). cbn.
    destruct (negb _ && negb _); [discriminate | congruence].
Qed.

Lemma check_comp_total_in_place_witness :
  let s := at_rest ["Ar"; "H2"; "N2"; "O2"]%string [25; 25; 25; 25]%float in
  heap s !! 0%nat = Some [25; 25; 25; 25]%float
  /\ fst (set_flows 0%nat 50%float s) = Returned tt
  /\ heap (snd (set_flows 0%nat 50%float s)) !! 0%nat
     = Some [0.25; 0.25; 0.25; 0.25]%float.
Proof.
  split; [reflexivity|]. split; [vm_compute; reflexivity|].
  destruct (check_comp_total_in_place
              (at_rest ["Ar"; "H2"; "N2"; "O2"]%string
                       [25; 25; 25; 25]%float)
              0%nat [25; 25; 25; 25]%float 50%float
              float_exact_tests eq_refl) as (H100 & _).
  destruct (H100 eq_refl) as [_ Hflows].
  exact (eq_trans Hflows eq_refl).
Defined.

(** * Binary64 arithmetic *)

(** ** Rounding *)

Section Rounding64.
Local Open Scope Z_scope.

Lemma digits2_pos_log2 (p : positive) :
  Zpos (digits2_pos p) = Z.log2 (Zpos p) + 1.
Proof.
  assert (Hs : forall q, digits2_pos q = Pos.size q)
    by (induction q; cbn; congruence).
  rewrite Hs. destruct p; cbn; lia.
Qed.

Lemma digits_bounds (p : positive) :
  2 ^ (Zpos (digits2_pos p) - 1) <= Zpos p < 2 ^ Zpos (digits2_pos p).
Proof.
  rewrite digits2_pos_log2.
  replace (Z.log2 (Zpos p) + 1 - 1) with (Z.log2 (Zpos p)) by lia.
  apply (Z.log2_spec (Zpos p)). lia.
Qed.

Lemma digits_unique (p : positive) (d : Z) :
  2 ^ (d - 1) <= Zpos p < 2 ^ d -> Zpos (digits2_pos p) = d.
Proof.
  intros H. rewrite digits2_pos_log2.
  assert (Hd : 0 <= d - 1).
  { destruct (Z_lt_le_dec (d - 1) 0) as [Hn|]; [|assumption].
    destruct (Z_lt_le_dec d 0) as [Hn'|Hn'].
    - rewrite (Z.pow_neg_r 2 d Hn') in H. lia.
    - assert (d = 0) by lia. subst d. cbn in H. lia. }
  rewrite (Z.log2_unique (Zpos p) (d - 1)); [lia | lia |].
  replace (Z.succ (d - 1)) with d by lia. exact H.
Qed.

Lemma pow2_pos (n : Z) : 0 <= n -> 0 < 2 ^ n.
Proof. intros. apply Z.pow_pos_nonneg; lia. Qed.

Lemma pow2_succ (n : Z) : 0 <= n -> 2 ^ (n + 1) = 2 * 2 ^ n.
Proof. intros. rewrite Z.pow_add_r by lia. change (2 ^ 1) with 2. lia. Qed.

Lemma pow2_le (a b : Z) : 0 <= a <= b -> 2 ^ a <= 2 ^ b.
Proof. intros. apply Z.pow_le_mono_r; lia. Qed.

Lemma pow2_lt (a b : Z) : 0 <= a < b -> 2 ^ a < 2 ^ b.
Proof. intros. apply Z.pow_lt_mono_r; lia. Qed.

Lemma pow2_lt_inv (a b : Z) : 0 <= b -> 2 ^ a < 2 ^ b -> a < b.
Proof.
  intros Hb H. destruct (Z_lt_le_dec a b) as [|Hab]; [assumption|].
  pose proof (pow2_le b a). lia.
Qed.

(** *** Shifting *)

Lemma iter_pos_invariant {A} (f : A -> A) (P : Z -> A -> Prop) :
  (forall j y, P j y -> P (j + 1) (f y)) ->
  forall p k x, P k x -> P (k + Zpos p) (SpecFloat.iter_pos f p x).
Proof.
  intros Hf. induction p as [p IH|p IH|]; intros k x Hx; cbn [SpecFloat.iter_pos].
  - replace (k + Zpos p~1) with (k + 1 + Zpos p + Zpos p) by lia.
    apply IH, IH, Hf, Hx.
  - replace (k + Zpos p~0) with (k + Zpos p + Zpos p) by lia.
    apply IH, IH, Hx.
  - apply Hf, Hx.
Qed.

Lemma located_shr_1 (M n : Z) (mrs : shr_record) :
  0 <= n -> located M n mrs -> located M (n + 1) (shr_1 mrs).
Proof.
  intros Hn. unfold located. rewrite pow2_succ by exact Hn.
  pose proof (pow2_pos n Hn) as HP. set (P := 2 ^ n) in *. clearbody P.
  destruct mrs as [m r s]. cbn [shr_m shr_r shr_s].
  destruct m as [|[q|q|]|q]; destruct r, s; cbn [shr_1 shr_m shr_r shr_s orb];
    intros [H0 H]; split; try lia; nia.
Qed.

Lemma truncated_shr_1 (M n : Z) (mrs : shr_record) :
  0 <= n -> truncated M n mrs -> truncated M (n + 1) (shr_1 mrs).
Proof.
  intros Hn. unfold truncated. rewrite pow2_succ by exact Hn.
  pose proof (pow2_pos n Hn) as HP. set (P := 2 ^ n) in *. clearbody P.
  destruct mrs as [m r s]. cbn [shr_m shr_r shr_s].
  destruct m as [|[q|q|]|q]; cbn [shr_1 shr_m shr_r shr_s];
    intros [H0 H]; split; try lia; nia.
Qed.

Lemma located_shr (M : Z) (mrs : shr_record) (e n : Z) :
  located M 0 mrs ->
  snd (shr mrs e n) = e + Z.max 0 n
  /\ located M (Z.max 0 n) (fst (shr mrs e n)).
Proof.
  intros H. destruct n as [|p|p]; cbn [shr fst snd].
  - split; [lia | exact H].
  - split; [lia|]. replace (Z.max 0 (Zpos p)) with (0 + Zpos p) by lia.
    apply (iter_pos_invariant shr_1
             (fun j y => 0 <= j /\ located M j y)); [| split; [lia | exact H]].
    intros j y [Hj Hy]. split; [lia | apply located_shr_1; assumption].
  - split; [lia | exact H].
Qed.

Lemma truncated_shr (M : Z) (mrs : shr_record) (e n : Z) :
  truncated M 0 mrs ->
  snd (shr mrs e n) = e + Z.max 0 n
  /\ truncated M (Z.max 0 n) (fst (shr mrs e n)).
Proof.
  intros H. destruct n as [|p|p]; cbn [shr fst snd].
  - split; [lia | exact H].
  - split; [lia|]. replace (Z.max 0 (Zpos p)) with (0 + Zpos p) by lia.
    apply (iter_pos_invariant shr_1
             (fun j y => 0 <= j /\ truncated M j y)); [| split; [lia | exact H]].
    intros j y [Hj Hy]. split; [lia | apply truncated_shr_1; assumption].
  - split; [lia | exact H].
Qed.


Lemma located_truncated (M n : Z) (mrs : shr_record) :
  0 <= n -> located M n mrs -> truncated M n mrs.
Proof.
  intros Hn. unfold located, truncated.
  pose proof (pow2_pos n Hn) as HP. set (P := 2 ^ n) in *. clearbody P.
  destruct mrs as [m r s]. cbn [shr_m shr_r shr_s].
  destruct r, s; intros [H0 H]; split; try lia; nia.
Qed.

(** Rounding to nearest, ties to even: the result is one of the two
    neighbours, and at most half a unit away. *)
Lemma round_located (M n : Z) (mrs : shr_record) :
  0 <= n -> located M n mrs ->
  let m2 := round_nearest_even (shr_m mrs) (loc_of_shr_record mrs) in
  shr_m mrs <= m2 <= shr_m mrs + 1
  /\ 2 * Z.abs (2 ^ n * m2 - M) <= 2 ^ n.
Proof.
  intros Hn. unfold located.
  pose proof (pow2_pos n Hn) as HP. set (P := 2 ^ n) in *. clearbody P.
  destruct mrs as [m r s]. cbn [shr_m shr_r shr_s].
  destruct r, s; intros [H0 H];
    cbn [loc_of_shr_record round_nearest_even];
    try destruct (Z.even m); split; try lia; nia.
Qed.

Lemma round_truncated (mrs : shr_record) :
  shr_m mrs <= round_nearest_even (shr_m mrs) (loc_of_shr_record mrs)
            <= shr_m mrs + 1.
Proof.
  destruct mrs as [m r s]. cbn [shr_m].
  destruct r, s; cbn [loc_of_shr_record round_nearest_even];
    try destruct (Z.even m); lia.
Qed.


Lemma fexp_eq (e : Z) : fexp prec emax e = Z.max (e - 53) (-1074).
Proof. reflexivity. Qed.

Lemma shr_fexp_exact_pos (m : positive) (e : Z) :
  shr_fexp prec emax (Zpos m) e loc_Exact
  = shr {| shr_m := Zpos m; shr_r := false; shr_s := false |} e
        (Z.max (Zpos (digits2_pos m) + e - 53) (-1074) - e).
Proof. reflexivity. Qed.

(** Rounding [mx * 2^ex], given with no more bits than needed below the
    last place: the result is within half a unit in the last place, or
    the value is too large. *)
Lemma binary_round_aux_exact (sx : bool) (mx : positive) (ex : Z) :
  -1074 <= ex <= fexp prec emax (Zpos (digits2_pos mx) + ex) ->
  let d := Zpos (digits2_pos mx) in
  let r := binary_round_aux prec emax sx (Zpos mx) ex loc_Exact in
  (exists m e, r = S754_finite sx m e
     /\ -1074 <= e
     /\ Zpos (digits2_pos m) + e <= d + ex + 1
     /\ Z.abs (Zpos m * 2 ^ (e + 1074) - Zpos mx * 2 ^ (ex + 1074)) * 2 ^ 53
        <= Zpos mx * 2 ^ (ex + 1074)
     /\ (forall g k, 0 <= g -> fexp prec emax (d + ex) <= k ->
         g * 2 ^ (k + 1074) <= Zpos mx * 2 ^ (ex + 1074) ->
         g * 2 ^ (k + 1074) <= Zpos m * 2 ^ (e + 1074)))
  \/ (r = S754_infinity sx /\ 1024 <= d + ex).
Proof.
  rewrite !fexp_eq. intros Hex d r. subst r. unfold binary_round_aux.
  pose proof (digits_bounds mx) as Hd. fold d in Hd, Hex.
  rewrite shr_fexp_exact_pos. fold d.
  set (n := Z.max (d + ex - 53) (-1074) - ex) in *.
  pose proof (located_shr (Zpos mx)
                {| shr_m := Zpos mx; shr_r := false; shr_s := false |} ex n)
    as [He1 Hl1].
  { unfold located; cbn. lia. }
  destruct (shr _ ex n) as [mrs1 e1]. cbn [fst snd] in He1, Hl1.
  assert (Hn : 0 <= n) by lia.
  replace (Z.max 0 n) with n in * by lia.
  pose proof (round_located _ _ _ Hn Hl1) as [Hm2 Herr].
  pose proof (located_truncated _ _ _ Hn Hl1) as (Hm1 & Ht).
  set (m2 := round_nearest_even _ _) in *. cbn beta zeta in Hm2, Herr.
  set (m1 := shr_m mrs1) in *.
  pose proof (pow2_pos (ex + 1074) ltac:(lia)) as HU.
  destruct (Z.eq_dec n 0) as [Hn0|Hn0].
  - (* nothing to shift *)
    rewrite Hn0 in *. change (2 ^ 0) with 1 in *.
    assert (Hm : m2 = Zpos mx) by lia. rewrite Hm.
    rewrite shr_fexp_exact_pos. fold d.
    replace (Z.max (d + e1 - 53) (-1074) - e1) with 0 by lia.
    cbn [shr shr_m]. replace e1 with ex by lia.
    destruct (ex <=? emax - prec) eqn:Ee.
    + left. exists mx, ex. split; [reflexivity|]. fold d.
      split; [lia|]. split; [lia|].
      split; [rewrite Z.sub_diag; cbn; nia|].
      intros g k _ _ Hg. exact Hg.
    + right. split; [reflexivity|]. apply Z.leb_gt in Ee.
      unfold emax, prec in Ee. lia.
  - (* [n = d - 53] bits are shifted out *)
    assert (Hnd : n = d - 53) by lia.
    assert (He : e1 = d + ex - 53) by lia.
    assert (Hpd : 2 ^ d = 2 ^ n * 2 ^ 53).
    { rewrite <- Z.pow_add_r by lia. f_equal. lia. }
    assert (Hpd1 : 2 ^ (d - 1) = 2 ^ n * 2 ^ 52).
    { rewrite <- Z.pow_add_r by lia. f_equal. lia. }
    assert (Hpe : 2 ^ (e1 + 1074) = 2 ^ n * 2 ^ (ex + 1074)).
    { rewrite <- Z.pow_add_r by lia. f_equal. lia. }
    pose proof (pow2_pos n Hn) as HP.
    set (P := 2 ^ n) in *. set (U := 2 ^ (ex + 1074)) in *.
    change (2 ^ 53) with 9007199254740992 in *.
    change (2 ^ 52) with 4503599627370496 in *.
    assert (Hm1b : 4503599627370496 <= m1 < 9007199254740992) by nia.
    assert (Herr' : Z.abs (P * m2 - Zpos mx) * 9007199254740992 <= Zpos mx)
      by nia.
    assert (Hgrid : forall g k, 0 <= g -> Z.max (d + ex - 53) (-1074) <= k ->
              g * 2 ^ (k + 1074) <= Zpos mx * U ->
              g * 2 ^ (k + 1074) <= m2 * (P * U)).
    { intros g k Hg Hk Hle.
      replace (k + 1074) with (k - e1 + (e1 + 1074)) in * by lia.
      rewrite Z.pow_add_r in * by lia. rewrite Hpe in *.
      pose proof (pow2_pos (k - e1) ltac:(lia)) as HK.
      set (K := 2 ^ (k - e1)) in *.
      assert (HG : g * K <= m1).
      { assert (g * K * P <= Zpos mx) by nia.
        assert (g * K < m1 + 1) by nia. lia. }
      assert (g * K <= m2) by lia.
      assert (0 < P * U) by nia.
      replace (g * (K * (P * U))) with (g * K * (P * U)) by ring.
      apply Z.mul_le_mono_nonneg_r; lia. }
    destruct (Z.eq_dec m2 9007199254740992) as [Hc|Hc].
    + (* the mantissa has become [2^53] *)
      rewrite Hc in *.
      replace (shr_fexp prec emax 9007199254740992 e1 loc_Exact)
        with ({| shr_m := 4503599627370496; shr_r := false; shr_s := false |},
              e1 + 1).
      2:{ unfold shr_fexp. change (Zdigits2 9007199254740992) with 54.
          rewrite fexp_eq. cbn [shr_record_of_loc].
          replace (Z.max (54 + e1 - 53) (-1074) - e1) with 1 by lia.
          reflexivity. }
      cbn [shr_m].
      destruct (e1 + 1 <=? emax - prec) eqn:Ee.
      * left. exists 4503599627370496%positive, (e1 + 1).
        split; [reflexivity|]. split; [lia|]. split; [cbn; lia|].
        replace (e1 + 1 + 1074) with (e1 + 1074 + 1) by lia.
        rewrite pow2_succ by lia. rewrite Hpe.
        split; [nia|]. intros g k Hg Hk Hle.
        pose proof (Hgrid g k Hg Hk Hle). lia.
      * right. split; [reflexivity|]. apply Z.leb_gt in Ee.
        unfold emax, prec in Ee. lia.
    + destruct m2 as [|q|q]; try lia.
      assert (Hq : Zpos (digits2_pos q) = 53).
      { apply digits_unique. change (2 ^ (53 - 1)) with 4503599627370496.
        change (2 ^ 53) with 9007199254740992. lia. }
      rewrite shr_fexp_exact_pos, Hq.
      replace (Z.max (53 + e1 - 53) (-1074) - e1) with 0 by lia.
      cbn [shr shr_m].
      destruct (e1 <=? emax - prec) eqn:Ee.
      * left. exists q, e1. split; [reflexivity|]. split; [lia|].
        split; [lia|]. rewrite Hpe. split; [nia|]. exact Hgrid.
      * right. split; [reflexivity|]. apply Z.leb_gt in Ee.
        unfold emax, prec in Ee. lia.
Qed.


Lemma iter_xO (m d : positive) :
  Zpos (Pos.iter xO m d) = Zpos m * 2 ^ Zpos d.
Proof.
  induction d as [|d IH] using Pos.peano_ind.
  - cbn. lia.
  - rewrite Pos.iter_succ, Pos2Z.inj_xO, IH, Pos2Z.inj_succ.
    rewrite Z.pow_succ_r by lia. ring.
Qed.

Lemma shl_align_spec (mx : positive) (ex ex' : Z) :
  snd (shl_align mx ex ex') = Z.min ex ex'
  /\ Zpos (fst (shl_align mx ex ex'))
     = Zpos mx * 2 ^ (ex - Z.min ex ex').
Proof.
  unfold shl_align. destruct (ex' - ex) as [|d|d] eqn:E; cbn [fst snd].
  - replace (Z.min ex ex') with ex by lia. rewrite Z.sub_diag.
    split; [reflexivity | cbn; lia].
  - replace (Z.min ex ex') with ex by lia. rewrite Z.sub_diag.
    split; [reflexivity | cbn; lia].
  - replace (Z.min ex ex') with ex' by lia.
    split; [reflexivity|]. rewrite iter_xO. f_equal. f_equal. lia.
Qed.

Lemma digits_shift (m m' : positive) (k : Z) :
  0 <= k -> Zpos m' = Zpos m * 2 ^ k ->
  Zpos (digits2_pos m') = Zpos (digits2_pos m) + k.
Proof.
  intros Hk Hm. apply digits_unique. rewrite Hm.
  pose proof (digits_bounds m) as Hd.
  assert (0 < Zpos (digits2_pos m)) by lia.
  replace (Zpos (digits2_pos m) + k - 1)
    with (Zpos (digits2_pos m) - 1 + k) by lia.
  rewrite !Z.pow_add_r by lia.
  pose proof (pow2_pos k Hk). nia.
Qed.

(** Rounding the integer multiple [mx * 2^ex] of the least positive
    value. *)
Lemma binary_round_spec (sx : bool) (mx : positive) (ex : Z) :
  -1074 <= ex ->
  let d := Zpos (digits2_pos mx) in
  let r := binary_round prec emax sx mx ex in
  (exists m e, r = S754_finite sx m e
     /\ -1074 <= e
     /\ Zpos (digits2_pos m) + e <= d + ex + 1
     /\ Z.abs (Zpos m * 2 ^ (e + 1074) - Zpos mx * 2 ^ (ex + 1074)) * 2 ^ 53
        <= Zpos mx * 2 ^ (ex + 1074)
     /\ (forall g k, 0 <= g -> fexp prec emax (d + ex) <= k ->
         g * 2 ^ (k + 1074) <= Zpos mx * 2 ^ (ex + 1074) ->
         g * 2 ^ (k + 1074) <= Zpos m * 2 ^ (e + 1074)))
  \/ (r = S754_infinity sx /\ 1024 <= d + ex).
Proof.
  intros Hex d r. subst r. unfold binary_round. fold d.
  pose proof (shl_align_spec mx ex (fexp prec emax (d + ex))) as [He Hm].
  destruct (shl_align mx ex (fexp prec emax (d + ex))) as [mz ez].
  cbn [fst snd] in He, Hm.
  assert (Hez : -1074 <= ez) by (rewrite fexp_eq in He; lia).
  assert (Hdz : Zpos (digits2_pos mz) = d + (ex - ez))
    by (apply digits_shift; [lia | rewrite Hm, He; reflexivity]).
  assert (Hv : Zpos mz * 2 ^ (ez + 1074) = Zpos mx * 2 ^ (ex + 1074)).
  { rewrite Hm, <- He, <- Z.mul_assoc, <- Z.pow_add_r by lia.
    f_equal. f_equal. lia. }
  assert (Hde : Zpos (digits2_pos mz) + ez = d + ex) by lia.
  pose proof (binary_round_aux_exact sx mz ez) as Hr.
  cbn zeta in Hr. rewrite Hde, Hv in Hr.
  apply Hr. rewrite fexp_eq in *. lia.
Qed.


(** *** Sizes *)

Lemma Zdigits2_nonneg (m : Z) : 0 <= Zdigits2 m.
Proof. destruct m; cbn; lia. Qed.

Lemma Zdigits2_lt (m : Z) : 0 <= m -> m < 2 ^ Zdigits2 m.
Proof.
  destruct m as [|p|p]; intros Hm; [cbn; lia | | lia].
  apply (digits_bounds p).
Qed.

Lemma Zdigits2_le (m : Z) : 0 < m -> 2 ^ (Zdigits2 m - 1) <= m.
Proof.
  destruct m as [|p|p]; intros Hm; try lia. apply (digits_bounds p).
Qed.

Lemma Zdigits2_bound (m k : Z) :
  0 <= m -> 0 <= k -> m < 2 ^ k -> Zdigits2 m <= k.
Proof.
  intros Hm Hk Hlt. destruct (Z.eq_dec m 0) as [->|Hm0]; [cbn; lia|].
  pose proof (Zdigits2_le m ltac:(lia)) as Hl.
  pose proof (Zdigits2_nonneg m).
  assert (Zdigits2 m - 1 < k); [|lia].
  apply pow2_lt_inv; [lia|]. lia.
Qed.

Lemma truncated_digits (M n m : Z) :
  0 <= n -> 0 <= M -> 0 < m -> 2 ^ n * m <= M ->
  Zdigits2 m + n <= Zdigits2 M.
Proof.
  intros Hn HM Hm Hle.
  pose proof (Zdigits2_le m Hm) as Hl.
  pose proof (Zdigits2_lt M HM) as Hu.
  pose proof (Zdigits2_nonneg M).
  assert (Hd : 0 < Zdigits2 m) by (destruct m; cbn; lia).
  assert (n + (Zdigits2 m - 1) < Zdigits2 M); [|lia].
  apply pow2_lt_inv; [lia|].
  rewrite Z.pow_add_r by lia.
  pose proof (pow2_pos n Hn). nia.
Qed.

Lemma shr_m_of_loc (m : Z) (l : location) :
  shr_m (shr_record_of_loc m l) = m.
Proof. destruct l as [|[]]; reflexivity. Qed.

(** Rounding a value that is not negative, whatever is known of the bits
    below: the result is zero or positive, and its size is at most one
    above the size of the value. *)
Lemma binary_round_aux_bnd (sx : bool) (mx ex : Z) (lx : location) (B : Z) :
  0 <= mx -> ex <= 971 ->
  Z.max (Zdigits2 mx + ex) (-1074) + 1 <= B -> B <= 1024 ->
  let r := binary_round_aux prec emax sx mx ex lx in
  r = S754_zero sx
  \/ exists m e, r = S754_finite sx m e /\ Zpos (digits2_pos m) + e <= B.
Proof.
  intros Hmx Hex HB HB' r. subst r. unfold binary_round_aux, shr_fexp.
  rewrite !fexp_eq.
  pose proof (Zdigits2_nonneg mx) as HD.
  set (n1 := Z.max (Zdigits2 mx + ex - 53) (-1074) - ex).
  pose proof (truncated_shr mx (shr_record_of_loc mx lx) ex n1) as [He1 Ht1].
  { unfold truncated. rewrite shr_m_of_loc. cbn. lia. }
  destruct (shr (shr_record_of_loc mx lx) ex n1) as [mrs1 e1].
  cbn [fst snd] in He1, Ht1. destruct Ht1 as (Hm1 & Ht1 & _).
  pose proof (round_truncated mrs1) as Hm2.
  set (m1 := shr_m mrs1) in *.
  set (m2 := round_nearest_even m1 (loc_of_shr_record mrs1)) in *.
  assert (Hd1 : m1 = 0 \/ 0 < m1 /\ Zdigits2 m1 + e1 <= Zdigits2 mx + ex).
  { destruct (Z.eq_dec m1 0) as [|Hne]; [left; assumption | right].
    split; [lia|].
    pose proof (truncated_digits mx (Z.max 0 n1) m1
                  ltac:(lia) Hmx ltac:(lia) Ht1). lia. }
  assert (Hd2 : Zdigits2 m2 + e1 <= B).
  { assert (Hm2' : Zdigits2 m2 <= Zdigits2 m1 + 1).
    { pose proof (Zdigits2_nonneg m1).
      apply Zdigits2_bound; [lia | lia |].
      pose proof (Zdigits2_lt m1 Hm1). rewrite pow2_succ by lia. lia. }
    destruct Hd1 as [H0 | [Hpos Hd1]]; [|lia].
    rewrite H0 in Hm2'. cbn in Hm2'. lia. }
  cbv iota beta. fold m1 m2. rewrite fexp_eq.
  set (n2 := Z.max (Zdigits2 m2 + e1 - 53) (-1074) - e1).
  pose proof (truncated_shr m2 (shr_record_of_loc m2 loc_Exact) e1 n2)
    as [He2 Ht2].
  { unfold truncated. cbn. lia. }
  destruct (shr (shr_record_of_loc m2 loc_Exact) e1 n2) as [mrs2 e2].
  cbn [fst snd] in He2, Ht2. destruct Ht2 as (Hm3 & Ht2 & _).
  destruct (shr_m mrs2) as [|q|q] eqn:Eq; [left; reflexivity | | lia].
  right.
  assert (He2' : e2 <= 971) by lia.
  unfold emax, prec. apply Z.leb_le in He2'.
  change (1024 - 53) with 971. rewrite He2'.
  exists q, e2. split; [reflexivity|].
  pose proof (truncated_digits m2 (Z.max 0 n2) (Zpos q)
                ltac:(lia) ltac:(lia) ltac:(lia) Ht2) as Hq.
  cbn [Zdigits2] in Hq. lia.
Qed.


(** *** The operations on valid values *)

Lemma valid_finite (s : bool) (m : positive) (e : Z) :
  valid_binary (S754_finite s m e) = true ->
  -1074 <= e <= 971 /\ Zpos (digits2_pos m) <= 53
  /\ fexp prec emax (Zpos (digits2_pos m) + e) = e.
Proof.
  unfold valid_binary, bounded, canonical_mantissa. rewrite fexp_eq.
  intros H. apply andb_true_iff in H as [Hc Hb].
  apply Z.eqb_eq in Hc. apply Z.leb_le in Hb. unfold emax, prec in Hb. lia.
Qed.

Lemma sval_finite_pos (m : positive) (e : Z) :
  -1074 <= e -> 0 < Zpos m * 2 ^ (e + 1074).
Proof. intros He. pose proof (pow2_pos (e + 1074) ltac:(lia)). nia. Qed.

Lemma sval_size (m : positive) (e : Z) :
  -1074 <= e ->
  2 ^ (Zpos (digits2_pos m) + e + 1073) <= Zpos m * 2 ^ (e + 1074)
  < 2 ^ (Zpos (digits2_pos m) + e + 1074).
Proof.
  intros He. pose proof (digits_bounds m) as Hd.
  assert (0 < Zpos (digits2_pos m)) by lia.
  replace (Zpos (digits2_pos m) + e + 1073)
    with (Zpos (digits2_pos m) - 1 + (e + 1074)) by lia.
  replace (Zpos (digits2_pos m) + e + 1074)
    with (Zpos (digits2_pos m) + (e + 1074)) by lia.
  rewrite (Z.pow_add_r 2 (Zpos (digits2_pos m) - 1)) by lia.
  rewrite (Z.pow_add_r 2 (Zpos (digits2_pos m))) by lia.
  pose proof (pow2_pos (e + 1074) ltac:(lia)). nia.
Qed.

(** A value that is finite and not negative, by its size. *)
Lemma bnd_sval (B : Z) (x : spec_float) :
  valid_binary x = true -> -1074 <= B -> bnd B x ->
  is_finite_sf x = true /\ 0 <= sval x < 2 ^ (B + 1074).
Proof.
  intros Hv HB Hb. destruct x as [s| s | |[|] m e]; cbn in Hb; try tauto.
  - cbn. split; [reflexivity|]. split; [lia | apply pow2_pos; lia].
  - apply valid_finite in Hv as (He & _). cbn [is_finite_sf sval cond_Zopp].
    split; [reflexivity|]. pose proof (sval_size m e ltac:(lia)) as Hs.
    pose proof (sval_finite_pos m e ltac:(lia)).
    split; [lia|]. eapply Z.lt_le_trans; [apply Hs|].
    apply pow2_le. lia.
Qed.

Lemma sval_bnd (B : Z) (x : spec_float) :
  valid_binary x = true -> is_finite_sf x = true ->
  0 <= sval x < 2 ^ (B + 1074) -> bnd B x.
Proof.
  intros Hv Hf Hs. destruct x as [s| s | |[|] m e]; try discriminate.
  - exact I.
  - apply valid_finite in Hv as (He & _). cbn in Hs.
    pose proof (sval_finite_pos m e ltac:(lia)). lia.
  - apply valid_finite in Hv as (He & _). cbn [sval cond_Zopp] in Hs. cbn.
    pose proof (sval_size m e ltac:(lia)) as Hz.
    destruct (Z_lt_le_dec (B + 1074) 0) as [Hn|Hn].
    { rewrite (Z.pow_neg_r 2 _ Hn) in Hs. lia. }
    assert (Zpos (digits2_pos m) + e + 1073 < B + 1074); [|lia].
    apply pow2_lt_inv; [lia|]. lia.
Qed.

(** The sign of a finite value. *)
Lemma sval_sign (x : spec_float) :
  valid_binary x = true -> is_finite_sf x = true ->
  match x with
  | S754_finite true _ _ => sval x < 0
  | S754_finite false _ _ => 0 < sval x
  | _ => sval x = 0
  end.
Proof.
  intros Hv Hf. destruct x as [s| s | |[|] m e]; try discriminate;
    try reflexivity; apply valid_finite in Hv as (He & _); cbn;
    pose proof (sval_finite_pos m e ltac:(lia)); lia.
Qed.

(** Rounding an integer multiple [M * 2^ez] of the least positive value:
    the relative error is at most [2^-53], unless the value is too
    large. *)
Lemma binary_normalize_spec (M ez : Z) :
  -1074 <= ez ->
  let T := M * 2 ^ (ez + 1074) in
  let r := binary_normalize prec emax M ez false in
  (is_finite_sf r = true /\ Z.abs (sval r - T) * 2 ^ 53 <= Z.abs T)
  \/ (r = S754_infinity (M <? 0) /\ 2 ^ 2097 <= Z.abs T).
Proof.
  intros Hez T r. subst T r.
  assert (Hbig : forall m : positive,
            1024 <= Zpos (digits2_pos m) + ez ->
            2 ^ 2097 <= Zpos m * 2 ^ (ez + 1074)).
  { intros m Hm. pose proof (sval_size m ez Hez) as Hs.
    eapply Z.le_trans; [|apply Hs]. apply pow2_le. lia. }
  destruct M as [|m|m]; cbn [binary_normalize].
  - left. split; [reflexivity|]. cbn. lia.
  - destruct (binary_round_spec false m ez Hez)
      as [(m' & e' & -> & He' & _ & Herr & _) | [-> Hov]].
    + left. split; [reflexivity|]. cbn [sval cond_Zopp].
      pose proof (sval_finite_pos m ez Hez). lia.
    + right. split; [reflexivity|]. specialize (Hbig m Hov). lia.
  - destruct (binary_round_spec true m ez Hez)
      as [(m' & e' & -> & He' & _ & Herr & _) | [-> Hov]].
    + left. split; [reflexivity|]. cbn [sval cond_Zopp].
      pose proof (sval_finite_pos m ez Hez).
      replace (- (Zpos m' * 2 ^ (e' + 1074)) - Zneg m * 2 ^ (ez + 1074))
        with (- (Zpos m' * 2 ^ (e' + 1074) - Zpos m * 2 ^ (ez + 1074)))
        by lia.
      rewrite Z.abs_opp.
      replace (Z.abs (Zneg m * 2 ^ (ez + 1074)))
        with (Zpos m * 2 ^ (ez + 1074)) by lia.
      exact Herr.
    + right. split; [reflexivity|]. specialize (Hbig m Hov). lia.
Qed.

Lemma sval_shl_align (s : bool) (m : positive) (e e' : Z) :
  cond_Zopp s (Zpos (fst (shl_align m e (Z.min e e'))))
  * 2 ^ (Z.min e e' + 1074)
  = cond_Zopp s (Zpos m * 2 ^ (e + 1074)) \/ Z.min e e' < -1074.
Proof.
  destruct (Z_lt_le_dec (Z.min e e') (-1074)) as [|Hmin]; [right; assumption|].
  left. destruct (shl_align_spec m e (Z.min e e')) as [_ Hm].
  rewrite Hm. replace (Z.min e (Z.min e e')) with (Z.min e e') by lia.
  assert (Hp : 2 ^ (e - Z.min e e') * 2 ^ (Z.min e e' + 1074)
               = 2 ^ (e + 1074)).
  { rewrite <- Z.pow_add_r by lia. f_equal. lia. }
  destruct s; cbn [cond_Zopp]; rewrite <- Hp; ring.
Qed.


(** Subtraction is correctly rounded. *)
Lemma SFsub_spec (x y : spec_float) :
  valid_binary x = true -> valid_binary y = true ->
  is_finite_sf x = true -> is_finite_sf y = true ->
  let T := sval x - sval y in
  let r := SFsub prec emax x y in
  (is_finite_sf r = true /\ Z.abs (sval r - T) * 2 ^ 53 <= Z.abs T)
  \/ (r = S754_infinity (T <? 0) /\ 2 ^ 2097 <= Z.abs T).
Proof.
  intros Hvx Hvy Hfx Hfy T r. subst T r.
  destruct x as [sx|sx| |sx mx ex]; try discriminate;
    destruct y as [sy|sy| |sy my ey]; try discriminate.
  - left. destruct sx, sy; cbn; split; try reflexivity; lia.
  - left. cbn [SFsub is_finite_sf sval]. split; [reflexivity|].
    destruct sy; cbn [negb cond_Zopp]; lia.
  - left. cbn [SFsub is_finite_sf sval]. split; [reflexivity|]. lia.
  - apply valid_finite in Hvx as (Hex & _). apply valid_finite in Hvy as (Hey & _).
    cbn [SFsub sval].
    set (ez := Z.min ex ey).
    assert (Hez : -1074 <= ez) by (unfold ez; lia).
    set (M := cond_Zopp sx (Zpos (fst (shl_align mx ex ez)))
              - cond_Zopp sy (Zpos (fst (shl_align my ey ez)))).
    assert (HT : M * 2 ^ (ez + 1074)
                 = cond_Zopp sx (Zpos mx * 2 ^ (ex + 1074))
                   - cond_Zopp sy (Zpos my * 2 ^ (ey + 1074))).
    { unfold M. rewrite Z.mul_sub_distr_r.
      pose proof (sval_shl_align sx mx ex ey) as Hx.
      pose proof (sval_shl_align sy my ey ex) as Hy.
      rewrite (Z.min_comm ey ex) in Hy. fold ez in Hx, Hy.
      destruct Hx as [->|]; [|lia]. destruct Hy as [->|]; [|lia].
      reflexivity. }
    pose proof (binary_normalize_spec M ez Hez) as Hn. cbn zeta in Hn.
    rewrite HT in Hn. destruct Hn as [Hn | [Hr Hbig]]; [left; exact Hn|].
    right. split; [|exact Hbig]. rewrite Hr. f_equal.
    rewrite <- HT. pose proof (pow2_pos (ez + 1074) ltac:(lia)).
    destruct (M <? 0) eqn:E1; destruct (M * 2 ^ (ez + 1074) <? 0) eqn:E2;
      try reflexivity;
      [apply Z.ltb_lt in E1; apply Z.ltb_ge in E2
      |apply Z.ltb_ge in E1; apply Z.ltb_lt in E2]; nia.
Qed.

(** Adding two values that are not negative: the sum is not below
    either, and at most one size up. *)
Lemma SFadd_bnd (A : Z) (x y : spec_float) :
  valid_binary x = true -> valid_binary y = true ->
  bnd A x -> bnd A y -> A <= 1022 ->
  let r := SFadd prec emax x y in
  bnd (A + 2) r /\ sval x <= sval r /\ sval y <= sval r.
Proof.
  intros Hvx Hvy Hbx Hby HA r. subst r.
  destruct x as [sx|sx| |[|] mx ex]; cbn in Hbx; try tauto;
    destruct y as [sy|sy| |[|] my ey]; cbn in Hby; try tauto.
  - destruct sx, sy; cbn; repeat split; lia.
  - destruct (valid_finite _ _ _ Hvy) as (Hey & _).
    pose proof (sval_finite_pos my ey ltac:(lia)).
    cbn. repeat split; lia.
  - destruct (valid_finite _ _ _ Hvx) as (Hex & _).
    pose proof (sval_finite_pos mx ex ltac:(lia)).
    cbn. repeat split; lia.
  - destruct (valid_finite _ _ _ Hvx) as (Hex & Hdx & Hcx).
    destruct (valid_finite _ _ _ Hvy) as (Hey & Hdy & Hcy).
    cbn [SFadd sval cond_Zopp].
    set (ez := Z.min ex ey).
    assert (Hez : -1074 <= ez) by (unfold ez; lia).
    destruct (shl_align_spec mx ex ez) as [_ Hmx].
    destruct (shl_align_spec my ey ez) as [_ Hmy].
    replace (Z.min ex ez) with ez in Hmx by (unfold ez; lia).
    replace (Z.min ey ez) with ez in Hmy by (unfold ez; lia).
    set (mx' := fst (shl_align mx ex ez)) in *.
    set (my' := fst (shl_align my ey ez)) in *.
    change (Zpos mx' + Zpos my') with (Zpos (mx' + my')).
    cbn [binary_normalize].
    assert (Hpx : Zpos mx' * 2 ^ (ez + 1074) = Zpos mx * 2 ^ (ex + 1074)).
    { rewrite Hmx, <- Z.mul_assoc, <- Z.pow_add_r by lia.
      f_equal. f_equal. lia. }
    assert (Hpy : Zpos my' * 2 ^ (ez + 1074) = Zpos my * 2 ^ (ey + 1074)).
    { rewrite Hmy, <- Z.mul_assoc, <- Z.pow_add_r by lia.
      f_equal. f_equal. lia. }
    assert (HT : Zpos (mx' + my') * 2 ^ (ez + 1074)
                 = Zpos mx * 2 ^ (ex + 1074) + Zpos my * 2 ^ (ey + 1074)).
    { rewrite Pos2Z.inj_add, Z.mul_add_distr_r, Hpx, Hpy. reflexivity. }
    pose proof (sval_size mx ex ltac:(lia)) as Hsx.
    pose proof (sval_size my ey ltac:(lia)) as Hsy.
    pose proof (sval_size (mx' + my') ez Hez) as Hsz.
    rewrite HT in Hsz.
    set (X := Zpos mx * 2 ^ (ex + 1074)) in *.
    set (Y := Zpos my * 2 ^ (ey + 1074)) in *.
    set (dx := Zpos (digits2_pos mx)) in *.
    set (dy := Zpos (digits2_pos my)) in *.
    set (dz := Zpos (digits2_pos (mx' + my'))) in *.
    assert (HXA : X < 2 ^ (A + 1074))
      by (eapply Z.lt_le_trans; [apply Hsx | apply pow2_le; lia]).
    assert (HYA : Y < 2 ^ (A + 1074))
      by (eapply Z.lt_le_trans; [apply Hsy | apply pow2_le; lia]).
    assert (Hdz : dz + ez <= A + 1).
    { assert (dz + ez + 1073 < A + 1 + 1074); [|lia].
      apply pow2_lt_inv; [lia|].
      replace (A + 1 + 1074) with (A + 1074 + 1) by lia.
      rewrite pow2_succ by lia. lia. }
    assert (Hdzx : dx + ex <= dz + ez /\ dy + ey <= dz + ez).
    { split.
      - assert (dx + ex + 1073 < dz + ez + 1074); [|lia].
        apply pow2_lt_inv; [lia|]. lia.
      - assert (dy + ey + 1073 < dz + ez + 1074); [|lia].
        apply pow2_lt_inv; [lia|]. lia. }
    destruct (binary_round_spec false (mx' + my') ez Hez)
      as [(m & e & -> & He & Hsize & Herr & Hgrid) | [_ Hov]];
      [|fold dz in Hov; lia].
    fold dz in Hsize, Hgrid. rewrite HT in Herr, Hgrid.
    cbn [bnd sval cond_Zopp]. split; [lia|].
    rewrite fexp_eq in Hgrid, Hcx, Hcy.
    (* each summand lies on its own grid, or below the leading bit *)
    assert (Hlow : forall (m0 : positive) (e0 : Z),
              -1074 <= e0 ->
              Z.max (Zpos (digits2_pos m0) + e0 - 53) (-1074) = e0 ->
              Zpos (digits2_pos m0) + e0 <= dz + ez ->
              Zpos m0 * 2 ^ (e0 + 1074) <= X + Y ->
              Zpos m0 * 2 ^ (e0 + 1074) <= Zpos m * 2 ^ (e + 1074)).
    { intros m0 e0 He0 Hc0 Hd0 Hle.
      destruct (Z_le_gt_dec (Z.max (dz + ez - 53) (-1074)) e0) as [Hk|Hk].
      - apply Hgrid; [lia | exact Hk | exact Hle].
      - (* a smaller size: the leading bit alone is above it *)
        assert (Hp : 4503599627370496 * 2 ^ (dz + ez - 53 + 1074)
                     = 2 ^ (dz + ez + 1073)).
        { change 4503599627370496 with (2 ^ 52).
          rewrite <- Z.pow_add_r by (clear - Hk He0; lia).
          f_equal. clear. lia. }
        assert (Hlead : 4503599627370496 * 2 ^ (dz + ez - 53 + 1074) <= X + Y)
          by (rewrite Hp; apply Hsz).
        assert (Hk' : Z.max (dz + ez - 53) (-1074) <= dz + ez - 53)
          by (clear - Hk He0; lia).
        pose proof (Hgrid 4503599627370496 (dz + ez - 53)
                      ltac:(discriminate) Hk' Hlead) as Hg.
        rewrite Hp in Hg.
        pose proof (sval_size m0 e0 He0) as Hs0.
        assert (Hle2 : 2 ^ (Zpos (digits2_pos m0) + e0 + 1074)
                       <= 2 ^ (dz + ez + 1073))
          by (apply pow2_le; clear - He0 Hk Hc0 Hd0; lia).
        clear - Hg Hs0 Hle2. lia. }
    split.
    + apply (Hlow mx ex);
        [clear - Hex; lia | exact Hcx | clear - Hdzx; fold dx; lia |].
      fold X. pose proof (sval_finite_pos my ey ltac:(clear - Hey; lia)) as HY.
      fold Y in HY. clear - HY. lia.
    + apply (Hlow my ey);
        [clear - Hey; lia | exact Hcy | clear - Hdzx; fold dy; lia |].
      fold Y. pose proof (sval_finite_pos mx ex ltac:(clear - Hex; lia)) as HX.
      fold X in HX. clear - HX. lia.
Qed.


(** Multiplying two values that are not negative. *)
Lemma SFmul_bnd (A B : Z) (x y : spec_float) :
  valid_binary x = true -> valid_binary y = true ->
  bnd A x -> bnd B y -> -1074 <= A + B <= 973 ->
  bnd (A + B + 1) (SFmul prec emax x y).
Proof.
  intros Hvx Hvy Hbx Hby HAB.
  destruct x as [sx|sx| |[|] mx ex]; cbn in Hbx; try tauto;
    destruct y as [sy|sy| |[|] my ey]; cbn in Hby; try tauto;
    try exact I.
  destruct (valid_finite _ _ _ Hvx) as (Hex & Hdx & _).
  destruct (valid_finite _ _ _ Hvy) as (Hey & Hdy & _).
  cbn [SFmul xorb].
  pose proof (digits_bounds mx) as Hmx. pose proof (digits_bounds my) as Hmy.
  set (dx := Zpos (digits2_pos mx)) in *.
  set (dy := Zpos (digits2_pos my)) in *.
  assert (Hdx0 : 0 < dx) by (unfold dx; lia).
  assert (Hdy0 : 0 < dy) by (unfold dy; lia).
  assert (Hd : Zdigits2 (Zpos (mx * my)) <= dx + dy).
  { apply Zdigits2_bound; [lia | lia |].
    rewrite Z.pow_add_r, Pos2Z.inj_mul by lia.
    destruct Hmx as [_ Hmx], Hmy as [_ Hmy].
    clear - Hmx Hmy. nia. }
  destruct (binary_round_aux_bnd false (Zpos (mx * my)) (ex + ey) loc_Exact
              (A + B + 1))
    as [-> | (m & e & -> & Hm)]; try lia; [exact I | exact Hm].
Qed.

(** Dividing a value that is not negative by a positive one. *)
Lemma SFdiv_bnd (A C : Z) (x : spec_float) (my : positive) (ey : Z) :
  valid_binary x = true -> bnd A x ->
  C = Zpos (digits2_pos my) + ey ->
  -1075 <= A - C <= 1022 ->
  bnd (A - C + 2) (SFdiv prec emax x (S754_finite false my ey)).
Proof.
  intros Hvx Hbx HC HAC.
  destruct x as [sx|sx| |[|] mx ex]; cbn in Hbx; try tauto; try exact I.
  cbn [SFdiv xorb]. unfold SFdiv_core_binary. rewrite fexp_eq.
  cbn [Zdigits2].
  pose proof (digits_bounds mx) as Hmx. pose proof (digits_bounds my) as Hmy.
  set (dx := Zpos (digits2_pos mx)) in *.
  set (dy := Zpos (digits2_pos my)) in *.
  assert (Hdx0 : 0 < dx) by (unfold dx; lia).
  assert (Hdy0 : 0 < dy) by (unfold dy; lia).
  set (e' := Z.min (Z.max (dx + ex - (dy + ey) - 53) (-1074)) (ex - ey)).
  set (s := ex - ey - e').
  assert (Hs : 0 <= s) by (unfold s, e'; lia).
  set (m' := match s with
             | 0 => Zpos mx
             | Zpos _ => Z.shiftl (Zpos mx) s
             | Zneg _ => 0
             end).
  assert (Hm' : m' = Zpos mx * 2 ^ s).
  { unfold m'. destruct s as [|p|p] eqn:Es; [cbn; lia | | lia].
    apply Z.shiftl_mul_pow2. lia. }
  pose proof (Z_div_mod m' (Zpos my) ltac:(lia)) as Hdiv.
  destruct (Z.div_eucl m' (Zpos my)) as [q r]. destruct Hdiv as [Hq Hr].
  pose proof (pow2_pos s Hs) as HS.
  assert (Hq0 : 0 <= q) by (clear - Hq Hr Hm' HS; nia).
  assert (Hdq : Zdigits2 q + e' <= A - C + 1).
  { destruct (Z.eq_dec q 0) as [->|Hq1]; [cbn; unfold e'; lia|].
    pose proof (Zdigits2_le q ltac:(lia)) as Hql.
    assert (Hdq0 : 0 < Zdigits2 q) by (destruct q; cbn; lia).
    assert (Zdigits2 q - 1 + (dy - 1) < dx + s); [|unfold s; lia].
    apply pow2_lt_inv; [lia|].
    rewrite !Z.pow_add_r by lia.
    destruct Hmx as [_ Hmx], Hmy as [Hmy _].
    assert (Hp1 : 0 < 2 ^ (Zdigits2 q - 1)) by (apply pow2_pos; lia).
    assert (Hp2 : 0 < 2 ^ (dy - 1)) by (apply pow2_pos; lia).
    set (Pq := 2 ^ (Zdigits2 q - 1)) in *. set (Py := 2 ^ (dy - 1)) in *.
    set (Px := 2 ^ dx) in *. set (S := 2 ^ s) in *.
    assert (Pq * Py <= q * Zpos my) by (clear - Hql Hmy Hp1 Hp2; nia).
    assert (q * Zpos my <= m') by (clear - Hq Hr; nia).
    assert (m' < Px * S) by (clear - Hm' Hmx HS; nia).
    lia. }
  assert (He' : e' <= 971) by (unfold e'; clear - Hbx HC HAC; lia).
  assert (HB : Z.max (Zdigits2 q + e') (-1074) + 1 <= A - C + 2)
    by (clear - Hdq HAC; lia).
  destruct (binary_round_aux_bnd false q e'
              (new_location (Zpos my) r) (A - C + 2) Hq0 He' HB ltac:(lia))
    as [-> | (m & e & -> & Hm)]; [exact I | exact Hm].
Qed.

Lemma of_uint63_bnd (n : PrimInt63.int) : bnd 64 (Prim2SF (of_uint63 n)).
Proof.
  rewrite of_uint63_spec. pose proof (Uint63.to_Z_bounded n) as Hn.
  change Uint63.wB with (2 ^ 63) in Hn.
  destruct (Uint63.to_Z n) as [|p|p]; [exact I | | lia].
  cbn [binary_normalize].
  assert (Hd : Zpos (digits2_pos p) <= 63)
    by (apply (Zdigits2_bound (Zpos p)); lia).
  destruct (binary_round_spec false p 0 ltac:(lia))
    as [(m & e & -> & _ & Hs & _) | [_ Hov]]; [cbn; lia | lia].
Qed.

(** *** Comparisons with zero *)

Lemma SFltb_zero_false (x : spec_float) :
  valid_binary x = true ->
  SFltb x (S754_zero false) = false ->
  is_finite_sf x = true \/ x = S754_infinity true ->
  is_finite_sf x = true /\ 0 <= sval x.
Proof.
  intros Hv Hl [Hf | ->]; [|discriminate]. split; [exact Hf|].
  destruct x as [s|s| |[|] m e]; try discriminate; cbn; lia.
Qed.

Lemma SFltb_zero_true (x : spec_float) :
  valid_binary x = true -> is_finite_sf x = true -> sval x < 0 ->
  SFltb x (S754_zero false) = true.
Proof.
  intros Hv Hf Hs. destruct x as [s|s| |[|] m e]; try discriminate;
    cbn in Hs; try lia; reflexivity.
Qed.

(** A value between 0 and a positive value is no larger in size. *)
Lemma SFleb_bnd (x : spec_float) (m : positive) (e : Z) :
  valid_binary x = true ->
  SFleb (S754_zero false) x = true ->
  SFleb x (S754_finite false m e) = true ->
  bnd (53 + e) x.
Proof.
  intros Hv H0 Hm. destruct x as [s|[|]| |[|] mx ex]; try discriminate;
    [exact I|].
  apply valid_finite in Hv as (He & Hd & _).
  change (Zpos (digits2_pos mx) + ex <= 53 + e).
  unfold SFleb, SFcompare in Hm.
  destruct (ex ?= e) eqn:E; try discriminate.
  - apply Z.compare_eq in E. subst e. clear - Hd. lia.
  - rewrite Z.compare_lt_iff in E. clear - Hd E. lia.
Qed.

End Rounding64.

(** ** Floats *)

Section Floats64.
Local Open Scope Z_scope.

Lemma bnd_mono (A B : Z) (x : spec_float) : A <= B -> bnd A x -> bnd B x.
Proof. destruct x as [s|s| |[|] m e]; cbn; try tauto. lia. Qed.

Lemma sized_mono (A B : Z) (x : float) : A <= B -> sized A x -> sized B x.
Proof. apply bnd_mono. Qed.

Lemma sized_finite (B : Z) (x : float) :
  -1074 <= B -> sized B x ->
  is_finite x = true /\ 0 <= fval x < 2 ^ (B + 1074).
Proof. intros HB. apply bnd_sval; [apply Prim2SF_valid | exact HB]. Qed.

Lemma sized_add (A : Z) (x y : float) :
  sized A x -> sized A y -> A <= 1022 ->
  sized (A + 2) (x + y) /\ fval x <= fval (x + y) /\ fval y <= fval (x + y).
Proof.
  unfold sized, fval. rewrite add_spec. intros Hx Hy HA.
  apply SFadd_bnd; auto using Prim2SF_valid.
Qed.

Lemma sized_mul (A B : Z) (x y : float) :
  sized A x -> sized B y -> -1074 <= A + B <= 973 ->
  sized (A + B + 1) (x * y).
Proof.
  unfold sized. rewrite mul_spec. intros Hx Hy HAB.
  apply SFmul_bnd; auto using Prim2SF_valid.
Qed.

Lemma sized_div_100 (A : Z) (x : float) :
  sized A x -> -1068 <= A <= 1029 -> sized A (x / 100).
Proof.
  unfold sized. rewrite div_spec. intros Hx HA.
  change (Prim2SF 100) with (S754_finite false 7036874417766400 (-46)).
  apply (bnd_mono (A - 7 + 2)); [lia|].
  apply SFdiv_bnd; [apply Prim2SF_valid | exact Hx | reflexivity | lia].
Qed.

Lemma sized_of_uint63 (n : PrimInt63.int) : sized 64 (of_uint63 n).
Proof. apply of_uint63_bnd. Qed.

(** A value of a spin box with the range 0 to 101. *)
Lemma sized_range (x : float) :
  (0 <=? x)%float = true -> (x <=? 101)%float = true -> sized 7 x.
Proof.
  rewrite !leb_spec.
  change (Prim2SF 0) with (S754_zero false).
  change (Prim2SF 101) with (S754_finite false 7107243161944064 (-46)).
  intros H0 H1. apply (SFleb_bnd (Prim2SF x) _ (-46) (Prim2SF_valid x) H0 H1).
Qed.

(** Subtraction: the result is finite with a relative error of at most
    [2^-53], or infinite with the sign of the difference. *)
Lemma sub_finite (x y : float) :
  is_finite x = true -> is_finite y = true ->
  let T := fval x - fval y in
  (is_finite (x - y) = true /\ Z.abs (fval (x - y) - T) * 2 ^ 53 <= Z.abs T)
  \/ (Prim2SF (x - y) = S754_infinity (T <? 0) /\ 2 ^ 2097 <= Z.abs T).
Proof.
  unfold is_finite, fval. rewrite sub_spec. intros Hx Hy.
  apply SFsub_spec; auto using Prim2SF_valid.
Qed.

(** The difference of two values in their order. *)
Lemma sized_sub (A : Z) (x y : float) :
  sized A x -> is_finite y = true -> 0 <= fval y <= fval x ->
  -1074 <= A <= 1000 ->
  sized (A + 1) (x - y).
Proof.
  intros Hx Hy Hxy HA.
  destruct (sized_finite A x ltac:(lia) Hx) as (Hfx & Hx0 & HxA).
  assert (Hbig : 2 ^ (A + 1074) <= 2 ^ 2097)
    by (apply Z.pow_le_mono_r; lia).
  destruct (sub_finite x y Hfx Hy) as [[Hf He] | [_ Hov]]; cbn zeta in *.
  - apply sval_bnd; [apply Prim2SF_valid | exact Hf |]. fold (fval (x - y)).
    replace (A + 1 + 1074) with (A + 1074 + 1) by lia.
    rewrite Z.pow_add_r by lia. change (2 ^ 1) with 2.
    change (2 ^ 53) with 9007199254740992 in He.
    set (P := 2 ^ (A + 1074)) in *. clearbody P. clear Hbig. lia.
  - set (P := 2 ^ (A + 1074)) in *. set (P' := 2 ^ 2097) in *.
    clearbody P P'. lia.
Qed.

Lemma negative_ltb (x : float) : negative x -> (x <? 0)%float = true.
Proof.
  rewrite ltb_spec. change (Prim2SF 0) with (S754_zero false).
  intros [[Hf Hs] | ->]; [|reflexivity].
  apply SFltb_zero_true; [apply Prim2SF_valid | exact Hf | exact Hs].
Qed.

Lemma not_negative (x : float) :
  (x <? 0)%float = false ->
  is_finite x = true \/ Prim2SF x = S754_infinity true ->
  is_finite x = true /\ 0 <= fval x.
Proof.
  rewrite ltb_spec. change (Prim2SF 0) with (S754_zero false).
  apply SFltb_zero_false, Prim2SF_valid.
Qed.

(** Taking a value that is not negative from a negative one. *)
Lemma negative_sub (B : Z) (x y : float) :
  negative x -> sized B y -> -1074 <= B -> negative (x - y).
Proof.
  intros Hx Hy HB. destruct (sized_finite B y HB Hy) as (Hfy & Hy0 & _).
  destruct Hx as [[Hfx Hx] | Hx].
  - destruct (sub_finite x y Hfx Hfy) as [[Hf He] | [Hr _]]; cbn zeta in *.
    + left. split; [exact Hf|].
      change (2 ^ 53) with 9007199254740992 in He. lia.
    + right. rewrite Hr. f_equal. apply Z.ltb_lt. lia.
  - right. rewrite sub_spec, Hx. unfold sized in Hy.
    destruct (Prim2SF y) as [s|s| |[|] m e]; cbn in Hy; try tauto;
      reflexivity.
Qed.


Lemma fval_one : fval 1 = 2 ^ 1074.
Proof.
  unfold fval. change (Prim2SF 1) with (S754_finite false 4503599627370496 (-52)).
  cbn [sval cond_Zopp]. change (Z.pos 4503599627370496) with (2 ^ 52).
  rewrite <- Z.pow_add_r by lia. reflexivity.
Qed.

Lemma negative_chain (xs : list float) (a : float) :
  Forall (sized 1000) xs -> negative a ->
  negative (fold_left PrimFloat.sub xs a).
Proof.
  intros Hxs. revert a. induction Hxs as [|x xs Hx Hxs IH]; intros a Ha.
  - exact Ha.
  - cbn [fold_left]. apply IH. apply (negative_sub 1000); [exact Ha | exact Hx | lia].
Qed.

(** Values that are not negative are taken one after the other from a
    value near one; when the last difference is not negative, none was,
    and every subtraction has rounded a number between 0 and 2. *)
Lemma sub_chain (xs : list float) (a : float) (j : Z) :
  Forall (sized 1000) xs ->
  is_finite a = true -> 0 <= fval a ->
  fval a * 2 ^ 53 <= 2 ^ 1074 * (2 ^ 53 + 2 * j) ->
  0 <= j -> j + Z.of_nat (length xs) <= 2 ^ 51 ->
  (fold_left PrimFloat.sub xs a <? 0)%float = false ->
  let f := fold_left PrimFloat.sub xs a in
  is_finite f = true /\ 0 <= fval f
  /\ Z.abs (fval f + zsum (map fval xs) - fval a) * 2 ^ 52
     <= Z.of_nat (length xs) * 2 ^ 1074.
Proof.
  intros Hxs. revert a j.
  assert (HU : 0 < 2 ^ 1074) by (apply Z.pow_pos_nonneg; lia).
  assert (HU1 : 2 * 2 ^ 1074 <= 2 ^ 2074).
  { rewrite <- (Z.pow_succ_r 2 1074) by lia. apply Z.pow_le_mono_r; lia. }
  assert (HU2 : 2 ^ 2074 < 2 ^ 2097) by (apply Z.pow_lt_mono_r; lia).
  assert (Hsz : forall x, sized 1000 x ->
                  is_finite x = true /\ 0 <= fval x < 2 ^ 2074)
    by (intros x Hx; apply (sized_finite 1000 x); [lia | exact Hx]).
  change (2 ^ 53) with 9007199254740992.
  change (2 ^ 52) with 4503599627370496.
  change (2 ^ 51) with 2251799813685248.
  assert (Hsub : forall a x, is_finite a = true -> is_finite x = true ->
            (is_finite (a - x) = true
             /\ Z.abs (fval (a - x) - (fval a - fval x)) * 9007199254740992
                <= Z.abs (fval a - fval x))
            \/ 2 ^ 2097 <= Z.abs (fval a - fval x)).
  { intros a x Ha Hx. destruct (sub_finite a x Ha Hx) as [H | [_ H]];
      [left; exact H | right; exact H]. }
  set (U := 2 ^ 1074) in *. set (V := 2 ^ 2074) in *. set (W := 2 ^ 2097) in *.
  clearbody U V W.
  induction Hxs as [|x xs Hx Hxs IH]; intros a j Hfa Ha0 Haj Hj Hlen Hlt f.
  - subst f. cbn [fold_left map zsum fold_right length] in *.
    split; [exact Hfa|]. split; [exact Ha0|]. cbn. lia.
  - subst f. cbn [fold_left] in *. cbn [length] in Hlen.
    rewrite Nat2Z.inj_succ in Hlen.
    destruct (Hsz x Hx) as (Hfx & Hx0 & Hx1).
    assert (HUj : U * j <= U * 2251799813685248)
      by (apply Z.mul_le_mono_nonneg_l; lia).
    assert (Ha2 : fval a <= 2 * U) by lia.
    destruct (Hsub a x Hfa Hfx) as [[Hf He] | Hov]; [|lia].
    destruct (Z_lt_le_dec (fval a - fval x) 0) as [Hneg|Hpos].
    + (* the difference is negative, and so is the last one *)
      assert (Hn : negative (a - x)) by (left; split; [exact Hf | lia]).
      pose proof (negative_ltb _ (negative_chain xs _ Hxs Hn)) as Hc.
      rewrite Hc in Hlt. discriminate.
    + destruct (IH (a - x)%float (j + 1)) as (Hff & Hf0 & Hsum);
        [exact Hf | lia | lia | lia | lia | exact Hlt |].
      split; [exact Hff|]. split; [exact Hf0|].
      cbn [map zsum fold_right length]. fold (zsum (map fval xs)).
      rewrite Nat2Z.inj_succ. lia.
Qed.

(** *** Rational values *)

Lemma SF2Q_sval (x : spec_float) :
  valid_binary x = true ->
  (SF2Q x == Qmake (sval x) (2 ^ 1074)%positive)%Q.
Proof.
  intros Hv. destruct x as [s|s| |s m e]; try reflexivity.
  apply valid_finite in Hv as (He & _). unfold SF2Q, sval, Qeq.
  destruct e as [|p|p]; cbn [Qnum Qden inject_Z].
  - rewrite Pos2Z.inj_pow. change (0 + 1074) with 1074. change (2 ^ 0) with 1.
    change (Z.pos 2 ^ Z.pos 1074) with (2 ^ 1074).
    set (P := 2 ^ 1074). clearbody P. destruct s; cbn [cond_Zopp]; ring.
  - rewrite Pos2Z.inj_pow. change (Z.pos 2 ^ Z.pos 1074) with (2 ^ 1074).
    rewrite Z.pow_add_r by lia.
    set (P := 2 ^ 1074). set (P' := 2 ^ Zpos p). clearbody P P'.
    destruct s; cbn [cond_Zopp]; ring.
  - rewrite !Pos2Z.inj_pow. change (Z.pos 2 ^ Z.pos 1074) with (2 ^ 1074).
    change (Z.pos 2) with 2.
    assert (Hp : 2 ^ (Zneg p + 1074) * 2 ^ Zpos p = 2 ^ 1074).
    { rewrite <- Z.pow_add_r by lia. f_equal. lia. }
    set (P := 2 ^ 1074) in *. set (P' := 2 ^ Zpos p) in *.
    set (P'' := 2 ^ (Zneg p + 1074)) in *. clearbody P P' P''.
    destruct s; cbn [cond_Zopp]; rewrite <- Hp; ring.
Qed.

Lemma F2Q_fval (x : float) : (F2Q x == Qmake (fval x) (2 ^ 1074)%positive)%Q.
Proof. apply SF2Q_sval, Prim2SF_valid. Qed.

End Floats64.

(** ** Sums that are zero *)

Section Zeros64.
Local Open Scope Z_scope.

Lemma leb_zero_nonneg (x : float) :
  (0 <=? x)%float = true -> nonneg_sf (Prim2SF x) = true.
Proof.
  rewrite leb_spec. change (Prim2SF 0) with (S754_zero false).
  destruct (Prim2SF x) as [s|[|]| |[|] m e]; cbn; congruence.
Qed.

Lemma eqb_zero (x : float) : (x =? 0)%float = is_zero_sf (Prim2SF x).
Proof.
  rewrite FloatAxioms.eqb_spec. change (Prim2SF 0) with (S754_zero false).
  destruct (Prim2SF x) as [s|[|]| |[|] m e]; reflexivity.
Qed.

(** The sum of two values that are not negative is not negative, and it
    is zero only when both are. *)
Lemma SFadd_nonneg (x y : spec_float) :
  valid_binary x = true -> valid_binary y = true ->
  nonneg_sf x = true -> nonneg_sf y = true ->
  nonneg_sf (SFadd prec emax x y) = true
  /\ (is_zero_sf (SFadd prec emax x y) = true ->
      is_zero_sf x = true /\ is_zero_sf y = true).
Proof.
  intros Hvx Hvy Hx Hy.
  destruct x as [sx|[|]| |[|] mx ex]; try discriminate;
    destruct y as [sy|[|]| |[|] my ey]; try discriminate;
    try (cbn; split; [reflexivity | intros; (discriminate || (split; reflexivity))]).
  - destruct sx, sy; cbn; split; auto.
  - destruct (valid_finite _ _ _ Hvx) as (Hex & _).
    destruct (valid_finite _ _ _ Hvy) as (Hey & _).
    cbn [SFadd cond_Zopp].
    change (Zpos (fst (shl_align mx ex (Z.min ex ey)))
            + Zpos (fst (shl_align my ey (Z.min ex ey))))
      with (Zpos (fst (shl_align mx ex (Z.min ex ey))
                  + fst (shl_align my ey (Z.min ex ey)))).
    cbn [binary_normalize].
    destruct (binary_round_spec false
                (fst (shl_align mx ex (Z.min ex ey))
                 + fst (shl_align my ey (Z.min ex ey)))
                (Z.min ex ey) ltac:(lia))
      as [(m & e & -> & _) | [-> _]];
      cbn; split; (reflexivity || discriminate).
Qed.

Lemma sum_zero_entries (l : list float) (a : float) :
  nonneg_sf (Prim2SF a) = true ->
  Forall (fun x => (0 <=? x)%float = true) l ->
  is_zero_sf (Prim2SF (fold_left PrimFloat.add l a)) = true ->
  is_zero_sf (Prim2SF a) = true
  /\ Forall (fun x => is_zero_sf (Prim2SF x) = true) l.
Proof.
  intros Ha Hl. revert a Ha. induction Hl as [|x l Hx Hl IH]; intros a Ha Hz.
  - split; [exact Hz | constructor].
  - cbn [fold_left] in Hz.
    destruct (SFadd_nonneg (Prim2SF a) (Prim2SF x)
                (Prim2SF_valid a) (Prim2SF_valid x) Ha
                (leb_zero_nonneg x Hx)) as [Hn Hzz].
    fold SF64add in Hn, Hzz. rewrite <- add_spec in Hn, Hzz.
    destruct (IH _ Hn Hz) as [Hax Hall].
    destruct (Hzz Hax) as [Hza Hzx].
    split; [exact Hza | constructor; assumption].
Qed.

(** Fractions that are not negative and add up to zero are all zero. *)
Lemma float_sum_zero (l : list float) :
  Forall (fun x => (0 <=? x)%float = true) l ->
  (sum l =? 0)%float = true ->
  Forall (fun x => (x =? 0)%float = true) l.
Proof.
  intros Hl Hs. rewrite eqb_zero in Hs.
  destruct (sum_zero_entries l 0%float eq_refl Hl Hs) as [_ Hall].
  eapply List.Forall_impl; [|exact Hall].
  intros x Hx. rewrite eqb_zero. exact Hx.
Qed.

Lemma zero_percent (x : float) :
  (x =? 0)%float = true -> (x * 100 =? 0)%float = true.
Proof.
  rewrite !eqb_zero, mul_spec.
  change (Prim2SF 100) with (S754_finite false 7036874417766400 (-46)).
  destruct (Prim2SF x) as [s|[|]| |[|] m e]; try discriminate.
  reflexivity.
Qed.

Lemma zero_not_hundred (x : float) :
  (x =? 0)%float = true -> (x =? 100)%float = false.
Proof.
  rewrite eqb_zero, FloatAxioms.eqb_spec.
  change (Prim2SF 100) with (S754_finite false 7036874417766400 (-46)).
  destruct (Prim2SF x) as [s|[|]| |[|] m e]; try discriminate.
  reflexivity.
Qed.
End Zeros64.

(** ** A composition of zeros *)

Section Dict.
Context {K V : Type} (eqb : K -> K -> bool) (P : V -> Prop).

Lemma dict_set_values (d : dict K V) (k : K) (v : V) :
  Forall P (map snd d) -> P v -> Forall P (map snd (dict_set eqb d k v)).
Proof.
  intros Hd Hv. induction d as [|[k' v'] d IH]; cbn.
  - constructor; [exact Hv | constructor].
  - inversion Hd; subst. destruct (eqb k' k); cbn.
    + constructor; assumption.
    + constructor; [assumption | apply IH; assumption].
Qed.

Lemma dict_of_values (pairs : list (K * V)) :
  Forall P (map snd pairs) -> Forall P (map snd (dict_of eqb pairs)).
Proof.
  unfold dict_of. assert (Hnil : Forall P (map snd (@nil (K * V))))
    by constructor.
  revert Hnil. generalize (@nil (K * V)) as d.
  induction pairs as [|[k v] pairs IH]; cbn; intros d Hd Hp.
  - exact Hd.
  - inversion Hp; subst. apply IH; [|assumption].
    apply dict_set_values; assumption.
Qed.
End Dict.

Section EmptyDict.
Context {F : Type} `{Number F}.

(** When every percentage is zero, nothing is left of the dictionary. *)
Lemma gas_dict_of_zeros (gas_list : list gas_sel) (l : list F) :
  Forall (fun x => (x *! hundred =?! zero) = true) l ->
  gas_dict_of gas_list l = [].
Proof.
  intros Hl. unfold gas_dict_of.
  set (percents := map (fun x : F => x *! hundred) l).
  assert (Hp : Forall (fun v : F => (v =?! zero) = true) percents).
  { unfold percents. induction Hl as [|x xs Hx Hxs IH]; cbn; constructor;
      assumption. }
  assert (Hd : Forall (fun v : F => (v =?! zero) = true)
                 (map snd (dict_of gas_eqb (combine gas_list percents)))).
  { apply dict_of_values. clear -Hp. revert gas_list.
    induction Hp as [|v vs Hv Hvs IH]; intros [|g gs]; cbn;
      try constructor; auto. }
  induction (dict_of gas_eqb (combine gas_list percents)) as [|[k v] d IH];
    cbn in *; [reflexivity|].
  inversion Hd as [|? ? Hv Hd']; subst. rewrite Hv. cbn. apply IH, Hd'.
Qed.
End EmptyDict.

Section ZeroComposition.
Context {F : Type} `{Number F}.

Local Abbreviation GS := (Gas_System F).

Lemma hoare_bind_value {S A B} (P : S -> Prop) (m : M S A)
    (k : A -> M S B) (v : A) (Q : outcome B -> S -> Prop) :
  hoare P m (fun o s => P s /\ o = Returned v) ->
  hoare P (k v) Q ->
  hoare P (bind m k) Q.
Proof.
  intros Hm Hk s Hs. destruct (Hm s Hs) as [HP Ho]. unfold bind.
  destruct (m s) as [o s']; cbn in *. subst o. apply Hk, HP.
Qed.

Lemma reading_get (s0 : GS) (c : channel) :
  c <> ChE ->
  hoare (reading s0) (issue c Get)
        (fun o s => reading s0 s /\ o = Returned (mfc c s0)).
Proof.
  intros Hc s (Hb & Hok & Hh & HA & HB & HC & HD & HE & Hlog).
  unfold issue. rewrite Hok. cbn.
  split; [| destruct c; cbn; congruence].
  unfold reading. cbn. rewrite List.filter_app. cbn.
  destruct c; try congruence; cbn; rewrite app_nil_r; repeat split; auto.
Qed.

Lemma reading_load (s0 : GS) (r : loc) (l : list F) :
  heap s0 !! r = Some l ->
  hoare (reading s0) (load r) (fun o s => reading s0 s /\ o = Returned l).
Proof.
  intros Hl s Hs. unfold load.
  destruct Hs as (Hb & Hok & Hh & Hrest). rewrite Hh, Hl. cbn.
  split; [|reflexivity]. repeat split; tauto.
Qed.

(** With an empty dictionary the body of [set_gasE] stops at
    [list(gas_dict)[0]]. *)
Lemma set_gasE_body_empty (s0 : GS) (r : loc) (l : list F) :
  heap s0 !! r = Some l ->
  gas_dict_of [gas (mfc_A s0); gas (mfc_B s0); gas (mfc_C s0);
               gas (mfc_D s0)] l = [] ->
  hoare (reading s0)
    (a <- issue ChA Get ;;
     b <- issue ChB Get ;;
     c <- issue ChC Get ;;
     d <- issue ChD Get ;;
     l <- load r ;;
     let gas_dict := gas_dict_of [gas a; gas b; gas c; gas d] l in
     (if (1 <? length gas_dict)%nat then
        issue ChE (CreateMix 236 "output" gas_dict) ;;;
        issue ChE (SetGas (MixNo 236)) ;;;
        ret tt
      else
        k <- getitem (map fst gas_dict) 0 ;;
        issue ChE (SetGas k) ;;;
        ret tt) ;;;
     set_busy false)
    (fun o s => o = Raised IndexError /\ reading s0 s).
Proof.
  intros Hl Hd.
  apply hoare_bind_value with (v := mfc ChA s0);
    [apply reading_get; discriminate|].
  apply hoare_bind_value with (v := mfc ChB s0);
    [apply reading_get; discriminate|].
  apply hoare_bind_value with (v := mfc ChC s0);
    [apply reading_get; discriminate|].
  apply hoare_bind_value with (v := mfc ChD s0);
    [apply reading_get; discriminate|].
  apply hoare_bind_value with (v := l); [apply reading_load, Hl|].
  cbn [mfc]. rewrite Hd. intros s Hs. cbn. split; [reflexivity | exact Hs].
Qed.
End ZeroComposition.

(** C9: in binary64, a composition of fractions that are not negative
    and sum to 0 passes the check unchanged; every entry of the gas
    dictionary is dropped, [list(gas_dict)[0]] raises [IndexError],
    channel E receives no command, and the flag stays set.  So the
    single-gas branch returns only when some fraction is not zero. *)
Theorem set_gasE_zero_composition
    (s : Gas_System float) (comp_list : loc) (l : list float) :
  heap s !! comp_list = Some l ->
  is_busy s = false ->
  (forall n, hw_ok s n = true) ->
  Forall (fun x => (0 <=? x)%float = true) l ->
  (sum l =? 0)%float = true ->
  check_comp_total comp_list s = (Returned comp_list, s)
  /\ gas_dict_of [gas (mfc_A s); gas (mfc_B s); gas (mfc_C s);
                  gas (mfc_D s)] l = []
  /\ fst (set_gasE comp_list s) = Raised IndexError
  /\ mfc_E (snd (set_gasE comp_list s)) = mfc_E s
  /\ to_channel_E (log (snd (set_gasE comp_list s))) = to_channel_E (log s)
  /\ is_busy (snd (set_gasE comp_list s)) = true.
Proof.
  intros Hl Hi Hok Hnn Hs.
  pose proof (float_sum_zero l Hnn Hs) as Hz.
  assert (H100 : (sum l =?! hundred) = false)
    by (apply zero_not_hundred, Hs).
  assert (H0 : (sum l =?! zero) = true) by exact Hs.
  assert (Hc : check_comp_total comp_list s = (Returned comp_list, s)).
  { rewrite (check_comp_total_run s comp_list l Hl), H100.
    rewrite rescaled_other by exact H100. rewrite H0.
    rewrite andb_false_r. reflexivity. }
  assert (Hd : gas_dict_of [gas (mfc_A s); gas (mfc_B s); gas (mfc_C s);
                            gas (mfc_D s)] l = []).
  { apply gas_dict_of_zeros. eapply List.Forall_impl; [|exact Hz].
    intros x Hx. apply zero_percent, Hx. }
  split; [exact Hc|]. split; [exact Hd|].
  remember (set_gasE comp_list s) as res eqn:Hres.
  unfold set_gasE in Hres. unfold bind at 1 in Hres. rewrite Hc in Hres.
  unfold bind at 1 in Hres. unfold wait_idle in Hres. rewrite Hi in Hres.
  unfold bind at 1 in Hres. cbn [set_busy] in Hres.
  match type of Hres with
  | res = bind (issue ChA Get) ?k ?s1 =>
      destruct (set_gasE_body_empty s comp_list l Hl Hd s1)
        as (Ho & Hb & _ & _ & _ & _ & _ & _ & HE & Hlog)
  end.
  { cbn. repeat split; auto. }
  subst res. split; [exact Ho|]. split; [exact HE|]. split; [exact Hlog | exact Hb].
Qed.

Lemma set_gasE_zero_composition_witness :
  let s := at_rest ["Ar"; "H2"; "N2"; "O2"]%string [0; 0; 0; 0]%float in
  (sum [0; 0; 0; 0] =? 0)%float = true
  /\ fst (set_gasE 0%nat s) = Raised IndexError
  /\ is_busy (snd (set_gasE 0%nat s)) = true.
Proof.
  split; [reflexivity|].
  destruct (set_gasE_zero_composition
              (at_rest ["Ar"; "H2"; "N2"; "O2"]%string [0; 0; 0; 0]%float)
              0%nat [0; 0; 0; 0]%float) as (_ & _ & He & _ & _ & Hb).
  - reflexivity.
  - reflexivity.
  - intros n. reflexivity.
  - repeat constructor.
  - reflexivity.
  - split; [exact He | exact Hb].
Defined.

(** With one fraction that is not zero the branch selects its gas. *)
Example single_gas_selected :
  let s := at_rest ["Ar"; "H2"; "N2"; "O2"]%string [0; 1; 0; 0]%float in
  fst (set_gasE 0%nat s) = Returned tt
  /\ mfc_E (snd (set_gasE 0%nat s)) = Mfc (GasName "H2") 0%float
  /\ is_busy (snd (set_gasE 0%nat s)) = false.
Proof. vm_compute. repeat split; reflexivity. Qed.

(** ** The composition-sweep planner *)

Section PlannerFacts.
Context {F : Type} `{Number F}.

(** What the planner has checked and computed when it stores a matrix. *)
Lemma plan_stored (rows : list (row F)) (m : list (list F)) :
  plan_comp_sweep rows = PStored m ->
  exists r rest ind,
    existsb (has_status Unset) rows = false
    /\ row_count Fill rows = 1%nat
    /\ row_count IndVariable rows = 1%nat
    /\ rows_of IndVariable rows = r :: rest
    /\ sweep_range r = RangeOk ind
    /\ any_negative (fill_vals rows ind) = false
    /\ m = transpose (comp_list rows ind (fill_vals rows ind)).
Proof.
  unfold plan_comp_sweep.
  destruct (existsb (has_status Unset) rows) eqn:EU; [discriminate|].
  destruct (row_count Fill rows =? 1)%nat eqn:EF; [|discriminate].
  destruct (row_count IndVariable rows =? 1)%nat eqn:EI; [|discriminate].
  cbn [negb orb].
  destruct (rows_of IndVariable rows) as [|r rest] eqn:ER; [discriminate|].
  destruct (sweep_range r) as [| |ind] eqn:ES; try discriminate.
  destruct (any_negative (fill_vals rows ind)) eqn:EN; [discriminate|].
  intros [= <-]. exists r, rest, ind.
  apply Nat.eqb_eq in EF, EI. repeat split; assumption.
Qed.

Lemma computed_fill_plan (rows : list (row F)) (fill : list F) :
  computed_fill rows = Some fill ->
  plan_comp_sweep rows =
    if any_negative fill then PCleared
    else PStored
           (transpose
              (comp_list rows
                 (match rows_of IndVariable rows with
                  | r :: _ => match sweep_range r with
                              | RangeOk ind => ind
                              | _ => []
                              end
                  | [] => []
                  end) fill)).
Proof.
  unfold computed_fill, plan_comp_sweep.
  destruct (existsb (has_status Unset) rows); [discriminate|].
  destruct (negb _ || negb _); [discriminate|].
  destruct (rows_of IndVariable rows) as [|r rest]; [discriminate|].
  destruct (sweep_range r) as [| |ind]; try discriminate.
  intros [= <-]. reflexivity.
Qed.

Lemma rows_of_status (s : status) (rows : list (row F)) (r : row F) :
  In r (rows_of s rows) -> Status r = s.
Proof.
  unfold rows_of. intros Hr. apply List.filter_In in Hr as [_ Hr].
  unfold has_status in Hr. destruct (Status r), s; try discriminate;
    reflexivity.
Qed.

Lemma rows_of_Unset (rows : list (row F)) :
  existsb (has_status Unset) rows = false -> rows_of Unset rows = [].
Proof.
  induction rows as [|r rows IH]; cbn; [reflexivity|].
  destruct (has_status Unset r); cbn; [discriminate | exact IH].
Qed.

Lemma length_vsub (u v : list F) :
  length u = length v -> length (vsub u v) = length u.
Proof.
  intros Huv. unfold vsub. rewrite length_map, length_combine.
  rewrite <- Huv. apply Nat.min_id.
Qed.

Lemma length_fold_vsub (col : row F -> list F) (n : nat)
    (rs : list (row F)) (f : list F) :
  (forall r, length (col r) = n) -> length f = n ->
  length (fold_left (fun f r => vsub f (col r)) rs f) = n.
Proof.
  intros Hcol. revert f. induction rs as [|r rs IH]; intros f Hf; cbn.
  - exact Hf.
  - apply IH. rewrite length_vsub; [exact Hf|]. rewrite Hf, Hcol. reflexivity.
Qed.

Lemma length_fill_vals (rows : list (row F)) (ind : list F) :
  length (fill_vals rows ind) = length ind.
Proof.
  unfold fill_vals.
  apply length_fold_vsub.
  - intros r. unfold col_Fixed. apply length_map.
  - apply length_fold_vsub.
    + intros r. unfold col_Multiple. apply length_map.
    + unfold fill_start. apply length_map.
Qed.

Lemma length_comp_col (ind fill : list F) (r : row F) :
  length fill = length ind ->
  (length (comp_col ind fill r) <= length ind)%nat.
Proof.
  intros Hf. unfold comp_col, col_Multiple, col_Fixed.
  destruct (Status r); cbn; rewrite ?length_map, ?Hf; lia.
Qed.

Lemma length_hd_comp_list (rows : list (row F)) (ind fill : list F) :
  length fill = length ind ->
  (length (hd [] (comp_list rows ind fill)) <= length ind)%nat.
Proof.
  intros Hf. destruct rows as [|r rows]; unfold comp_list; cbn [map hd].
  - cbn. lia.
  - apply length_comp_col, Hf.
Qed.

(** A row of the transposed matrix, by its sweep index. *)
Lemma transpose_rows (cols : list (list F)) (row : list F) :
  In row (transpose cols) ->
  exists k, (k < length (hd [] cols))%nat
            /\ row = map (fun c => nth k c zero) cols.
Proof.
  unfold transpose. intros Hr. apply in_map_iff in Hr as (k & <- & Hk).
  apply in_seq in Hk. exists k. split; [lia | reflexivity].
Qed.
End PlannerFacts.

Lemma length_one {A} (l : list A) : length l = 1%nat -> exists x, l = [x].
Proof. destruct l as [|x [|y l]]; try discriminate. eauto. Qed.


(** *** The planner in binary64 *)

Section PlannerNth.
Context {F : Type} `{Number F}.

Lemma nth_vsub (u v : list F) (k : nat) (d : F) :
  (k < length u)%nat -> (k < length v)%nat ->
  nth k (vsub u v) d = nth k u d -! nth k v d.
Proof.
  revert u v. induction k as [|k IH]; intros [|x u] [|y v] Hu Hv;
    cbn in *; try lia; [reflexivity|].
  apply IH; lia.
Qed.

Lemma nth_fold_vsub (col : row F -> list F) (n k : nat)
    (rs : list (row F)) (f : list F) (d : F) :
  (forall r, length (col r) = n) -> length f = n -> (k < n)%nat ->
  nth k (fold_left (fun f r => vsub f (col r)) rs f) d
  = fold_left (fun a x => a -! x) (map (fun r => nth k (col r) d) rs)
      (nth k f d).
Proof.
  intros Hcol. revert f.
  induction rs as [|r rs IH]; intros f Hf Hk; cbn [fold_left map].
  - reflexivity.
  - rewrite IH; [| rewrite length_vsub; rewrite ?Hf, ?Hcol; reflexivity | exact Hk].
    rewrite nth_vsub by (rewrite ?Hf, ?Hcol; exact Hk). reflexivity.
Qed.

Lemma nth_map_in {A} (g : A -> F) (l : list A) (k : nat) (d : F) :
  (k < length l)%nat -> exists a, In a l /\ nth k (map g l) d = g a.
Proof.
  revert k. induction l as [|a l IH]; intros [|k] Hk; cbn in *; try lia.
  - exists a. split; [left; reflexivity | reflexivity].
  - destruct (IH k ltac:(lia)) as (b & Hb & ->). exists b.
    split; [right; exact Hb | reflexivity].
Qed.

(** The fill value of one sweep index. *)
Lemma nth_fill_vals (rows : list (row F)) (ind : list F) (k : nat) :
  (k < length ind)%nat ->
  nth k (fill_vals rows ind) zero
  = fold_left (fun a x => a -! x)
      (nth k ind zero
       :: map (fun r => nth k (col_Multiple ind r) zero) (rows_of Multiple rows)
       ++ map (fun r => nth k (col_Fixed ind r) zero) (rows_of Fixed rows))
      one.
Proof.
  intros Hk. unfold fill_vals.
  rewrite (nth_fold_vsub (col_Fixed ind) (length ind) k);
    [ | intros r; apply length_map
      | apply length_fold_vsub;
        [intros r; apply length_map | apply length_map]
      | exact Hk ].
  rewrite (nth_fold_vsub (col_Multiple ind) (length ind) k);
    [ | intros r; apply length_map | apply length_map | exact Hk ].
  cbn [fold_left]. rewrite fold_left_app. f_equal. f_equal.
  unfold fill_start.
  destruct (nth_map_in (fun x => one -! x) ind k zero Hk) as (a & _ & Ha).
  clear Ha. revert k Hk. induction ind as [|x ind IH]; intros [|k] Hk;
    cbn in *; try lia; [reflexivity|]. apply IH. lia.
Qed.

(** A sum over the rows, split by status. *)
Lemma zsum_by_status (g : row F -> Z) (rows : list (row F)) :
  zsum (map g rows)
  = (zsum (map g (rows_of IndVariable rows))
     + zsum (map g (rows_of Multiple rows))
     + zsum (map g (rows_of Fixed rows))
     + zsum (map g (rows_of Fill rows))
     + zsum (map g (rows_of Unset rows)))%Z.
Proof.
  assert (Hc : forall x l, zsum (x :: l) = (x + zsum l)%Z) by reflexivity.
  induction rows as [|r rows IH]; cbn [map].
  - reflexivity.
  - rewrite Hc, IH. unfold rows_of. cbn [List.filter].
    unfold has_status. destruct (Status r); cbn [status_eqb map];
      rewrite ?Hc; lia.
Qed.

Lemma map_rows_of_ext {B} (g g' : row F -> B) (s : status)
    (rows : list (row F)) :
  (forall r, Status r = s -> g r = g' r) ->
  map g (rows_of s rows) = map g' (rows_of s rows).
Proof.
  intros Hg. apply map_ext_in. intros r Hr. apply Hg.
  apply (rows_of_status s rows r Hr).
Qed.

Lemma length_rows_of (rows : list (row F)) :
  existsb (has_status Unset) rows = false ->
  (length rows
   = length (rows_of IndVariable rows) + length (rows_of Multiple rows)
     + length (rows_of Fixed rows) + length (rows_of Fill rows))%nat.
Proof.
  induction rows as [|r rows IH]; cbn [existsb]; [reflexivity|].
  intros HU. apply orb_false_iff in HU as [Hr HU]. specialize (IH HU).
  unfold rows_of in *. cbn [List.filter length]. unfold has_status in *.
  destruct (Status r); cbn [status_eqb length] in *; try discriminate; lia.
Qed.

(** The matrix has one row per sweep value. *)
Lemma length_transpose_comp_list (rows : list (row F)) (ind fill : list F)
    (r : row F) :
  existsb (has_status Unset) rows = false ->
  In r rows -> length fill = length ind ->
  length (transpose (comp_list rows ind fill)) = length ind.
Proof.
  intros HU Hr Hf. unfold transpose. rewrite length_map, length_seq.
  destruct rows as [|r0 rows]; [destruct Hr|].
  cbn [existsb] in HU. apply orb_false_iff in HU as [H0 _].
  unfold comp_list. cbn [map hd]. unfold comp_col, has_status in *.
  destruct (Status r0); cbn in H0; try discriminate;
    unfold col_Multiple, col_Fixed; rewrite ?length_map; auto.
Qed.
End PlannerNth.

Section PlannerFloat.
Local Open Scope Z_scope.

Lemma in_spin_range_sized (x : float) : in_spin_range x = true -> sized 7 x.
Proof.
  unfold in_spin_range. intros Hx. apply andb_true_iff in Hx as [H0 H1].
  apply sized_range; assumption.
Qed.

Lemma grid_in_range_row (rows : list (row float)) (r : row float) :
  grid_in_range rows = true -> In r rows ->
  sized 7 (Multiplier r) /\ sized 7 (Start r)
  /\ sized 7 (Stop r) /\ sized 7 (Step r).
Proof.
  unfold grid_in_range. intros Hg Hr.
  rewrite forallb_forall in Hg. specialize (Hg r Hr). cbn beta in Hg.
  apply andb_true_iff in Hg as [Hg H4]. apply andb_true_iff in Hg as [Hg H3].
  apply andb_true_iff in Hg as [H1 H2].
  split; [|split; [|split]]; apply in_spin_range_sized; assumption.
Qed.

Lemma sized_one : sized 1 1%float.
Proof.
  unfold sized.
  change (Prim2SF 1) with (S754_finite false 4503599627370496 (-52)).
  cbn. lia.
Qed.

Lemma sized_float_of_Z (z : Z) : 0 <= z -> sized 64 (float_of_Z z).
Proof.
  destruct z as [|p|p]; intros Hz; [| |lia].
  - exact I.
  - apply sized_of_uint63.
Qed.

Lemma sized_arange_elem (start step : float) (i : nat) :
  sized 7 start -> sized 7 step -> sized 77 (arange_elem start step i).
Proof.
  intros Hs Ht.
  destruct (sized_add 7 start step Hs Ht ltac:(lia)) as (Hst & Hle & _).
  destruct i as [|[|i]]; cbn [arange_elem].
  - apply (sized_mono 7); [lia | exact Hs].
  - apply (sized_mono (7 + 2)); [lia | exact Hst].
  - cbn [nadd nmul nsub of_Z float_Number].
    destruct (sized_finite 7 start ltac:(lia) Hs) as (Hfs & Hs0 & _).
    assert (Hd : sized 10 (start + step - start)%float)
      by (apply (sized_sub 9); [exact Hst | exact Hfs | lia | lia]).
    assert (Hk : sized 64 (float_of_Z (Z.of_nat (S (S i)))))
      by (apply sized_float_of_Z; lia).
    pose proof (sized_mul 64 10 _ _ Hk Hd ltac:(lia)) as Hm.
    apply (sized_add 75); [|exact Hm|lia].
    apply (sized_mono 7); [lia | exact Hs].
Qed.

(** The values of the independent variable are finite and not
    negative. *)
Lemma sized_sweep_range (r : row float) (ind : list float) :
  sized 7 (Start r) -> sized 7 (Step r) ->
  sweep_range r = RangeOk ind ->
  Forall (sized 77) ind
  /\ exists v, arange (Start r) (Stop r +! one) (Step r) = Some v
               /\ length ind = length v.
Proof.
  intros Hs Ht. unfold sweep_range.
  destruct (_ && _); [|discriminate].
  destruct (arange (Start r) (Stop r +! one) (Step r)) as [v|] eqn:Ea;
    [|discriminate].
  intros [= <-]. split; [|exists v; split; [reflexivity | apply length_map]].
  unfold arange in Ea. destruct (nceil _) as [len|]; [|discriminate].
  injection Ea as <-. rewrite map_map.
  apply List.Forall_forall. intros x Hx. apply in_map_iff in Hx as (i & <- & _).
  apply sized_div_100; [|lia]. apply sized_arange_elem; assumption.
Qed.

Lemma nth_map_const {A} (c : float) (l : list A) (k : nat) :
  (k < length l)%nat -> nth k (map (fun _ => c) l) zero = c.
Proof.
  revert k. induction l as [|a l IH]; intros [|k] Hk; cbn in *; try lia;
    [reflexivity|]. apply IH. lia.
Qed.

Lemma nth_map_mul (m : float) (l : list float) (k : nat) :
  (k < length l)%nat ->
  nth k (map (fun x => x *! m) l) zero = nth k l zero *! m.
Proof.
  revert k. induction l as [|a l IH]; intros [|k] Hk; cbn [length map nth] in *;
    try lia; [reflexivity|]. apply IH. lia.
Qed.

Lemma sized_nth (B : Z) (l : list float) (k : nat) :
  Forall (sized B) l -> (k < length l)%nat -> sized B (nth k l zero).
Proof.
  intros Hl Hk. rewrite List.Forall_forall in Hl. apply Hl, nth_In, Hk.
Qed.

Lemma sized_col_Multiple (ind : list float) (r : row float) (k : nat) :
  Forall (sized 77) ind -> (k < length ind)%nat -> sized 7 (Multiplier r) ->
  sized 85 (nth k (col_Multiple ind r) zero).
Proof.
  intros Hi Hk Hm. unfold col_Multiple. rewrite nth_map_mul by exact Hk.
  apply (sized_mul 77 7); [apply sized_nth; assumption | exact Hm | lia].
Qed.

Lemma sized_col_Fixed (ind : list float) (r : row float) (k : nat) :
  (k < length ind)%nat -> sized 7 (Start r) ->
  sized 9 (nth k (col_Fixed ind r) zero).
Proof.
  intros Hk Hs. unfold col_Fixed. rewrite nth_map_const by exact Hk.
  apply sized_div_100; [|lia].
  apply (sized_mul 1 7); [exact sized_one | exact Hs | lia].
Qed.

Lemma zsum_app (l l' : list Z) : zsum (l ++ l') = zsum l + zsum l'.
Proof.
  induction l as [|x l IH]; [reflexivity|].
  change (zsum ((x :: l) ++ l')) with (x + zsum (l ++ l')).
  change (zsum (x :: l)) with (x + zsum l). lia.
Qed.

(** The entries of one sweep index: they are finite and not negative, and
    they add up to one but for the rounding of the subtractions. *)
Lemma row_sum_float (rows : list (row float)) (ind : list float)
    (ri rf : row float) (k : nat) :
  grid_in_range rows = true ->
  existsb (has_status Unset) rows = false ->
  rows_of IndVariable rows = [ri] ->
  rows_of Fill rows = [rf] ->
  Forall (sized 77) ind ->
  (k < length ind)%nat ->
  (length rows <= 1000)%nat ->
  (nth k (fill_vals rows ind) zero <? 0)%float = false ->
  let entries :=
    map (fun r => nth k (comp_col ind (fill_vals rows ind) r) zero) rows in
  Forall (fun x => is_finite x = true /\ 0 <= fval x) entries
  /\ Z.abs (zsum (map fval entries) - 2 ^ 1074) * 2 ^ 52 <= 1000 * 2 ^ 1074.
Proof.
  intros Hg HU HI HF Hind Hk Hn Hneg entries.
  set (fill := fill_vals rows ind) in *.
  set (x0 := nth k ind zero).
  set (xsM := map (fun r => nth k (col_Multiple ind r) zero)
                  (rows_of Multiple rows)).
  set (xsF := map (fun r => nth k (col_Fixed ind r) zero)
                  (rows_of Fixed rows)).
  assert (Hx0 : sized 77 x0) by (apply sized_nth; assumption).
  assert (HxM : Forall (sized 1000) xsM).
  { apply List.Forall_forall. intros x Hx.
    apply in_map_iff in Hx as (r & <- & Hr).
    apply List.filter_In in Hr as [Hr _].
    destruct (grid_in_range_row rows r Hg Hr) as (Hm & _).
    apply (sized_mono 85); [lia|]. apply sized_col_Multiple; assumption. }
  assert (HxF : Forall (sized 1000) xsF).
  { apply List.Forall_forall. intros x Hx.
    apply in_map_iff in Hx as (r & <- & Hr).
    apply List.filter_In in Hr as [Hr _].
    destruct (grid_in_range_row rows r Hg Hr) as (_ & Hs & _).
    apply (sized_mono 9); [lia|]. apply sized_col_Fixed; assumption. }
  assert (Hxs : Forall (sized 1000) (x0 :: xsM ++ xsF)).
  { constructor; [apply (sized_mono 77); [lia | exact Hx0]|].
    apply Forall_app. split; assumption. }
  assert (Hfill : nth k fill zero
                  = fold_left PrimFloat.sub (x0 :: xsM ++ xsF) 1%float)
    by (exact (nth_fill_vals rows ind k Hk)).
  pose proof (length_rows_of rows HU) as Hlen.
  rewrite HI, HF in Hlen. cbn [length] in Hlen.
  assert (Hl : Z.of_nat (length (x0 :: xsM ++ xsF)) <= 1000).
  { cbn [length]. rewrite length_app. unfold xsM, xsF. rewrite !length_map.
    lia. }
  destruct (sub_chain (x0 :: xsM ++ xsF) 1%float 0 Hxs) as (Hff & Hf0 & Hsum).
  { reflexivity. }
  { rewrite fval_one. apply Z.lt_le_incl, Z.pow_pos_nonneg; lia. }
  { rewrite fval_one. lia. }
  { lia. }
  { change (2 ^ 51) with 2251799813685248. lia. }
  { rewrite <- Hfill. exact Hneg. }
  rewrite <- Hfill in Hff, Hf0, Hsum. rewrite fval_one in Hsum.
  split.
  - (* every entry *)
    apply List.Forall_forall. intros x Hx.
    apply in_map_iff in Hx as (r & <- & Hr).
    destruct (grid_in_range_row rows r Hg Hr) as (Hm & Hs & _).
    unfold comp_col. destruct (Status r) eqn:Es.
    + exfalso. assert (Hex : existsb (has_status Unset) rows = true).
      { apply existsb_exists. exists r. split; [exact Hr|].
        unfold has_status. rewrite Es. reflexivity. }
      rewrite HU in Hex. discriminate.
    + destruct (sized_finite 9 _ ltac:(lia)
                  (sized_col_Fixed ind r k Hk Hs)) as (H1 & H2 & _).
      split; assumption.
    + split; assumption.
    + destruct (sized_finite 77 _ ltac:(lia) Hx0) as (H1 & H2 & _).
      split; assumption.
    + destruct (sized_finite 85 _ ltac:(lia)
                  (sized_col_Multiple ind r k Hind Hk Hm)) as (H1 & H2 & _).
      split; assumption.
  - (* their sum *)
    unfold entries. rewrite map_map.
    rewrite (zsum_by_status
               (fun r => fval (nth k (comp_col ind fill r) zero)) rows).
    rewrite (rows_of_Unset rows HU), HI, HF.
    rewrite (map_rows_of_ext
               (fun r => fval (nth k (comp_col ind fill r) zero))
               (fun r => fval (nth k (col_Multiple ind r) zero)) Multiple)
      by (intros r Hr; unfold comp_col; rewrite Hr; reflexivity).
    rewrite (map_rows_of_ext
               (fun r => fval (nth k (comp_col ind fill r) zero))
               (fun r => fval (nth k (col_Fixed ind r) zero)) Fixed)
      by (intros r Hr; unfold comp_col; rewrite Hr; reflexivity).
    cbn [map]. unfold comp_col.
    rewrite (rows_of_status IndVariable rows ri)
      by (rewrite HI; left; reflexivity).
    rewrite (rows_of_status Fill rows rf) by (rewrite HF; left; reflexivity).
    fold x0.
    change (zsum [fval x0]) with (fval x0 + 0).
    change (zsum [fval (nth k fill zero)]) with (fval (nth k fill zero) + 0).
    change (zsum []) with 0.
    set (n := Z.of_nat (length (x0 :: xsM ++ xsF))) in *.
    change (zsum (map fval (x0 :: xsM ++ xsF)))
      with (fval x0 + zsum (map fval (xsM ++ xsF))) in Hsum.
    rewrite map_app, zsum_app in Hsum. unfold xsM, xsF in Hsum.
    rewrite !map_map in Hsum.
    assert (HU0 : 0 <= 2 ^ 1074) by (apply Z.pow_nonneg; lia).
    set (U := 2 ^ 1074) in *. clearbody U.
    change (2 ^ 52) with 4503599627370496 in *.
    assert (Hn' : n * U <= 1000 * U)
      by (apply Z.mul_le_mono_nonneg_r; assumption).
    clearbody n. lia.
Qed.
End PlannerFloat.


Lemma Qsum_acc (l : list Q) (a : Q) :
  (fold_left Qplus l a == a + fold_left Qplus l 0)%Q.
Proof.
  revert a. induction l as [|x l IH]; intros a; cbn.
  - ring.
  - rewrite IH, (IH (0 + x)%Q). ring.
Qed.

Lemma Qsum_cons (x : Q) (l : list Q) :
  (sum (x :: l) == x + sum l)%Q.
Proof.
  change (sum (x :: l)) with (fold_left Qplus l (0 + x)%Q).
  change (sum l) with (fold_left Qplus l 0%Q).
  rewrite Qsum_acc. ring.
Qed.

Section RowSums.
Local Open Scope Z_scope.

Lemma Qmake_plus (a b : Z) (d : positive) :
  (Qmake a d + Qmake b d == Qmake (a + b) d)%Q.
Proof.
  unfold Qeq, Qplus. cbn [Qnum Qden]. rewrite Pos2Z.inj_mul. ring.
Qed.

(** The exact sum of a list of floats. *)
Lemma Qsum_F2Q (l : list float) :
  (sum (map F2Q l) == Qmake (zsum (map fval l)) (2 ^ 1074)%positive)%Q.
Proof.
  induction l as [|x l IH]; cbn [map].
  - reflexivity.
  - rewrite Qsum_cons, IH, F2Q_fval, Qmake_plus. reflexivity.
Qed.

Lemma F2Q_nonneg (x : float) : 0 <= fval x -> (0 <= F2Q x)%Q.
Proof.
  intros Hx. rewrite F2Q_fval. unfold Qle. cbn [Qnum Qden]. lia.
Qed.

Lemma Qabs_near_one (S : Z) (d : positive) :
  Z.abs (S - Zpos d) * 2 ^ 52 <= 1000 * Zpos d ->
  (Qabs (Qmake S d - 1) <= 1 # 1000000000)%Q.
Proof.
  change (2 ^ 52) with 4503599627370496. intros HS.
  unfold Qle, Qabs, Qminus, Qplus, Qopp. cbn [Qnum Qden].
  rewrite Pos.mul_1_r. lia.
Qed.

Lemma existsb_nth {A} (f : A -> bool) (l : list A) (k : nat) (d : A) :
  existsb f l = false -> (k < length l)%nat -> f (nth k l d) = false.
Proof.
  revert k. induction l as [|a l IH]; intros k Hf Hk; cbn in *; [lia|].
  apply orb_false_iff in Hf as [Ha Hl]. destruct k as [|k]; [exact Ha|].
  apply IH; [exact Hl | lia].
Qed.
End RowSums.

(** C1: in binary64, with every value of the grid in the range of its
    spin box (0 to 101), a matrix that [update_ind_var] stores on the
    experiment has one row for every value of the sweep; every row has
    one entry for every gas row, every entry is finite and not negative,
    and the entries of a row add up to 1 to within 1e-9 (the sum taken
    exactly, of the values that the floats stand for). *)
Theorem composition_rows_sum_to_one
    (form : design_form float) (expt expt' : Experiment float) :
  is_sweep_type (expt_type expt) = true ->
  grid_in_range (comp_sweep_widgets form) = true ->
  (length (comp_sweep_widgets form) <= 1000)%nat ->
  update_ind_var form expt = (Updated, expt') ->
  exists m ri v,
    plan_comp_sweep (comp_sweep_widgets form) = PStored m
    /\ attrs expt' !! ind_var expt = Some (Mat m)
    /\ rows_of IndVariable (comp_sweep_widgets form) = [ri]
    /\ arange (Start ri) (Stop ri + 1)%float (Step ri) = Some v
    /\ length m = length v
    /\ Forall (fun row =>
                 length row = length (comp_sweep_widgets form)
                 /\ Forall (fun x => is_finite x = true /\ (0 <= F2Q x)%Q) row
                 /\ (Qabs (sum (map F2Q row) - 1) <= 1 # 1000000000)%Q) m.
Proof.
  intros Ht Hg Hn Hu. unfold update_ind_var in Hu. rewrite Ht in Hu.
  set (rows := comp_sweep_widgets form) in *.
  destruct (plan_comp_sweep rows) as [| | | e | m] eqn:Hp; try discriminate.
  injection Hu as <-.
  destruct (plan_stored _ _ Hp)
    as (r & rest & ind & HU & HF & HI & HR & Hs & Hneg & ->).
  unfold row_count in HF, HI.
  destruct (length_one _ HF) as [rf HF'].
  destruct (length_one _ HI) as [ri HI'].
  assert (Hri : r = ri) by congruence. subst r.
  assert (Hin : In ri rows).
  { assert (Hin' : In ri (rows_of IndVariable rows))
      by (rewrite HI'; left; reflexivity).
    apply List.filter_In in Hin' as [Hin' _]. exact Hin'. }
  destruct (grid_in_range_row rows ri Hg Hin) as (_ & Hst & _ & Hsp).
  destruct (sized_sweep_range ri ind Hst Hsp Hs) as (Hind & v & Hv & Hlen).
  exists (transpose (comp_list rows ind (fill_vals rows ind))), ri, v.
  split; [reflexivity|]. split; [apply lookup_insert_eq|].
  split; [exact HI'|]. split; [exact Hv|].
  split.
  { rewrite <- Hlen.
    apply (length_transpose_comp_list rows ind _ ri HU Hin),
      length_fill_vals. }
  apply List.Forall_forall. intros row Hrow.
  apply transpose_rows in Hrow as (k & Hk & ->).
  assert (Hk' : (k < length ind)%nat).
  { eapply Nat.lt_le_trans; [exact Hk|].
    apply length_hd_comp_list, length_fill_vals. }
  unfold comp_list. rewrite map_map. split; [apply length_map|].
  assert (Hnk : (nth k (fill_vals rows ind) zero <? 0)%float = false).
  { refine (existsb_nth (fun x : float => x <?! zero)
                          (fill_vals rows ind) k zero Hneg _).
    rewrite length_fill_vals. exact Hk'. }
  destruct (row_sum_float rows ind ri rf k Hg HU HI' HF' Hind Hk' Hn Hnk)
    as [Hall Hsum].
  split.
  - eapply List.Forall_impl; [|exact Hall]. intros x [Hf H0].
    split; [exact Hf | apply F2Q_nonneg, H0].
  - rewrite Qsum_F2Q. apply Qabs_near_one.
    rewrite Pos2Z.inj_pow. exact Hsum.
Qed.

Lemma composition_rows_sum_to_one_witness :
  exists m ri v,
    plan_comp_sweep (F:=float) demo_rows = PStored m
    /\ attrs (snd (update_ind_var (form_of demo_rows) demo_expt))
         !! "gas_comp"%string = Some (Mat m)
    /\ rows_of IndVariable (F:=float) demo_rows = [ri]
    /\ arange (Start ri) (Stop ri + 1)%float (Step ri) = Some v
    /\ length m = length v
    /\ Forall (fun row =>
                 length row = 4%nat
                 /\ Forall (fun x => is_finite x = true /\ (0 <= F2Q x)%Q) row
                 /\ (Qabs (sum (map F2Q row) - 1) <= 1 # 1000000000)%Q) m.
Proof.
  apply (composition_rows_sum_to_one (form_of demo_rows) demo_expt
           (snd (update_ind_var (form_of demo_rows) demo_expt))).
  - reflexivity.
  - vm_compute. reflexivity.
  - cbn. lia.
  - vm_compute. reflexivity.
Defined.

(** The same sweep in binary64: the three rows, and the distance of their
    sums from 1. *)
Example composition_rows_float :
  plan_comp_sweep (F:=float) demo_rows
  = PStored [ [0; 0; 0.20000000000000001; 0.80000000000000004];
              [0.050000000000000003; 0.10000000000000001;
               0.20000000000000001; 0.64999999999999991];
              [0.10000000000000001; 0.20000000000000001;
               0.20000000000000001; 0.49999999999999994] ]%float
  /\ match plan_comp_sweep (F:=float) demo_rows with
     | PStored m =>
         forallb (fun row =>
                    PrimFloat.ltb (PrimFloat.abs (sum row - 1)) 1e-9) m
     | _ => false
     end = true.
Proof. vm_compute. split; reflexivity. Qed.

(** C2: when the fill vector the planner has computed is negative at some
    sweep index, [update_ind_var] clears the plot and returns; the
    experiment is left as it was and no matrix is produced. *)
Theorem negative_fill_rejected {F : Type} `{Number F}
    (form : design_form F) (expt : Experiment F) (fill : list F) :
  is_sweep_type (expt_type expt) = true ->
  computed_fill (comp_sweep_widgets form) = Some fill ->
  any_negative fill = true ->
  update_ind_var form expt = (Cleared, expt)
  /\ plan_comp_sweep (comp_sweep_widgets form) = PCleared.
Proof.
  intros Ht Hf Hn. unfold update_ind_var. rewrite Ht.
  rewrite (computed_fill_plan _ _ Hf), Hn. split; reflexivity.
Qed.

Lemma negative_fill_rejected_witness :
  computed_fill (F:=float) overflow_rows
  = Some [0.050000000000000044; 0; -0.049999999999999933]%float
  /\ update_ind_var (form_of overflow_rows) demo_expt
     = (Cleared, demo_expt (F:=float)).
Proof.
  split; [vm_compute; reflexivity|].
  apply (negative_fill_rejected (form_of overflow_rows) demo_expt
           [0.050000000000000044; 0; -0.049999999999999933]%float).
  - reflexivity.
  - vm_compute. reflexivity.
  - vm_compute. reflexivity.
Defined.

(** Conversely, a matrix is stored only after the fill vector has passed
    the test. *)
Lemma stored_fill_not_negative {F : Type} `{Number F}
    (rows : list (row F)) (m : list (list F)) :
  plan_comp_sweep rows = PStored m ->
  exists fill, computed_fill rows = Some fill /\ any_negative fill = false.
Proof.
  intros Hp. destruct (plan_stored rows m Hp)
    as (r & rest & ind & HU & HF & HI & HR & HS & HN & _).
  exists (fill_vals rows ind). split; [|exact HN].
  unfold computed_fill. rewrite HU, HF, HI, HR, HS. reflexivity.
Qed.

(** C5, as the code has it.  When the planner reaches the row [r] of the
    independent variable: it rejects the sweep when [stop + 1 > start] or
    [step > 0] fails; and when it stores a matrix, the independent
    variable is [arange(start, stop + 1, step) / 100], the fill vector
    starts from [1 - ind_var], and the subtractions of the 'Multiple' and
    then the 'Fixed' rows follow. *)
Theorem ind_var_range {F : Type} `{Number F}
    (rows : list (row F)) (r : row F) (rest : list (row F)) :
  existsb (has_status Unset) rows = false ->
  row_count Fill rows = 1%nat ->
  row_count IndVariable rows = 1%nat ->
  rows_of IndVariable rows = r :: rest ->
  ((Start r <?! Stop r +! one) && (zero <?! Step r) = false ->
   plan_comp_sweep rows = PRangeRejected)
  /\ (forall m, plan_comp_sweep rows = PStored m ->
      exists v,
        arange (Start r) (Stop r +! one) (Step r) = Some v
        /\ let ind := map (fun x => x /! hundred) v in
           comp_col ind (fill_vals rows ind) r = ind
           /\ fill_vals rows ind
              = fold_left (fun f r => vsub f (col_Fixed ind r))
                  (rows_of Fixed rows)
                  (fold_left (fun f r => vsub f (col_Multiple ind r))
                     (rows_of Multiple rows)
                     (map (fun x => one -! x) ind))
           /\ m = transpose (comp_list rows ind (fill_vals rows ind))).
Proof.
  intros HU HF HI HR. split.
  - intros Hbad. unfold plan_comp_sweep.
    rewrite HU, HF, HI, HR. cbn [Nat.eqb negb orb].
    unfold sweep_range. rewrite Hbad. reflexivity.
  - intros m Hp. destruct (plan_stored rows m Hp)
      as (r' & rest' & ind & _ & _ & _ & HR' & HS & _ & ->).
    rewrite HR in HR'. injection HR' as <- <-.
    unfold sweep_range in HS.
    destruct ((Start r <?! Stop r +! one) && (zero <?! Step r));
      [|discriminate].
    destruct (arange (Start r) (Stop r +! one) (Step r)) as [v|];
      [|discriminate].
    injection HS as <-. exists v. split; [reflexivity|]. cbn zeta.
    split; [|split; reflexivity].
    unfold comp_col.
    rewrite (rows_of_status IndVariable rows r)
      by (rewrite HR; left; reflexivity).
    reflexivity.
Qed.

Lemma ind_var_range_witness :
  exists v,
    arange 0%float (10 + 1)%float 5%float = Some v
    /\ plan_comp_sweep (F:=float) demo_rows
       = PStored (transpose
                    (comp_list demo_rows (map (fun x => x / 100)%float v)
                       (fill_vals demo_rows
                          (map (fun x => x / 100)%float v)))).
Proof.
  destruct (ind_var_range (F:=float) demo_rows
              (Row 0%float IndVariable 0%float 10%float 5%float) [])
    as [_ Hacc].
  - reflexivity.
  - reflexivity.
  - reflexivity.
  - reflexivity.
  - pose (m0 := match plan_comp_sweep (F:=float) demo_rows with
                | PStored m => m
                | _ => []
                end).
    assert (Hp : plan_comp_sweep (F:=float) demo_rows = PStored m0)
      by (vm_compute; reflexivity).
    destruct (Hacc m0 Hp) as (v & Hv & _ & _ & Hm).
    exists v. split; [exact Hv|]. rewrite Hp, Hm. reflexivity.
Defined.

(** C5 as stated fails twice.  For a sweep from 0 to 10 in steps of 3 the
    code stops at 9, where [arange(start, stop + step, step)] goes on to
    12; and a sweep whose stop equals its start is accepted. *)
Lemma ind_var_differs_from_spec :
  let r := Row 0%float IndVariable 0%float 10%float 3%float in
  (sweep_range r
   = RangeOk [0; 0.029999999999999999; 0.059999999999999998;
              0.089999999999999997]%float
   /\ spec_ind_var r
      = Some [0; 0.029999999999999999; 0.059999999999999998;
              0.089999999999999997; 0.12]%float
   /\ plan_comp_sweep (F:=float) (range_rows 0 10 3)
      = PStored [ [0; 0.10000000000000001; 0; 0.90000000000000002];
                  [0.029999999999999999; 0.10000000000000001; 0; 0.87];
                  [0.059999999999999998; 0.10000000000000001; 0;
                   0.83999999999999997];
                  [0.089999999999999997; 0.10000000000000001; 0;
                   0.81000000000000005] ]%float)
  /\ (PrimFloat.leb 5 5 = true
      /\ plan_comp_sweep (F:=float) (range_rows 5 5 1)
         = PStored [ [0.050000000000000003; 0.10000000000000001; 0;
                      0.84999999999999998] ]%float).
Proof. vm_compute. repeat split; reflexivity. Qed.

(** ** The calibration fit *)

Section CalibrationFacts.
Context {F : Type} `{Number F}.
Variable polyfit : list F -> list F -> list F -> polyfit_result F.
Variable tiny : F.

(** A fit that fails leaves the four local variables as the last
    successful fit set them, and the assignment after the [try] statement
    writes them into the row of the chemical at hand; with no earlier fit
    the assignment reads unbound names. *)
Lemma fit_chemical_singular (force_zero : bool) (calgas_flow : list F)
    (avg std : string -> list F) (vars : option (F * F * F * F))
    (t : list (string * cal_entry F)) (chemical : string) (ppm_c : F) :
  (let '(x, y, e) :=
     fit_data tiny force_zero (map (fun f => ppm_c *! f) calgas_flow)
              (avg chemical) (std chemical) in
   polyfit x y (map (fun e => one /! e) e)) = LinAlgError ->
  fit_chemical polyfit tiny force_zero calgas_flow avg std (vars, t)
               (chemical, ppm_c)
  = match vars with
    | Some v => inr (vars, loc_set t chemical v)
    | None => inl UnboundLocalError
    end.
Proof.
  unfold fit_chemical. cbn [fst snd].
  destruct (fit_data tiny force_zero _ _ _) as [[x y] e].
  intros ->. destruct vars; reflexivity.
Qed.
End CalibrationFacts.

(** C7 on the code, on three chemicals whose counts lie on the lines
    [2 ppm + 5], [3 ppm + 7] and [4 ppm + 1].  When the fit of the second
    chemical is singular, its row receives the slope and intercept fitted
    for the first; when the fit of the first is singular, the whole
    calibration ends in [UnboundLocalError] and no table is written. *)
Theorem singular_fit_not_isolated :
  let tiny := (1 # 10000000000000000000)%Q in
  analyze_cal_data demo_polyfit tiny demo_calDF (demo_avg "") demo_std
                   demo_flows false
  = inr [ ("CH4"%string, CalEntry 100 (Some 2) (Some 0) (Some 5) (Some 0));
          ("C2H4"%string, CalEntry 200 (Some 3) (Some 0) (Some 7) (Some 0));
          ("C2H6"%string, CalEntry 300 (Some 4) (Some 0) (Some 1) (Some 0)) ]%Q
  /\ analyze_cal_data demo_polyfit tiny demo_calDF (demo_avg "C2H4") demo_std
                      demo_flows false
     = inr [ ("CH4"%string, CalEntry 100 (Some 2) (Some 0) (Some 5) (Some 0));
             ("C2H4"%string, CalEntry 200 (Some 2) (Some 0) (Some 5) (Some 0));
             ("C2H6"%string, CalEntry 300 (Some 4) (Some 0) (Some 1) (Some 0)) ]%Q
  /\ analyze_cal_data demo_polyfit tiny demo_calDF (demo_avg "CH4") demo_std
                      demo_flows false
     = inl UnboundLocalError.
Proof. vm_compute. repeat split; reflexivity. Qed.

(** With fewer than three chemicals the size of the plot grid divides by
    zero before any fit. *)
Example analyze_cal_data_two_chemicals :
  analyze_cal_data demo_polyfit (1 # 10000000000000000000)%Q
                   (firstn 2 demo_calDF) (demo_avg "") demo_std
                   demo_flows false
  = inl ZeroDivisionError.
Proof. reflexivity. Qed.

(** ** The study runner *)












(** * Further properties *)

(** ** [update_ind_var]: what it leaves alone *)

(** X1.  [update_ind_var] writes at most the attribute named by [expt.ind_var]:
    the type of the experiment, the name of its independent variable and
    every other attribute stay, and unless the call ends in
    [update_plot(expt)] the experiment is exactly as before. *)
Theorem update_ind_var_frame {F : Type} `{Number F}
    (form : design_form F) (expt : Experiment F) :
  expt_type (snd (update_ind_var form expt)) = expt_type expt
  /\ ind_var (snd (update_ind_var form expt)) = ind_var expt
  /\ (forall name, name <> ind_var expt ->
        attrs (snd (update_ind_var form expt)) !! name = attrs expt !! name)
  /\ (fst (update_ind_var form expt) <> Updated ->
        snd (update_ind_var form expt) = expt).
Proof.
  unfold update_ind_var.
  destruct (is_sweep_type (expt_type expt)).
  - destruct (plan_comp_sweep (comp_sweep_widgets form)); cbn;
      repeat split; try congruence.
    intros name Hn. apply lookup_insert_ne. congruence.
  - destruct ((IndVar_start form <?! IndVar_stop form)
              && (zero <?! IndVar_step form)
              && negb (String.eqb (expt_type expt) "stability_test")).
    + destruct (arange _ _ _); cbn; repeat split; try congruence.
      intros name Hn. apply lookup_insert_ne. congruence.
    + destruct (String.eqb (expt_type expt) "stability_test"); cbn;
        repeat split; congruence.
Qed.


(** ** The shape of the composition matrix *)

(** X3.  A composition matrix that the planner stores has one row for every
    value of [np.arange(start, stop + 1, step)], read from the row of the
    independent variable, and every row has one entry for every gas
    row. *)
Theorem stored_matrix_shape {F : Type} `{Number F}
    (rows : list (row F)) (m : list (list F)) :
  plan_comp_sweep rows = PStored m ->
  exists r v,
    rows_of IndVariable rows = [r]
    /\ arange (Start r) (Stop r +! one) (Step r) = Some v
    /\ length m = length v
    /\ Forall (fun row => length row = length rows) m.
Proof.
  intros Hp.
  destruct (plan_stored _ _ Hp)
    as (r & rest & ind & HU & _ & HI & HR & Hs & _ & ->).
  unfold row_count in HI. destruct (length_one _ HI) as [ri HI'].
  assert (Hri : r = ri) by congruence. subst r.
  assert (Hin : In ri rows).
  { assert (Hin' : In ri (rows_of IndVariable rows))
      by (rewrite HI'; left; reflexivity).
    apply List.filter_In in Hin' as [Hin' _]. exact Hin'. }
  unfold sweep_range in Hs. destruct (_ && _); [|discriminate].
  destruct (arange (Start ri) (Stop ri +! one) (Step ri)) as [v|] eqn:Ev;
    [|discriminate].
  injection Hs as <-. exists ri, v.
  split; [exact HI'|]. split; [exact Ev|]. split.
  - rewrite (length_transpose_comp_list rows _ _ ri HU Hin)
      by apply length_fill_vals.
    apply length_map.
  - apply List.Forall_forall. intros row Hrow.
    apply transpose_rows in Hrow as (k & _ & ->).
    unfold comp_list. rewrite !length_map. reflexivity.
Qed.

Lemma stored_matrix_shape_witness :
  exists m r v,
    plan_comp_sweep (F:=float) demo_rows = PStored m
    /\ rows_of IndVariable (F:=float) demo_rows = [r]
    /\ arange (Start r) (Stop r + 1)%float (Step r) = Some v
    /\ length m = length v
    /\ length v = 3%nat
    /\ Forall (fun row => length row = 4%nat) m.
Proof.
  pose (m0 := match plan_comp_sweep (F:=float) demo_rows with
              | PStored m => m
              | _ => []
              end).
  assert (Hp : plan_comp_sweep (F:=float) demo_rows = PStored m0)
    by (vm_compute; reflexivity).
  destruct (stored_matrix_shape demo_rows m0 Hp) as (r & v & Hr & Hv & Hl & Hall).
  exists m0, r, v. split; [exact Hp|]. split; [exact Hr|].
  split; [exact Hv|]. split; [exact Hl|]. split; [|exact Hall].
  rewrite <- Hl. vm_compute. reflexivity.
Defined.

(** ** The gas system with a driver that works *)

Create HintDb works.

Section Runs.
Context {F : Type} `{Number F}.

Local Abbreviation GS := (Gas_System F).

Lemma issue_run (s : GS) (c : channel) (cmd : command F) :
  works s ->
  issue c cmd s = (Returned (apply_cmd cmd (mfc c s)), after c cmd s).
Proof.
  intros Hok. unfold issue. rewrite (Hok (length (log s))).
  destruct c; reflexivity.
Qed.

Lemma works_after (s : GS) (c : channel) (cmd : command F) :
  works s -> works (after c cmd s).
Proof. intros Hok n. destruct c; apply Hok. Qed.

Lemma works_with_busy (s : GS) (b : bool) : works s -> works (with_busy b s).
Proof. intros Hok n. apply Hok. Qed.

Lemma set_busy_run (s : GS) (b : bool) :
  set_busy b s = (Returned tt, with_busy b s).
Proof. reflexivity. Qed.

Lemma wait_idle_run (s : GS) :
  is_busy s = false -> wait_idle s = (Returned tt, s).
Proof. unfold wait_idle. intros ->. reflexivity. Qed.

Lemma bind_run {S A B} (m : M S A) (k : A -> M S B) (s s' : S) (a : A) :
  m s = (Returned a, s') -> bind m k s = k a s'.
Proof. unfold bind. intros ->. reflexivity. Qed.

Lemma bind_raise {S A B} (m : M S A) (k : A -> M S B) (s s' : S) (e : exn) :
  m s = (Raised e, s') -> bind m k s = (Raised e, s').
Proof. unfold bind. intros ->. reflexivity. Qed.

Lemma bind_spin {S A B} (m : M S A) (k : A -> M S B) (s s' : S) :
  m s = (Spins, s') -> bind m k s = (Spins, s').
Proof. unfold bind. intros ->. reflexivity. Qed.

End Runs.

#[local] Hint Resolve works_after works_with_busy : works.

(** Runs the next driver call of the goal. *)
Ltac step_issue :=
  match goal with
  | |- context [bind (issue ?c ?cmd) ?k ?s] =>
      rewrite (bind_run (issue c cmd) k s _ _
                 (issue_run s c cmd ltac:(auto 20 with works)))
  end.

Section Working.
Context {F : Type} `{Number F}.

Local Abbreviation GS := (Gas_System F).

(** One turn of the loop of [shut_down]. *)
Lemma shut_down_one_run (s : GS) (c : channel) :
  works s ->
  shut_down_one c s
  = (Returned tt,
     after c (SetFlowRate (if is_inert (gas (mfc c s)) then one else zero))
           (after c Get s)).
Proof.
  intros Hok. unfold shut_down_one.
  rewrite (bind_run _ _ _ _ _ (issue_run s c Get Hok)).
  assert (Hg : gas (apply_cmd Get (mfc c s)) = gas (mfc c s)) by reflexivity.
  rewrite Hg.
  destruct (is_inert (gas (mfc c s)));
    rewrite (bind_run _ _ _ _ _ (issue_run _ c _ (works_after s c Get Hok)));
    reflexivity.
Qed.

Lemma works_shut_down_one (s : GS) (c : channel) :
  works s -> works (snd (shut_down_one c s)).
Proof.
  intros Hok. rewrite (shut_down_one_run s c Hok). cbn [snd].
  auto with works.
Qed.

Lemma shut_down_run (s : GS) :
  is_busy s = false ->
  works s ->
  exists s1,
    shut_down s = (Returned tt, s1)
    /\ devices s1
       = [safe_flow (mfc_A s); safe_flow (mfc_B s); safe_flow (mfc_C s);
          safe_flow (mfc_D s); mfc_E s]
    /\ is_busy s1 = false
    /\ heap s1 = heap s
    /\ hw_ok s1 = hw_ok s
    /\ (length (log s) <= length (log s1))%nat
    /\ map ev_chan (issued s s1)
       = [ChA; ChA; ChB; ChB; ChC; ChC; ChD; ChD].
Proof.
  intros Hi Hok. unfold shut_down.
  rewrite (bind_run _ _ _ _ _ (wait_idle_run s Hi)).
  rewrite (bind_run _ _ _ _ _ (set_busy_run s true)).
  assert (H0 : works (with_busy true s)) by auto with works.
  rewrite (bind_run _ _ _ _ _ (shut_down_one_run _ ChA H0)).
  pose proof (works_shut_down_one _ ChA H0) as H1.
  rewrite (shut_down_one_run _ ChA H0) in H1. cbn [snd] in H1.
  rewrite (bind_run _ _ _ _ _ (shut_down_one_run _ ChB H1)).
  pose proof (works_shut_down_one _ ChB H1) as H2.
  rewrite (shut_down_one_run _ ChB H1) in H2. cbn [snd] in H2.
  rewrite (bind_run _ _ _ _ _ (shut_down_one_run _ ChC H2)).
  pose proof (works_shut_down_one _ ChC H2) as H3.
  rewrite (shut_down_one_run _ ChC H2) in H3. cbn [snd] in H3.
  rewrite (bind_run _ _ _ _ _ (shut_down_one_run _ ChD H3)).
  rewrite set_busy_run. eexists. split; [reflexivity|].
  split; [reflexivity|]. split; [reflexivity|].
  split; [reflexivity|]. split; [reflexivity|].
  split; [cbn; rewrite !length_app; lia|].
  unfold issued. cbn. rewrite <- !app_assoc.
  rewrite skipn_app, skipn_all, Nat.sub_diag. reflexivity.
Qed.

(** X14.  [shut_down] on an idle bank: every controller is read and then set to
    1 sccm when it carries argon or nitrogen and to 0 otherwise; the gases,
    channel E and the store stay, and the flag is clear again. *)
Theorem shut_down_safe_state (s : GS) :
  is_busy s = false ->
  works s ->
  fst (shut_down s) = Returned tt
  /\ devices (snd (shut_down s))
     = [safe_flow (mfc_A s); safe_flow (mfc_B s); safe_flow (mfc_C s);
        safe_flow (mfc_D s); mfc_E s]
  /\ is_busy (snd (shut_down s)) = false
  /\ heap (snd (shut_down s)) = heap s
  /\ hw_ok (snd (shut_down s)) = hw_ok s
  /\ map ev_chan (issued s (snd (shut_down s)))
     = [ChA; ChA; ChB; ChB; ChC; ChC; ChD; ChD].
Proof.
  intros Hi Hok.
  destruct (shut_down_run s Hi Hok)
    as (s1 & -> & Hd & Hb & Hh & Hw & _ & Hc).
  cbn [fst snd]. repeat split; assumption.
Qed.

(** X15.  [shut_down] is idempotent on the devices: a second call returns and
    leaves every device as the first call left it. *)
Theorem shut_down_idempotent (s : GS) :
  is_busy s = false ->
  works s ->
  fst (shut_down (snd (shut_down s))) = Returned tt
  /\ devices (snd (shut_down (snd (shut_down s))))
     = devices (snd (shut_down s)).
Proof.
  intros Hi Hok.
  destruct (shut_down_run s Hi Hok)
    as (s1 & -> & Hd & Hb & _ & Hw & _).
  cbn [snd].
  assert (Hok' : works s1) by (intros n; rewrite Hw; apply Hok).
  destruct (shut_down_run s1 Hb Hok') as (s2 & -> & Hd2 & _).
  cbn [fst snd]. split; [reflexivity|]. rewrite Hd2, Hd.
  unfold devices in Hd. injection Hd as HA HB HC HD HE.
  rewrite HA, HB, HC, HD, HE. reflexivity.
Qed.



Lemma set_gasses_sets_run (s : GS) (g0 g1 g2 g3 : gas_sel)
    (rest : list gas_sel) :
  is_busy s = false ->
  works s ->
  exists s1,
    set_gasses (g0 :: g1 :: g2 :: g3 :: rest) s = (Returned tt, s1)
    /\ devices s1
       = [Mfc g0 (mass_flow (mfc_A s)); Mfc g1 (mass_flow (mfc_B s));
          Mfc g2 (mass_flow (mfc_C s)); Mfc g3 (mass_flow (mfc_D s));
          mfc_E s]
    /\ is_busy s1 = false
    /\ heap s1 = heap s
    /\ hw_ok s1 = hw_ok s
    /\ (length (log s) <= length (log s1))%nat
    /\ commands (issued s s1)
       = [(ChA, SetGas g0); (ChB, SetGas g1); (ChC, SetGas g2);
          (ChD, SetGas g3)].
Proof.
  intros Hi Hok. unfold set_gasses.
  rewrite (bind_run _ _ _ _ _ (wait_idle_run s Hi)).
  rewrite (bind_run _ _ _ _ _ (set_busy_run s true)).
  cbn [getitem nth_error].
  rewrite (bind_run (ret g0) _ _ _ _ eq_refl).
  step_issue.
  rewrite (bind_run (ret g1) _ _ _ _ eq_refl).
  step_issue.
  rewrite (bind_run (ret g2) _ _ _ _ eq_refl).
  step_issue.
  rewrite (bind_run (ret g3) _ _ _ _ eq_refl).
  step_issue.
  rewrite set_busy_run. eexists. split; [reflexivity|].
  repeat (split; [reflexivity|]).
  split; [cbn; rewrite !length_app; lia|].
  unfold issued. cbn. rewrite <- !app_assoc.
  rewrite skipn_app, skipn_all, Nat.sub_diag. reflexivity.
Qed.

(** X7.  [set_gasses] on an idle bank with a list of at least four gases: the
    controllers A to D take the first four, in this order; the flows,
    channel E and the store stay; further entries are ignored. *)
Theorem set_gasses_sets (s : GS) (g0 g1 g2 g3 : gas_sel)
    (rest : list gas_sel) :
  is_busy s = false ->
  works s ->
  fst (set_gasses (g0 :: g1 :: g2 :: g3 :: rest) s) = Returned tt
  /\ devices (snd (set_gasses (g0 :: g1 :: g2 :: g3 :: rest) s))
     = [Mfc g0 (mass_flow (mfc_A s)); Mfc g1 (mass_flow (mfc_B s));
        Mfc g2 (mass_flow (mfc_C s)); Mfc g3 (mass_flow (mfc_D s));
        mfc_E s]
  /\ is_busy (snd (set_gasses (g0 :: g1 :: g2 :: g3 :: rest) s)) = false
  /\ heap (snd (set_gasses (g0 :: g1 :: g2 :: g3 :: rest) s)) = heap s
  /\ commands (issued s (snd (set_gasses (g0 :: g1 :: g2 :: g3 :: rest) s)))
     = [(ChA, SetGas g0); (ChB, SetGas g1); (ChC, SetGas g2);
        (ChD, SetGas g3)].
Proof.
  intros Hi Hok.
  destruct (set_gasses_sets_run s g0 g1 g2 g3 rest Hi Hok)
    as (s1 & -> & Hd & Hb & Hh & _ & _ & Hc).
  cbn [fst snd]. repeat split; assumption.
Qed.


(** X8.  [set_gasses] with fewer than four gases raises [IndexError] at the
    first missing entry: the controllers before it have been set, and the
    flag stays set. *)
Theorem set_gasses_short (s : GS) (gas_list : list gas_sel) :
  (length gas_list < 4)%nat ->
  is_busy s = false ->
  works s ->
  fst (set_gasses gas_list s) = Raised IndexError
  /\ is_busy (snd (set_gasses gas_list s)) = true
  /\ commands (issued s (snd (set_gasses gas_list s)))
     = combine [ChA; ChB; ChC; ChD] (map SetGas gas_list).
Proof.
  intros Hlen Hi Hok. unfold set_gasses.
  rewrite (bind_run _ _ _ _ _ (wait_idle_run s Hi)).
  rewrite (bind_run _ _ _ _ _ (set_busy_run s true)).
  destruct gas_list as [|g0 [|g1 [|g2 [|g3 rest]]]]; cbn in Hlen; try lia;
    cbn [getitem nth_error];
    repeat first
      [ rewrite (bind_raise (raise IndexError) _ _ _ _ eq_refl)
      | rewrite (bind_run (ret _) _ _ _ _ eq_refl)
      | step_issue ];
    cbn [fst snd]; (split; [reflexivity|]); (split; [reflexivity|]);
    unfold issued; cbn; rewrite <- ?app_assoc;
    rewrite ?skipn_app, ?skipn_all, ?Nat.sub_diag; reflexivity.
Qed.

End Working.

(** Witnesses for the statements above. *)

Lemma shut_down_safe_state_witness :
  let s := at_rest ["Ar"; "H2"; "N2"; "O2"]%string [1; 0; 0; 0]%float in
  fst (shut_down s) = Returned tt
  /\ map mass_flow (devices (snd (shut_down s)))
     = [1; 0; 1; 0; 0]%float.
Proof.
  destruct (shut_down_safe_state
              (at_rest ["Ar"; "H2"; "N2"; "O2"]%string [1; 0; 0; 0]%float))
    as (Hr & Hd & _).
  - reflexivity.
  - intros n. reflexivity.
  - split; [exact Hr|]. rewrite Hd. reflexivity.
Defined.

Lemma shut_down_idempotent_witness :
  let s := at_rest ["Ar"; "H2"; "N2"; "O2"]%string [1; 0; 0; 0]%float in
  devices (snd (shut_down (snd (shut_down s))))
  = devices (snd (shut_down s)).
Proof.
  apply (shut_down_idempotent
           (at_rest ["Ar"; "H2"; "N2"; "O2"]%string [1; 0; 0; 0]%float)).
  - reflexivity.
  - intros n. reflexivity.
Defined.

Lemma set_gasses_sets_witness :
  let s := at_rest ["Ar"; "Ar"; "Ar"; "Ar"]%string [1; 0; 0; 0]%float in
  map gas (devices (snd (set_gasses [GasName "H2"; GasName "N2";
                                     GasName "O2"; GasName "CO2"] s)))
  = [GasName "H2"; GasName "N2"; GasName "O2"; GasName "CO2"; GasName "Ar"].
Proof.
  destruct (set_gasses_sets
              (at_rest ["Ar"; "Ar"; "Ar"; "Ar"]%string [1; 0; 0; 0]%float)
              (GasName "H2") (GasName "N2") (GasName "O2") (GasName "CO2") [])
    as (_ & Hd & _).
  - reflexivity.
  - intros n. reflexivity.
  - cbn zeta. rewrite Hd. reflexivity.
Defined.

Lemma set_gasses_short_witness :
  let s := at_rest ["Ar"; "Ar"; "Ar"; "Ar"]%string [1; 0; 0; 0]%float in
  fst (set_gasses [GasName "H2"; GasName "N2"] s) = Raised IndexError
  /\ is_busy (snd (set_gasses [GasName "H2"; GasName "N2"] s)) = true.
Proof.
  destruct (set_gasses_short
              (at_rest ["Ar"; "Ar"; "Ar"; "Ar"]%string [1; 0; 0; 0]%float)
              [GasName "H2"; GasName "N2"]) as (Hr & Hb & _).
  - cbn. lia.
  - reflexivity.
  - intros n. reflexivity.
  - split; [exact Hr | exact Hb].
Defined.

(** ** Channel E and the flows *)

Section Mixture.
Context {F : Type} `{Number F}.

Local Abbreviation GS := (Gas_System F).










End Mixture.




(** ** Failures, a flag left set, and the operations that only read *)

Section Failure.
Context {F : Type} `{Number F}.

Local Abbreviation GS := (Gas_System F).

(** A step between setting and clearing the flag: it keeps the flag set
    and never spins. *)
Local Abbreviation stays m :=
  (hoare (fun s : GS => is_busy s = true) m
         (fun o s => is_busy s = true /\ o <> Spins)).

(** The rest of a bracket, up to and beyond [self.is_busy = False]. *)
Local Abbreviation ends m :=
  (hoare (fun s : GS => is_busy s = true) m (flag_after (F:=F))).

(** An operation that starts with the flag clear. *)
Local Abbreviation starts m :=
  (hoare (fun s : GS => is_busy s = false) m (flag_after (F:=F))).

Lemma stays_issue (c : channel) (cmd : command F) : stays (issue c cmd).
Proof.
  intros s Hb. unfold issue.
  destruct (hw_ok s (length (log s))); cbn.
  - split; [destruct c; exact Hb | discriminate].
  - split; [exact Hb | discriminate].
Qed.

Lemma stays_ret {A} (a : A) : stays (ret a).
Proof. intros s Hb. split; [exact Hb | discriminate]. Qed.

Lemma stays_getitem {A} (l : list A) (i : nat) : stays (getitem l i).
Proof.
  intros s Hb. unfold getitem.
  destruct (nth_error l i); cbn; (split; [exact Hb | discriminate]).
Qed.

Lemma stays_load (r : loc) : stays (load r).
Proof.
  intros s Hb. unfold load.
  destruct (heap s !! r); cbn; (split; [exact Hb | discriminate]).
Qed.

Lemma stays_bind {A B} (m : M GS A) (k : A -> M GS B) :
  stays m -> (forall a, stays (k a)) -> stays (bind m k).
Proof.
  intros Hm Hk s Hb. specialize (Hm s Hb). unfold bind.
  destruct (m s) as [[a|e|] s']; cbn in *.
  - apply Hk. apply Hm.
  - split; [apply Hm | discriminate].
  - destruct Hm as [_ Hn]. congruence.
Qed.

Lemma stays_if {A} (b : bool) (m1 m2 : M GS A) :
  stays m1 -> stays m2 -> stays (if b then m1 else m2).
Proof. destruct b; auto. Qed.

Lemma ends_bind {A B} (m : M GS A) (k : A -> M GS B) :
  stays m -> (forall a, ends (k a)) -> ends (bind m k).
Proof.
  intros Hm Hk s Hb. specialize (Hm s Hb). unfold bind.
  destruct (m s) as [[a|e|] s']; cbn in *.
  - apply Hk. apply Hm.
  - intros _. apply Hm.
  - destruct Hm as [_ Hn]. congruence.
Qed.

Lemma ends_set_busy_false : ends (set_busy false).
Proof. intros s Hb. reflexivity. Qed.

Lemma ends_then {A} (m : M GS A) :
  starts m -> ends (set_busy false ;;; m).
Proof.
  intros Hm s Hb. unfold bind, set_busy. cbn.
  match goal with |- flag_after (fst (m ?s')) _ => apply (Hm s') end.
  reflexivity.
Qed.

Lemma starts_wait {A} (body : M GS A) :
  ends body -> starts (wait_idle ;;; set_busy true ;;; body).
Proof.
  intros Hb s Hi. unfold bind, wait_idle, set_busy. rewrite Hi. cbn.
  match goal with |- flag_after (fst (body ?s')) _ => apply (Hb s') end.
  reflexivity.
Qed.

Lemma check_comp_total_raises (s : GS) (r : loc) (e : exn) :
  fst (check_comp_total r s) = Raised e ->
  e = AttributeError \/ e = ValueError.
Proof.
  unfold check_comp_total, bind, load, store, ret, raise.
  destruct (heap s !! r) as [l|] eqn:Hl; cbn;
    [|intros [= <-]; right; reflexivity].
  destruct (sum l =?! hundred); cbn.
  - rewrite lookup_insert_eq.
    destruct (negb _ && negb _); cbn; [intros [= <-]; left; reflexivity |].
    discriminate.
  - rewrite Hl.
    destruct (negb _ && negb _); cbn; [intros [= <-]; left; reflexivity |].
    discriminate.
Qed.

Lemma starts_check {A} (r : loc) (k : loc -> M GS A) :
  (forall r', starts (k r')) -> starts (bind (check_comp_total r) k).
Proof.
  intros Hk s Hi. unfold bind.
  destruct (check_comp_total_frame s r) as (Hb & _).
  pose proof (check_comp_total_comes_back s r) as Hn.
  pose proof (check_comp_total_raises s r) as Hr.
  destruct (check_comp_total r s) as [[r'|e|] s'] eqn:E; cbn in *.
  - apply Hk. congruence.
  - destruct (Hr e eq_refl) as [-> | ->]; discriminate.
  - congruence.
Qed.

Lemma starts_bind {A B} (m : M GS A) (k : A -> M GS B) :
  starts m -> (forall a, starts (k a)) -> starts (bind m k).
Proof.
  intros Hm Hk s Hs. specialize (Hm s Hs). unfold bind.
  destruct (m s) as [[a|e|] s'] eqn:E; cbn in *.
  - apply Hk. exact Hm.
  - exact Hm.
  - exact Hm.
Qed.

Lemma starts_ret {A} (a : A) : starts (ret a).
Proof. intros s Hi. exact Hi. Qed.

Create HintDb held.
#[local] Hint Resolve stays_issue stays_ret stays_getitem stays_load
  ends_set_busy_false starts_ret : held.
#[local] Hint Extern 2 (hoare _ (bind _ _) (fun o s => _ /\ _)) =>
  apply stays_bind; [ | intros ? ] : held.
#[local] Hint Extern 2 (hoare _ (if _ then _ else _) (fun o s => _ /\ _)) =>
  apply stays_if : held.
#[local] Hint Extern 3 (hoare _ (bind _ _) flag_after) =>
  apply ends_bind; [ | intros ? ] : held.

Lemma set_gasses_starts gas_list : starts (set_gasses gas_list).
Proof. apply starts_wait. auto 20 with held. Qed.

Lemma set_gasE_starts r : starts (set_gasE r).
Proof.
  apply starts_check. intros r'. apply starts_wait.
  do 5 (apply ends_bind; [auto with held | intros ?]).
  cbv zeta. apply ends_bind; [ | intros ?; apply ends_set_busy_false ].
  apply stays_if; auto 10 with held.
Qed.

Lemma set_flows_starts r tot_flow : starts (set_flows r tot_flow).
Proof.
  apply starts_check. intros r'. apply starts_wait.
  do 9 (apply ends_bind; [auto with held | intros ?]).
  apply ends_then, set_gasE_starts.
Qed.

Lemma print_flows_starts : starts print_flows.
Proof. apply starts_wait. auto 30 with held. Qed.

Lemma print_details_starts : starts print_details.
Proof. apply starts_wait. auto 20 with held. Qed.

Lemma read_flows_starts : starts read_flows.
Proof.
  apply starts_wait.
  do 5 (apply ends_bind; [auto with held | intros ?]).
  intros s Hb. reflexivity.
Qed.

Lemma shut_down_one_stays c : stays (shut_down_one c).
Proof. unfold shut_down_one. auto 10 with held. Qed.

Lemma shut_down_starts : starts shut_down.
Proof.
  apply starts_wait.
  do 4 (apply ends_bind; [apply shut_down_one_stays | intros ?]).
  apply ends_set_busy_false.
Qed.

Lemma disconnect_starts : starts disconnect.
Proof.
  apply starts_bind; [apply shut_down_starts | intros _].
  apply starts_wait. auto 20 with held.
Qed.

Lemma run_op_starts (op : operation) : starts (run_op op).
Proof.
  destruct op; cbn.
  - apply set_gasses_starts.
  - apply set_flows_starts.
  - apply set_gasE_starts.
  - apply print_flows_starts.
  - apply print_details_starts.
  - apply starts_bind; [apply read_flows_starts | intros _].
    apply starts_ret.
  - apply shut_down_starts.
  - apply disconnect_starts.
Qed.

(** X18.  No operation of [Gas_System] handles an exception.  Whenever one of
    them, started with the flag clear, ends in an error of the driver or
    in an [IndexError], the flag is left set. *)
Theorem failure_leaves_flag_set (op : operation) (s : GS) :
  is_busy s = false ->
  raised_in_bracket (fst (run_op op s)) = true ->
  is_busy (snd (run_op op s)) = true.
Proof.
  intros Hi Hr. pose proof (run_op_starts op s Hi) as Hf.
  destruct (fst (run_op op s)) as [a|e|]; cbn in *.
  - discriminate.
  - apply Hf. exact Hr.
  - discriminate.
Qed.

Lemma wait_idle_spin (s : GS) :
  is_busy s = true -> wait_idle s = (Spins, s).
Proof. unfold wait_idle. intros ->. reflexivity. Qed.

(** X19.  An operation entered with the flag set, in a program where nothing
    else clears it: no command is issued, no device changes, the flag
    stays set and the call does not return.  [set_flows] and [set_gasE]
    run their check first, which can rewrite the caller's list and can
    raise; the other operations spin. *)
Theorem busy_blocks (op : operation) (s : GS) :
  is_busy s = true ->
  log (snd (run_op op s)) = log s
  /\ devices (snd (run_op op s)) = devices s
  /\ is_busy (snd (run_op op s)) = true
  /\ (forall a, fst (run_op op s) <> Returned a)
  /\ (match op with
      | Op_set_flows _ _ | Op_set_gasE _ => True
      | _ => fst (run_op op s) = Spins /\ snd (run_op op s) = s
      end).
Proof.
  intros Hb.
  assert (Hchk : forall A r (k : loc -> M GS A),
            (forall r' s', is_busy s' = true -> k r' s' = (Spins, s')) ->
            let x := bind (check_comp_total r) k s in
            log (snd x) = log s /\ devices (snd x) = devices s
            /\ is_busy (snd x) = true /\ forall a, fst x <> Returned a).
  { intros A r k Hk. cbn zeta. unfold bind.
    destruct (check_comp_total_frame s r)
      as (Hb' & Hl & _ & HA & HB & HC & HD & HE).
    destruct (check_comp_total r s) as [[r'|e|] s'] eqn:E; cbn in *.
    - rewrite (Hk r' s') by congruence. cbn. unfold devices.
      repeat split; try congruence.
    - unfold devices. repeat split; try congruence.
    - unfold devices. repeat split; try congruence. }
  destruct op; cbn [run_op].
  - unfold set_gasses. rewrite (bind_spin _ _ _ _ (wait_idle_spin s Hb)).
    cbn. repeat split; auto; discriminate.
  - unfold set_flows.
    match goal with
    | |- context [bind (check_comp_total ?r) ?k s] =>
        destruct (Hchk unit r k) as (H1 & H2 & H3 & H4)
    end.
    + intros r' s' Hs'. apply (bind_spin _ _ _ _ (wait_idle_spin s' Hs')).
    + repeat split; assumption.
  - unfold set_gasE.
    match goal with
    | |- context [bind (check_comp_total ?r) ?k s] =>
        destruct (Hchk unit r k) as (H1 & H2 & H3 & H4)
    end.
    + intros r' s' Hs'. apply (bind_spin _ _ _ _ (wait_idle_spin s' Hs')).
    + repeat split; assumption.
  - unfold print_flows. rewrite (bind_spin _ _ _ _ (wait_idle_spin s Hb)).
    cbn. repeat split; auto; discriminate.
  - unfold print_details. rewrite (bind_spin _ _ _ _ (wait_idle_spin s Hb)).
    cbn. repeat split; auto; discriminate.
  - assert (E : read_flows s = (Spins, s))
      by apply (bind_spin _ _ _ _ (wait_idle_spin s Hb)).
    rewrite (bind_spin _ _ _ _ E).
    cbn. repeat split; auto; discriminate.
  - unfold shut_down. rewrite (bind_spin _ _ _ _ (wait_idle_spin s Hb)).
    cbn. repeat split; auto; discriminate.
  - assert (E : shut_down s = (Spins, s))
      by apply (bind_spin _ _ _ _ (wait_idle_spin s Hb)).
    unfold disconnect. rewrite (bind_spin _ _ _ _ E).
    cbn. repeat split; auto; discriminate.
Qed.
End Failure.

Section Readers.
Context {F : Type} `{Number F}.

Local Abbreviation GS := (Gas_System F).

Lemma print_flows_run (s : GS) :
  is_busy s = false ->
  works s ->
  exists s1,
    print_flows s = (Returned tt, s1)
    /\ devices s1 = devices s
    /\ heap s1 = heap s
    /\ is_busy s1 = false
    /\ hw_ok s1 = hw_ok s
    /\ (length (log s) <= length (log s1))%nat
    /\ commands (issued s s1)
       = flat_map (fun c => [(c, Get); (c, Get)]) [ChA; ChB; ChC; ChD; ChE].
Proof.
  intros Hi Hok. unfold print_flows.
  rewrite (bind_run _ _ _ _ _ (wait_idle_run s Hi)).
  rewrite (bind_run _ _ _ _ _ (set_busy_run s true)).
  do 10 step_issue.
  rewrite set_busy_run. eexists. split; [reflexivity|].
  split; [reflexivity|]. split; [reflexivity|]. split; [reflexivity|].
  split; [reflexivity|]. split; [cbn; rewrite !length_app; lia|].
  unfold issued. cbn. rewrite <- !app_assoc.
  rewrite skipn_app, skipn_all, Nat.sub_diag. reflexivity.
Qed.

(** X17.  The three operations that report on the bank, on an idle bank:
    [print_flows] reads each device twice, [print_details] and
    [read_flows] once, in the order A to E; each returns, changes no
    device and no list, and leaves the flag clear.  [read_flows] returns
    the states of the five devices, A to E, as they are. *)
Theorem reports_change_nothing (s : GS) :
  is_busy s = false ->
  works s ->
  (fst (print_flows s) = Returned tt
   /\ devices (snd (print_flows s)) = devices s
   /\ heap (snd (print_flows s)) = heap s
   /\ is_busy (snd (print_flows s)) = false
   /\ commands (issued s (snd (print_flows s)))
      = flat_map (fun c => [(c, Get); (c, Get)]) [ChA; ChB; ChC; ChD; ChE])
  /\ (fst (print_details s) = Returned tt
      /\ devices (snd (print_details s)) = devices s
      /\ heap (snd (print_details s)) = heap s
      /\ is_busy (snd (print_details s)) = false
      /\ commands (issued s (snd (print_details s)))
         = map (fun c => (c, Get)) [ChA; ChB; ChC; ChD; ChE])
  /\ (fst (read_flows s) = Returned (devices s)
      /\ devices (snd (read_flows s)) = devices s
      /\ heap (snd (read_flows s)) = heap s
      /\ is_busy (snd (read_flows s)) = false
      /\ commands (issued s (snd (read_flows s)))
         = map (fun c => (c, Get)) [ChA; ChB; ChC; ChD; ChE]).
Proof.
  intros Hi Hok. split; [|split].
  - destruct (print_flows_run s Hi Hok)
      as (s1 & -> & Hd & Hh & Hb & _ & _ & Hc).
    cbn [fst snd]. repeat split; assumption.
  - unfold print_details.
    rewrite (bind_run _ _ _ _ _ (wait_idle_run s Hi)).
    rewrite (bind_run _ _ _ _ _ (set_busy_run s true)).
    do 5 step_issue.
    rewrite set_busy_run. cbn [fst snd].
    split; [reflexivity|]. split; [reflexivity|]. split; [reflexivity|].
    split; [reflexivity|].
    unfold issued. cbn. rewrite <- !app_assoc.
    rewrite skipn_app, skipn_all, Nat.sub_diag. reflexivity.
  - unfold read_flows.
    rewrite (bind_run _ _ _ _ _ (wait_idle_run s Hi)).
    rewrite (bind_run _ _ _ _ _ (set_busy_run s true)).
    do 5 step_issue.
    rewrite (bind_run _ _ _ _ _ (set_busy_run _ false)).
    cbn [fst snd ret].
    split; [reflexivity|]. split; [reflexivity|]. split; [reflexivity|].
    split; [reflexivity|].
    unfold issued. cbn. rewrite <- !app_assoc.
    rewrite skipn_app, skipn_all, Nat.sub_diag. reflexivity.
Qed.

(** X16.  [disconnect] on an idle bank: the commands of [shut_down], then one
    [close] for each device, A to E; the devices are left as [shut_down]
    leaves them and the flag is clear. *)
Theorem disconnect_closes (s : GS) :
  is_busy s = false ->
  works s ->
  fst (disconnect s) = Returned tt
  /\ devices (snd (disconnect s)) = devices (snd (shut_down s))
  /\ is_busy (snd (disconnect s)) = false
  /\ commands (issued s (snd (disconnect s)))
     = commands (issued s (snd (shut_down s)))
       ++ map (fun c => (c, Close)) [ChA; ChB; ChC; ChD; ChE].
Proof.
  intros Hi Hok.
  destruct (shut_down_run s Hi Hok)
    as (s1 & E & _ & Hb & _ & Hw & Hlen & _).
  assert (Hok1 : works s1) by (intros n; rewrite Hw; apply Hok).
  unfold disconnect. rewrite E.
  rewrite (bind_run _ _ _ _ _ E).
  rewrite (bind_run _ _ _ _ _ (wait_idle_run s1 Hb)).
  rewrite (bind_run _ _ _ _ _ (set_busy_run s1 true)).
  do 5 step_issue.
  rewrite set_busy_run. cbn [fst snd].
  split; [reflexivity|]. split; [reflexivity|]. split; [reflexivity|].
  unfold issued, commands. cbn. rewrite <- !app_assoc.
  rewrite skipn_app.
  replace (length (log s) - length (log s1))%nat with 0%nat by lia.
  rewrite map_app. reflexivity.
Qed.

End Readers.

Lemma failure_leaves_flag_set_witness :
  let s := with_fault 2
             (at_rest ["Ar"; "H2"; "N2"; "O2"]%string [1; 0; 0; 0]%float) in
  fst (run_op Op_shut_down s) = Raised HardwareError
  /\ is_busy (snd (run_op Op_shut_down s)) = true.
Proof.
  split; [reflexivity|].
  apply (failure_leaves_flag_set Op_shut_down
           (with_fault 2
              (at_rest ["Ar"; "H2"; "N2"; "O2"]%string [1; 0; 0; 0]%float))).
  - reflexivity.
  - reflexivity.
Defined.

Lemma busy_blocks_witness :
  let s := snd (set_gasses [GasName "H2"]
                  (at_rest ["Ar"; "Ar"; "Ar"; "Ar"]%string
                           [1; 0; 0; 0]%float)) in
  fst (run_op Op_shut_down s) = Spins.
Proof.
  destruct (busy_blocks Op_shut_down
              (snd (set_gasses [GasName "H2"]
                      (at_rest ["Ar"; "Ar"; "Ar"; "Ar"]%string
                               [1; 0; 0; 0]%float))))
    as (_ & _ & _ & _ & Hs & _).
  - reflexivity.
  - exact Hs.
Defined.

Lemma reports_change_nothing_witness :
  let s := at_rest ["Ar"; "H2"; "N2"; "O2"]%string [1; 0; 0; 0]%float in
  devices (snd (print_flows s)) = devices s
  /\ devices (snd (print_details s)) = devices s
  /\ fst (read_flows s) = Returned (devices s).
Proof.
  destruct (reports_change_nothing
              (at_rest ["Ar"; "H2"; "N2"; "O2"]%string [1; 0; 0; 0]%float))
    as ((_ & H1 & _) & (_ & H2 & _) & (H3 & _)).
  - reflexivity.
  - intros n. reflexivity.
  - split; [exact H1|]. split; [exact H2 | exact H3].
Defined.

Lemma disconnect_closes_witness :
  let s := at_rest ["Ar"; "H2"; "N2"; "O2"]%string [1; 0; 0; 0]%float in
  fst (disconnect s) = Returned tt
  /\ map mass_flow (devices (snd (disconnect s))) = [1; 0; 1; 0; 0]%float.
Proof.
  destruct (disconnect_closes
              (at_rest ["Ar"; "H2"; "N2"; "O2"]%string [1; 0; 0; 0]%float))
    as (Hr & Hd & _).
  - reflexivity.
  - intros n. reflexivity.
  - split; [exact Hr|]. cbn zeta. rewrite Hd. reflexivity.
Defined.


(** ** The mixtures written to the devices *)

Section Dicts.
Context {K V : Type} (eqb : K -> K -> bool).
Hypothesis eqb_eq : forall a b, eqb a b = true <-> a = b.

Lemma dict_set_keys (d : dict K V) (k : K) (v : V) :
  map fst (dict_set eqb d k v)
  = if existsb (fun k' => eqb k' k) (map fst d) then map fst d
    else map fst d ++ [k].
Proof.
  induction d as [|[k' v'] d IH]; cbn; [reflexivity|].
  destruct (eqb k' k) eqn:E; cbn; [reflexivity|].
  rewrite IH. destruct (existsb _ (map fst d)); reflexivity.
Qed.

Lemma dict_set_fresh (d : dict K V) (k : K) (v : V) :
  ~ In k (map fst d) -> dict_set eqb d k v = d ++ [(k, v)].
Proof.
  induction d as [|[k' v'] d IH]; cbn; intros Hn; [reflexivity|].
  destruct (eqb k' k) eqn:E.
  - apply eqb_eq in E. exfalso. apply Hn. left. exact E.
  - rewrite IH; [reflexivity|]. intros Hin. apply Hn. right. exact Hin.
Qed.

Lemma dict_set_nodup (d : dict K V) (k : K) (v : V) :
  List.NoDup (map fst d) -> List.NoDup (map fst (dict_set eqb d k v)).
Proof.
  intros Hd. rewrite dict_set_keys.
  destruct (existsb (fun k' => eqb k' k) (map fst d)) eqn:E; [exact Hd|].
  apply List.NoDup_app.
  - exact Hd.
  - constructor; [intros [] | constructor].
  - intros x Hx [->|[]].
    assert (Ht : existsb (fun k' => eqb k' x) (map fst d) = true).
    { apply existsb_exists. exists x. split; [exact Hx|].
      apply eqb_eq. reflexivity. }
    congruence.
Qed.

Lemma dict_of_distinct_from (pairs d : list (K * V)) :
  List.NoDup (map fst (d ++ pairs)) ->
  fold_left (fun d p => dict_set eqb d (fst p) (snd p)) pairs d = d ++ pairs.
Proof.
  revert d. induction pairs as [|[k v] pairs IH]; intros d Hn; cbn.
  - rewrite app_nil_r. reflexivity.
  - rewrite dict_set_fresh.
    + rewrite IH; rewrite <- app_assoc; [reflexivity | exact Hn].
    + rewrite map_app in Hn. cbn in Hn.
      apply List.NoDup_remove_2 in Hn. intros Hin. apply Hn.
      apply in_or_app. left. exact Hin.
Qed.

Lemma dict_of_distinct (pairs : list (K * V)) :
  List.NoDup (map fst pairs) -> dict_of eqb pairs = pairs.
Proof. intros Hn. apply (dict_of_distinct_from pairs []). exact Hn. Qed.
End Dicts.

Lemma gas_eqb_eq (a b : gas_sel) : gas_eqb a b = true <-> a = b.
Proof.
  destruct a as [s|n], b as [t|m]; cbn.
  - rewrite String.eqb_eq. split; [intros ->; reflexivity | intros [= ->]; reflexivity].
  - split; discriminate.
  - split; discriminate.
  - rewrite Z.eqb_eq. split; [intros ->; reflexivity | intros [= ->]; reflexivity].
Qed.

Lemma map_fst_combine {A B} (l : list A) (l' : list B) :
  map fst (combine l l') = firstn (length l') l.
Proof.
  revert l'. induction l as [|x l IH]; intros [|y l']; cbn; try reflexivity.
  rewrite IH. reflexivity.
Qed.

Lemma map_snd_combine {A B} (l : list A) (l' : list B) :
  (length l' <= length l)%nat -> map snd (combine l l') = l'.
Proof.
  revert l'. induction l as [|x l IH]; intros [|y l'] Hl; cbn in *;
    try reflexivity; try lia.
  rewrite IH; [reflexivity | lia].
Qed.

Lemma NoDup_firstn_list {A} (n : nat) (l : list A) :
  List.NoDup l -> List.NoDup (firstn n l).
Proof.
  intros Hn. revert n. induction Hn as [|x l Hx Hl IH]; intros [|n]; cbn;
    try constructor.
  - intros Hin. apply Hx.
    rewrite <- (firstn_skipn n l). apply in_or_app. left. exact Hin.
  - apply IH.
Qed.

Lemma NoDup_map_injective {A B} (f : A -> B) (l : list A) :
  (forall a b, f a = f b -> a = b) ->
  List.NoDup l -> List.NoDup (map f l).
Proof.
  intros Hf Hn. induction Hn as [|x l Hx Hl IH]; cbn; constructor.
  - intros Hin. apply in_map_iff in Hin as (y & Hy & Hin).
    apply Hf in Hy. subst y. exact (Hx Hin).
  - exact IH.
Qed.

Section GasDict.
Context {F : Type} `{Number F}.

(** X12.  When the controllers hold pairwise distinct gases, the dictionary of
    [set_gasE] merges nothing: every gas keeps its own percentage, a
    hundred times its fraction, the entries stand in the order of the
    channels, and those of value zero are left out. *)
Theorem gas_dict_distinct (gas_list : list gas_sel) (comp : list F) :
  List.NoDup gas_list ->
  gas_dict_of gas_list comp
  = List.filter (fun kv => negb (snd kv =?! zero))
      (combine gas_list (map (fun x => x *! hundred) comp)).
Proof.
  intros Hn. unfold gas_dict_of. cbv zeta.
  rewrite (dict_of_distinct gas_eqb gas_eqb_eq); [reflexivity|].
  rewrite map_fst_combine. apply NoDup_firstn_list, Hn.
Qed.
End GasDict.

Lemma gas_dict_distinct_witness :
  gas_dict_of [GasName "H2"; GasName "N2"; GasName "Ar"; GasName "O2"]
              [0.5; 0; 0.25; 0.25]%float
  = [(GasName "H2", 50%float); (GasName "Ar", 25%float);
     (GasName "O2", 25%float)].
Proof.
  rewrite (gas_dict_distinct
             [GasName "H2"; GasName "N2"; GasName "Ar"; GasName "O2"]
             [0.5; 0; 0.25; 0.25]%float).
  - vm_compute. reflexivity.
  - repeat constructor; cbn; intuition discriminate.
Defined.

(** *** The calibration mixture *)

Section CalMix.
Context {F : Type} `{Number F} `{Pandas F}.

Lemma drop_duplicated_keys (seen : list string) (l : list (string * F)) :
  List.NoDup (map fst (drop_duplicated seen l))
  /\ (forall k, In k (map fst (drop_duplicated seen l)) ->
        ~ In k seen /\ In k (map fst l)).
Proof.
  revert seen. induction l as [|[k v] l IH]; intros seen; cbn.
  - split; [constructor | intros k []].
  - destruct (existsb (String.eqb k) seen) eqn:E.
    + destruct (IH seen) as [Hn Hk]. split; [exact Hn|].
      intros k' Hk'. destruct (Hk k' Hk') as [H1 H2]. auto.
    + destruct (IH (k :: seen)) as [Hn Hk]. cbn. split.
      * constructor; [|exact Hn].
        intros Hin. destruct (Hk k Hin) as [Hns _]. apply Hns. left.
        reflexivity.
      * intros k' [<-|Hk'].
        -- split; [|left; reflexivity].
           intros Hin.
           assert (Ht : existsb (String.eqb k) seen = true).
           { apply existsb_exists. exists k. split; [exact Hin|].
             apply String.eqb_refl. }
           congruence.
        -- destruct (Hk k' Hk') as [H1 H2]. split; [|right; exact H2].
           intros Hin. apply H1. right. exact Hin.
Qed.

Lemma length_drop_duplicated (seen : list string) (l : list (string * F)) :
  (length (drop_duplicated seen l) <= length l)%nat.
Proof.
  revert seen. induction l as [|[k v] l IH]; intros seen; cbn; [lia|].
  destruct (existsb (String.eqb k) seen); cbn.
  - specialize (IH seen). lia.
  - specialize (IH (k :: seen)). lia.
Qed.

Lemma NoDup_keys_filter {A B} (f : A * B -> bool) (l : list (A * B)) :
  List.NoDup (map fst l) -> List.NoDup (map fst (List.filter f l)).
Proof.
  induction l as [|kv l IH]; cbn; intros Hn; [constructor|].
  inversion Hn as [|? ? Hk Hl]; subst.
  destruct (f kv); cbn; [|apply IH, Hl].
  constructor; [|apply IH, Hl].
  intros Hin. apply Hk.
  apply in_map_iff in Hin as (x & Hx & Hin).
  apply List.filter_In in Hin as [Hin _].
  apply in_map_iff. exists x. split; assumption.
Qed.

(** The dictionary before the sort: one entry for every base name, and
    the fill gas. *)
Lemma cal_mix_keys (calDF : list (string * F)) (fill_gas : string) :
  let percents :=
    drop_duplicated []
      (map (fun kv => (base_name (fst kv), snd kv /! of_Z 10000)) calDF) in
  let filled :=
    dict_set String.eqb percents fill_gas
             (hundred -! Series_sum (map snd percents)) in
  cal_mix calDF fill_gas
  = map (fun kv => (GasName (fst kv), snd kv))
      (firstn 5
         (List.filter (fun kv => existsb (String.eqb (fst kv)) factory_gasses)
            (sort_values filled)))
  /\ List.NoDup (map fst filled)
  /\ (forall k, In k (map fst filled) ->
        k = fill_gas \/ In k (map (fun kv => base_name (fst kv)) calDF)).
Proof.
  cbv zeta. split; [reflexivity|].
  set (percents := drop_duplicated [] _).
  destruct (drop_duplicated_keys []
              (map (fun kv => (base_name (fst kv), snd kv /! of_Z 10000))
                   calDF)) as [Hn Hk].
  fold percents in Hn, Hk. split.
  - apply (dict_set_nodup String.eqb String.eqb_eq). exact Hn.
  - intros k Hin. rewrite dict_set_keys in Hin.
    assert (Hold : In k (map fst percents) ->
                   In k (map (fun kv => base_name (fst kv)) calDF)).
    { intros Hp. destruct (Hk k Hp) as [_ Hm].
      rewrite map_map in Hm. exact Hm. }
    destruct (existsb _ (map fst percents)); [right; auto|].
    apply in_app_or in Hin as [Hp|[<-|[]]]; [right; auto | left; reflexivity].
Qed.

(** X20.  [set_calibration_gas] issues one command, on the device it is given,
    whatever the flag says, and changes neither a device nor the flag.
    Whatever the order in which pandas adds, and whatever order its sort
    gives the entries, the mixture written to slot 237 has at most five
    entries, no gas twice, and only gases of [factory_gasses], each of
    them the fill gas or the part before the first underscore of a
    chemical of the table. *)
Theorem set_calibration_gas_writes (s : Gas_System F) (mfc : channel)
    (calDF : list (string * F)) (fill_gas : string) :
  works s ->
  (forall l : list (string * F), Permutation (sort_values l) l) ->
  let r := set_calibration_gas mfc calDF fill_gas s in
  let gd := cal_mix calDF fill_gas in
  fst r = Returned tt
  /\ devices (snd r) = devices s
  /\ is_busy (snd r) = is_busy s
  /\ commands (issued s (snd r)) = [(mfc, CreateMix 237 "CalGas" gd)]
  /\ map ev_busy (issued s (snd r)) = [is_busy s]
  /\ (length gd <= 5)%nat
  /\ List.NoDup (map fst gd)
  /\ (forall g, In g (map fst gd) ->
        exists k, g = GasName k /\ In k factory_gasses
                  /\ (k = fill_gas
                      \/ In k (map (fun kv => base_name (fst kv)) calDF))).
Proof.
  intros Hok Hperm. cbv zeta.
  unfold set_calibration_gas.
  rewrite (bind_run _ _ _ _ _ (issue_run s mfc _ Hok)).
  cbn [ret fst snd].
  split; [reflexivity|].
  split; [destruct mfc; reflexivity|].
  split; [destruct mfc; reflexivity|].
  assert (Hiss : issued s (after mfc
                   (CreateMix 237 "CalGas" (cal_mix calDF fill_gas)) s)
                 = [Event mfc (CreateMix 237 "CalGas"
                                 (cal_mix calDF fill_gas)) (is_busy s) true]).
  { unfold issued. destruct mfc; cbn;
      rewrite skipn_app, skipn_all, Nat.sub_diag; reflexivity. }
  rewrite Hiss. split; [reflexivity|]. split; [reflexivity|].
  destruct (cal_mix_keys calDF fill_gas) as (-> & Hn & Hk).
  set (filled := dict_set _ _ _ _) in *.
  set (kept := List.filter _ (sort_values filled)).
  assert (Hkn : List.NoDup (map fst kept)).
  { apply NoDup_keys_filter.
    apply (Permutation_NoDup (l := map fst filled)); [|exact Hn].
    apply Permutation_map. symmetry. apply Hperm. }
  split; [|split].
  - rewrite length_map, length_firstn. lia.
  - rewrite map_map. cbn [fst].
    rewrite <- (map_map fst GasName).
    apply NoDup_map_injective; [intros a b [= ->]; reflexivity|].
    rewrite <- firstn_map. apply NoDup_firstn_list, Hkn.
  - intros g Hg. rewrite map_map in Hg. cbn [fst] in Hg.
    apply in_map_iff in Hg as ([k v] & <- & Hin). cbn [fst].
    exists k. split; [reflexivity|].
    assert (Hin' : In (k, v) kept).
    { rewrite <- (firstn_skipn 5 kept). apply in_or_app. left. exact Hin. }
    apply List.filter_In in Hin' as [Hs Hf]. cbn [fst] in Hf.
    split.
    + apply existsb_exists in Hf as (k' & Hk' & He).
      apply String.eqb_eq in He. subst k'. exact Hk'.
    + apply Hk.
      pose proof (Permutation_in (k, v) (Hperm filled) Hs) as Hs'.
      apply in_map_iff. exists (k, v). split; [reflexivity | exact Hs'].
Qed.
End CalMix.

Lemma insert_desc_perm {F} `{Number F} (kv : string * F)
    (l : list (string * F)) :
  Permutation (insert_desc kv l) (kv :: l).
Proof.
  induction l as [|h t IH]; cbn; [reflexivity|].
  destruct (snd kv <?! snd h); [|reflexivity].
  rewrite IH. apply perm_swap.
Qed.

(** The sort of [insertion_Pandas] rearranges its entries. *)
Lemma insertion_sort_perm {F} `{Number F} (l : list (string * F)) :
  Permutation (sort_values l) l.
Proof.
  induction l as [|kv l IH]; cbn; [reflexivity|].
  rewrite insert_desc_perm. constructor. exact IH.
Qed.

Lemma set_calibration_gas_writes_witness :
  let s := at_rest ["Ar"; "H2"; "N2"; "O2"]%string [1; 0; 0; 0]%float in
  commands (issued s (snd (set_calibration_gas ChE
                             [("C2H4_FID"%string, 1000%float);
                              ("C2H4_TCD"%string, 1200%float);
                              ("CO2"%string, 500%float)] "Ar" s)))
  = [(ChE, CreateMix 237 "CalGas"
             [(GasName "Ar", 99.849999999999994%float);
              (GasName "C2H4", 0.10000000000000001%float);
              (GasName "CO2", 0.050000000000000003%float)])].
Proof.
  destruct (set_calibration_gas_writes
              (at_rest ["Ar"; "H2"; "N2"; "O2"]%string [1; 0; 0; 0]%float)
              ChE
              [("C2H4_FID"%string, 1000%float);
               ("C2H4_TCD"%string, 1200%float);
               ("CO2"%string, 500%float)] "Ar")
    as (_ & _ & _ & Hc & _).
  - intros n. reflexivity.
  - apply insertion_sort_perm.
  - cbn zeta. rewrite Hc. vm_compute. reflexivity.
Defined.

Lemma ForallOrdPairs_filter {A} (R : A -> A -> Prop) (f : A -> bool)
    (l : list A) :
  ForallOrdPairs R l -> ForallOrdPairs R (List.filter f l).
Proof.
  induction 1 as [|h t Hh Ht IH]; cbn; [constructor|].
  destruct (f h); [|exact IH]. constructor; [|exact IH].
  apply List.Forall_forall. intros x Hx.
  apply List.filter_In in Hx as [Hx _].
  rewrite List.Forall_forall in Hh. apply Hh, Hx.
Qed.

Lemma filter_all {A} (f : A -> bool) (l : list A) :
  Forall (fun x => f x = true) l -> List.filter f l = l.
Proof.
  induction 1 as [|x l Hx Hl IH]; cbn; [reflexivity|].
  rewrite Hx, IH. reflexivity.
Qed.

(** ** The calibration fit in general *)

Section CalibrationGeneral.
Context {F : Type} `{Number F}.
Variable polyfit : list F -> list F -> list F -> polyfit_result F.
Variable tiny : F.
Variable force_zero : bool.
Variable calgas_flow : list F.
Variables avg std : string -> list F.

Local Abbreviation table := (list (string * cal_entry F)).
Local Abbreviation fit := (fit_of polyfit tiny force_zero calgas_flow avg std).
Local Abbreviation step :=
  (fit_chemical polyfit tiny force_zero calgas_flow avg std).
Local Abbreviation loop :=
  (fit_loop polyfit tiny force_zero calgas_flow avg std).
Local Abbreviation chems_of :=
  (map (fun ke : string * cal_entry F => (fst ke, ppm (snd ke)))).

Lemma fit_chemical_eq (vars : option (F * F * F * F)) (t : table)
    (chem : string * F) :
  step (vars, t) chem
  = match (match fit chem with
           | Fitted m b err_m err_b => Some (m, err_m, b, err_b)
           | LinAlgError => vars
           end) with
    | Some v => inr (Some v, loc_set t (fst chem) v)
    | None => inl UnboundLocalError
    end.
Proof.
  unfold fit_chemical, fit_of.
  destruct (fit_data tiny force_zero _ _ _) as [[x y] e].
  destruct (polyfit x y _); [reflexivity|].
  destruct vars; reflexivity.
Qed.

Lemma loc_set_keys (t : table) (k : string) (v : F * F * F * F) :
  map fst (loc_set t k v) = map fst t
  /\ map (fun ke => ppm (snd ke)) (loc_set t k v)
     = map (fun ke => ppm (snd ke)) t.
Proof.
  unfold loc_set. rewrite !map_map. split; apply map_ext; intros [k' e];
    cbn [fst snd]; destruct (String.eqb k' k); destruct v as [[[m em] b] eb];
    reflexivity.
Qed.

Lemma loc_set_filled (t : table) (k : string) (v : F * F * F * F)
    (ke : string * cal_entry F) :
  In ke (loc_set t k v) ->
  (fst ke = k /\ is_filled (snd ke) = true) \/ (fst ke <> k /\ In ke t).
Proof.
  unfold loc_set. intros Hin.
  apply in_map_iff in Hin as ([k' e] & <- & Hin). cbn [fst snd].
  destruct (String.eqb k' k) eqn:E.
  - apply String.eqb_eq in E. subst k'.
    destruct v as [[[m em] b] eb]. left. split; reflexivity.
  - apply String.eqb_neq in E. right. split; [exact E | exact Hin].
Qed.

(** Once a fit has succeeded the loop runs to its end. *)
Lemma fit_loop_bound (v : F * F * F * F) (t : table)
    (chems : list (string * F)) :
  exists v' t',
    loop (Some v, t) chems = inr (Some v', t')
    /\ map fst t' = map fst t
    /\ map (fun ke => ppm (snd ke)) t' = map (fun ke => ppm (snd ke)) t
    /\ (forall ke, In ke t' ->
          is_filled (snd ke) = true
          \/ (~ In (fst ke) (map fst chems) /\ In ke t)).
Proof.
  revert v t. induction chems as [|chem chems IH]; intros v t;
    cbn [fit_loop].
  - exists v, t. split; [reflexivity|]. split; [reflexivity|].
    split; [reflexivity|]. intros ke Hin. right. split; [intros [] | exact Hin].
  - rewrite fit_chemical_eq.
    set (v1 := match fit chem with
               | Fitted m b err_m err_b => (m, err_m, b, err_b)
               | LinAlgError => v
               end).
    assert (E : match fit chem with
                | Fitted m b err_m err_b => Some (m, err_m, b, err_b)
                | LinAlgError => Some v
                end = Some v1)
      by (unfold v1; destruct (fit chem); reflexivity).
    rewrite E.
    destruct (IH v1 (loc_set t (fst chem) v1))
      as (v' & t' & Hl & Hk & Hp & Hf).
    destruct (loc_set_keys t (fst chem) v1) as [Hk1 Hp1].
    exists v', t'. split; [exact Hl|].
    split; [congruence|]. split; [congruence|].
    intros ke Hin. destruct (Hf ke Hin) as [Hfill|[Hn Hin1]];
      [left; exact Hfill|].
    destruct (loc_set_filled _ _ _ _ Hin1) as [[_ Hfill]|[Hne Hin0]];
      [left; exact Hfill|].
    right. split; [|exact Hin0].
    cbn [map]. intros [He|Hc]; [exact (Hne (eq_sym He)) | exact (Hn Hc)].
Qed.

(** X25.  On a table with unique chemical ids.  When [analyze_cal_data] gets
    as far as writing the table: there are at least three chemicals, the table has the rows of [calDF] with their
    ids, in their order, and their ppm values, and every row has its four
    fitted cells filled. *)
Theorem analyze_cal_data_frame (calDF t : table) :
  List.NoDup (map fst calDF) ->
  analyze_cal_data polyfit tiny calDF avg std calgas_flow force_zero = inr t ->
  (3 <= length calDF)%nat
  /\ map fst t = map fst calDF
  /\ map (fun ke => ppm (snd ke)) t = map (fun ke => ppm (snd ke)) calDF
  /\ Forall (fun ke => is_filled (snd ke) = true) t.
Proof.
  intros _. unfold analyze_cal_data.
  destruct (length calDF / 3 =? 0)%nat eqn:E3; [discriminate|].
  apply Nat.eqb_neq in E3.
  assert (Hlen : (3 <= length calDF)%nat).
  { destruct (Nat.lt_ge_cases (length calDF) 3) as [Hlt|Hge]; [|exact Hge].
    exfalso. apply E3. apply Nat.div_small. exact Hlt. }
  destruct calDF as [|[k e] rest]; [cbn in Hlen; lia|].
  cbn [map fit_loop fst snd]. rewrite fit_chemical_eq.
  destruct (fit (k, ppm e)) as [m b em eb|] eqn:Ef; [|discriminate].
  destruct (fit_loop_bound (m, em, b, eb)
              (loc_set ((k, e) :: rest) k (m, em, b, eb))
              (chems_of rest)) as (v' & t' & Hl & Hk & Hp & Hf).
  cbn [fst]. rewrite Hl. intros [= <-].
  destruct (loc_set_keys ((k, e) :: rest) k (m, em, b, eb)) as [Hk1 Hp1].
  split; [exact Hlen|].
  split; [exact (eq_trans Hk Hk1)|]. split; [exact (eq_trans Hp Hp1)|].
  apply List.Forall_forall. intros ke Hin.
  destruct (Hf ke Hin) as [Hfill|[Hn Hin1]]; [exact Hfill|].
  destruct (loc_set_filled _ _ _ _ Hin1) as [[_ Hfill]|[Hne Hin0]];
    [exact Hfill|].
  exfalso. destruct Hin0 as [<-|Hin0]; [apply Hne; reflexivity|].
  apply Hn. rewrite map_map. cbn [fst].
  apply in_map_iff. exists ke. split; [reflexivity | exact Hin0].
Qed.

(** X26.  How [analyze_cal_data] ends on a table with unique chemical ids,
    with a fit that returns or raises [LinAlgError].  With fewer than
    three chemicals it divides by zero when it sizes the plot grid.  With three or more, the
    fit of the first chemical decides: when it fails the call ends in
    [UnboundLocalError], and when it succeeds the table is written,
    whatever the later fits do. *)
Theorem analyze_cal_data_outcome (calDF : table) :
  List.NoDup (map fst calDF) ->
  let first := match calDF with
               | [] => LinAlgError
               | ke :: _ => fit (fst ke, ppm (snd ke))
               end in
  match analyze_cal_data polyfit tiny calDF avg std calgas_flow force_zero with
  | inr _ => (3 <= length calDF)%nat /\ first <> LinAlgError
  | inl e =>
      if (length calDF <? 3)%nat then e = ZeroDivisionError
      else e = UnboundLocalError /\ first = LinAlgError
  end.
Proof.
  assert (Hdiv : (length calDF / 3 =? 0)%nat = (length calDF <? 3)%nat).
  { destruct (length calDF <? 3)%nat eqn:E.
    - apply Nat.ltb_lt in E. apply Nat.eqb_eq, Nat.div_small, E.
    - apply Nat.ltb_ge in E. apply Nat.eqb_neq. intros Hz.
      apply Nat.div_small_iff in Hz; lia. }
  intros _. cbv zeta. unfold analyze_cal_data. rewrite Hdiv.
  destruct (length calDF <? 3)%nat eqn:E; [reflexivity|].
  apply Nat.ltb_ge in E.
  destruct calDF as [|[k e] rest]; [cbn in E; lia|].
  cbn [map fit_loop fst snd]. rewrite fit_chemical_eq.
  destruct (fit (k, ppm e)) as [m b em eb|]; [|split; reflexivity].
  cbn [fst].
  destruct (fit_loop_bound (m, em, b, eb)
              (loc_set ((k, e) :: rest) k (m, em, b, eb))
              (chems_of rest)) as (v' & t' & Hl & _).
  rewrite Hl. split; [exact E | discriminate].
Qed.
Lemma loc_set_other (t : table) (k : string) (v : F * F * F * F) :
  ~ In k (map fst t) -> loc_set t k v = t.
Proof.
  intros Hn. unfold loc_set. rewrite <- (map_id t) at 2.
  apply map_ext_in. intros [k' e] Hin. cbn [fst snd].
  destruct (String.eqb k' k) eqn:E; [|reflexivity].
  apply String.eqb_eq in E. subst k'. exfalso. apply Hn.
  apply in_map_iff. exists (k, e). split; [reflexivity | exact Hin].
Qed.

Lemma fit_loop_own (vars : option (F * F * F * F)) (pre suf : table) :
  List.NoDup (map fst (pre ++ suf)) ->
  Forall (fun ke => fit (fst ke, ppm (snd ke)) <> LinAlgError) suf ->
  exists vars',
    loop (vars, pre ++ suf) (chems_of suf)
    = inr (vars',
           pre ++ map (fun ke => fitted_row ke (fit (fst ke, ppm (snd ke))))
                      suf).
Proof.
  revert vars pre. induction suf as [|[k e] suf IH]; intros vars pre Hn Hf.
  - exists vars. reflexivity.
  - inversion Hf as [|? ? Hk Hf']; subst. cbn [fst snd] in Hk.
    cbn [map fit_loop fst snd]. rewrite fit_chemical_eq.
    destruct (fit (k, ppm e)) as [m b em eb|] eqn:Ef; [|congruence].
    cbn [fst fitted_row snd].
    assert (Hnk : ~ In k (map fst pre) /\ ~ In k (map fst suf)).
    { rewrite map_app in Hn. cbn [map fst] in Hn.
      pose proof (List.NoDup_remove_2 _ _ _ Hn) as Hr.
      split; intros Hin; apply Hr; apply in_or_app; auto. }
    destruct Hnk as [Hpre Hsuf].
    assert (Hset : loc_set (pre ++ (k, e) :: suf) k (m, em, b, eb)
                   = (pre ++ [(k, CalEntry (ppm e) (Some m) (Some em)
                                           (Some b) (Some eb))]) ++ suf).
    { rewrite <- app_assoc. cbn [app].
      unfold loc_set at 1. rewrite map_app. cbn [map fst snd].
      rewrite String.eqb_refl.
      fold (loc_set pre k (m, em, b, eb)).
      fold (loc_set suf k (m, em, b, eb)).
      rewrite (loc_set_other pre k _ Hpre), (loc_set_other suf k _ Hsuf).
      reflexivity. }
    rewrite Hset.
    destruct (IH (Some (m, em, b, eb))
                 (pre ++ [(k, CalEntry (ppm e) (Some m) (Some em)
                                       (Some b) (Some eb))]))
      as (vars' & Hl).
    + rewrite <- app_assoc. cbn [app].
      rewrite map_app in *. cbn [map fst] in *. exact Hn.
    + exact Hf'.
    + exists vars'. rewrite Hl, <- app_assoc. reflexivity.
Qed.

(** X27.  With unique chemical ids, at least three of them, and every fit
    successful, each row of the table is written with the slope, the
    intercept and the errors of its own fit. *)
Theorem analyze_cal_data_own_fits (calDF : table) :
  List.NoDup (map fst calDF) ->
  (3 <= length calDF)%nat ->
  Forall (fun ke => fit (fst ke, ppm (snd ke)) <> LinAlgError) calDF ->
  analyze_cal_data polyfit tiny calDF avg std calgas_flow force_zero
  = inr (map (fun ke => fitted_row ke (fit (fst ke, ppm (snd ke)))) calDF).
Proof.
  intros Hn Hlen Hf. unfold analyze_cal_data.
  assert (E : (length calDF / 3 =? 0)%nat = false).
  { apply Nat.eqb_neq. intros Hz. apply Nat.div_small_iff in Hz; lia. }
  rewrite E.
  destruct (fit_loop_own None [] calDF Hn Hf) as (vars' & Hl).
  cbn [app] in Hl. rewrite Hl. reflexivity.
Qed.
End CalibrationGeneral.

Lemma analyze_cal_data_frame_witness :
  let t := [ ("CH4"%string, CalEntry 100 (Some 2) (Some 0) (Some 5) (Some 0));
             ("C2H4"%string, CalEntry 200 (Some 2) (Some 0) (Some 5) (Some 0));
             ("C2H6"%string, CalEntry 300 (Some 4) (Some 0) (Some 1) (Some 0))
           ]%Q in
  map fst t = map fst demo_calDF
  /\ Forall (fun ke => is_filled (snd ke) = true) t.
Proof.
  destruct (analyze_cal_data_frame demo_polyfit
              (1 # 10000000000000000000)%Q false demo_flows
              (demo_avg "C2H4") demo_std demo_calDF
              [ ("CH4"%string,
                 CalEntry 100 (Some 2) (Some 0) (Some 5) (Some 0));
                ("C2H4"%string,
                 CalEntry 200 (Some 2) (Some 0) (Some 5) (Some 0));
                ("C2H6"%string,
                 CalEntry 300 (Some 4) (Some 0) (Some 1) (Some 0)) ]%Q)
    as (_ & Hk & _ & Hf).
  - repeat constructor; cbn; intuition discriminate.
  - vm_compute. reflexivity.
  - split; [exact Hk | exact Hf].
Defined.

Lemma analyze_cal_data_outcome_witness :
  analyze_cal_data demo_polyfit (1 # 10000000000000000000)%Q demo_calDF
                   (demo_avg "CH4") demo_std demo_flows false
  = inl UnboundLocalError.
Proof.
  assert (Hn : List.NoDup (map fst demo_calDF))
    by (repeat constructor; cbn; intuition discriminate).
  pose proof (analyze_cal_data_outcome demo_polyfit
                (1 # 10000000000000000000)%Q false demo_flows
                (demo_avg "CH4") demo_std demo_calDF Hn) as Ho.
  cbv zeta in Ho.
  destruct (analyze_cal_data demo_polyfit (1 # 10000000000000000000)%Q
              demo_calDF (demo_avg "CH4") demo_std demo_flows false)
    as [e|t].
  - assert (Hlt : (length demo_calDF <? 3)%nat = false) by reflexivity.
    rewrite Hlt in Ho. destruct Ho as [-> _]. reflexivity.
  - destruct Ho as [_ Hf]. exfalso. apply Hf. reflexivity.
Defined.

Lemma analyze_cal_data_own_fits_witness :
  analyze_cal_data demo_polyfit (1 # 10000000000000000000)%Q demo_calDF
                   (demo_avg "") demo_std demo_flows false
  = inr (map (fun ke =>
                fitted_row ke
                  (fit_of demo_polyfit (1 # 10000000000000000000)%Q false
                          demo_flows (demo_avg "") demo_std
                          (fst ke, ppm (snd ke))))
             demo_calDF).
Proof.
  apply (analyze_cal_data_own_fits demo_polyfit (1 # 10000000000000000000)%Q
           false demo_flows (demo_avg "") demo_std demo_calDF).
  - repeat constructor; cbn; intuition discriminate.
  - cbn. lia.
  - repeat constructor; vm_compute; discriminate.
Defined.

(** ** The pressure test *)

Section Pressure.
Context {F : Type} `{Number F}.

Local Abbreviation GS := (Gas_System F).

Lemma mfc_after (x c : channel) (cmd : command F) (s : GS) :
  mfc x (after c cmd s)
  = if channel_eqb x c then apply_cmd cmd (mfc c s) else mfc x s.
Proof. destruct x, c; reflexivity. Qed.

Lemma is_busy_after (c : channel) (cmd : command F) (s : GS) :
  is_busy (after c cmd s) = is_busy s.
Proof. destruct c; reflexivity. Qed.

Lemma hw_ok_after (c : channel) (cmd : command F) (s : GS) :
  hw_ok (after c cmd s) = hw_ok s.
Proof. destruct c; reflexivity. Qed.

Lemma channel_eqb_refl (c : channel) : channel_eqb c c = true.
Proof. destruct c; reflexivity. Qed.

(** What a part of the test does: it returns [a], turns the devices into
    [f], and leaves the flag and the driver as they are. *)
Local Abbreviation does m s a f :=
  (exists s' : GS,
      m s = (Returned a, s')
      /\ (forall x, mfc x s' = f x)
      /\ is_busy s' = is_busy s
      /\ hw_ok s' = hw_ok s).

Lemma test_pressure_scan_run (c : channel) (t : option channel) (s : GS) :
  works s ->
  does (test_pressure_scan c t) s
       (if is_inert (gas (mfc c s)) then Some c else t)
       (fun x => if channel_eqb x c then vented (mfc c s) else mfc x s).
Proof.
  intros Hok. unfold test_pressure_scan, vented. step_issue.
  cbn [apply_cmd].
  destruct (is_inert (gas (mfc c s))) eqn:E.
  - eexists. split; [reflexivity|]. split; [|split].
    + intros x. rewrite mfc_after. cbn [apply_cmd].
      destruct (channel_eqb x c) eqn:Ex; [|reflexivity].
      destruct x, c; try discriminate; reflexivity.
    + apply is_busy_after.
    + apply hw_ok_after.
  - step_issue. eexists. split; [reflexivity|]. split; [|split].
    + intros x. rewrite !mfc_after, channel_eqb_refl. cbn [apply_cmd gas].
      destruct (channel_eqb x c); reflexivity.
    + rewrite !is_busy_after. reflexivity.
    + rewrite !hw_ok_after. reflexivity.
Qed.

Lemma test_pressure_sample_run (c : channel) (s : GS) :
  works s ->
  does (test_pressure_sample c) s tt (fun x => mfc x s).
Proof.
  intros Hok. unfold test_pressure_sample. do 2 step_issue.
  eexists. split; [reflexivity|]. split; [|split].
  - intros x. destruct x, c; reflexivity.
  - rewrite !is_busy_after. reflexivity.
  - rewrite !hw_ok_after. reflexivity.
Qed.

Lemma samples_run {A} (c : channel) (l : list A) (s : GS) :
  works s ->
  does (for_each l (fun _ => test_pressure_sample c)) s tt
       (fun x => mfc x s).
Proof.
  revert s. induction l as [|a l IH]; intros s Hok; cbn [for_each].
  - exists s. repeat split; reflexivity.
  - destruct (test_pressure_sample_run c s Hok) as (s1 & E1 & Hm1 & Hb1 & Hw1).
    assert (Hok1 : works s1) by (intros n; rewrite Hw1; apply Hok).
    destruct (IH s1 Hok1) as (s2 & E2 & Hm2 & Hb2 & Hw2).
    exists s2. rewrite (bind_run _ _ _ _ _ E1). split; [exact E2|].
    split; [|split]; [intros x; rewrite Hm2; apply Hm1 | congruence..].
Qed.

Lemma test_pressure_setpoint_run (c : channel) (setpoint : Z) (s : GS) :
  works s ->
  does (test_pressure_setpoint c setpoint) s tt
       (fun x => if channel_eqb x c
                 then Mfc (gas (mfc c s)) (of_Z setpoint) else mfc x s).
Proof.
  intros Hok. unfold test_pressure_setpoint. step_issue.
  assert (Hok1 : works (after c (SetFlowRate (of_Z setpoint)) s))
    by auto with works.
  destruct (samples_run c (range 0 5 1) _ Hok1) as (s2 & E2 & Hm2 & Hb2 & Hw2).
  exists s2. split; [exact E2|]. split; [|split].
  - intros x. rewrite Hm2, mfc_after. reflexivity.
  - rewrite Hb2. apply is_busy_after.
  - rewrite Hw2. apply hw_ok_after.
Qed.

Lemma setpoints_run (c : channel) (l : list Z) (s : GS) :
  works s ->
  does (for_each l (test_pressure_setpoint c)) s tt
       (fun x => if channel_eqb x c
                 then match l with
                      | [] => mfc c s
                      | _ => Mfc (gas (mfc c s)) (of_Z (List.last l 0%Z))
                      end
                 else mfc x s).
Proof.
  revert s. induction l as [|sp l IH]; intros s Hok; cbn [for_each].
  - exists s. split; [reflexivity|]. split; [|split]; [|reflexivity..].
    intros x. destruct (channel_eqb x c) eqn:E; [|reflexivity].
    destruct x, c; try discriminate; reflexivity.
  - destruct (test_pressure_setpoint_run c sp s Hok)
      as (s1 & E1 & Hm1 & Hb1 & Hw1).
    assert (Hok1 : works s1) by (intros n; rewrite Hw1; apply Hok).
    destruct (IH s1 Hok1) as (s2 & E2 & Hm2 & Hb2 & Hw2).
    exists s2. rewrite (bind_run _ _ _ _ _ E1). split; [exact E2|].
    split; [|split]; [|congruence..].
    intros x. rewrite Hm2.
    destruct (channel_eqb x c) eqn:E.
    + rewrite (Hm1 c), channel_eqb_refl. cbn [gas].
      destruct l; reflexivity.
    + rewrite Hm1, E. reflexivity.
Qed.

(** The first loop over the four controllers. *)
Lemma test_pressure_scans (s : GS) (k : option channel -> M GS unit) :
  works s ->
  exists s4,
    (t <- test_pressure_scan ChA None ;;
     t <- test_pressure_scan ChB t ;;
     t <- test_pressure_scan ChC t ;;
     t <- test_pressure_scan ChD t ;;
     k t) s
    = k (test_channel s) s4
    /\ (forall x, mfc x s4
                  = if channel_eqb x ChE then mfc x s else vented (mfc x s))
    /\ is_busy s4 = is_busy s
    /\ hw_ok s4 = hw_ok s.
Proof.
  intros Hok.
  destruct (test_pressure_scan_run ChA None s Hok)
    as (s1 & E1 & Hm1 & Hb1 & Hw1).
  assert (Hok1 : works s1) by (intros n; rewrite Hw1; apply Hok).
  destruct (test_pressure_scan_run ChB
              (if is_inert (gas (mfc ChA s)) then Some ChA else None) s1 Hok1)
    as (s2 & E2 & Hm2 & Hb2 & Hw2).
  assert (Hok2 : works s2) by (intros n; rewrite Hw2; apply Hok1).
  destruct (test_pressure_scan_run ChC
              (if is_inert (gas (mfc ChB s1)) then Some ChB
               else if is_inert (gas (mfc ChA s)) then Some ChA else None)
              s2 Hok2)
    as (s3 & E3 & Hm3 & Hb3 & Hw3).
  assert (Hok3 : works s3) by (intros n; rewrite Hw3; apply Hok2).
  destruct (test_pressure_scan_run ChD
              (if is_inert (gas (mfc ChC s2)) then Some ChC
               else if is_inert (gas (mfc ChB s1)) then Some ChB
               else if is_inert (gas (mfc ChA s)) then Some ChA else None)
              s3 Hok3)
    as (s4 & E4 & Hm4 & Hb4 & Hw4).
  exists s4.
  rewrite (bind_run _ _ _ _ _ E1), (bind_run _ _ _ _ _ E2),
    (bind_run _ _ _ _ _ E3), (bind_run _ _ _ _ _ E4).
  assert (HB : mfc ChB s1 = mfc ChB s) by (rewrite Hm1; reflexivity).
  assert (HC : mfc ChC s2 = mfc ChC s)
    by (rewrite Hm2; cbn [channel_eqb]; rewrite Hm1; reflexivity).
  assert (HD : mfc ChD s3 = mfc ChD s)
    by (rewrite Hm3; cbn [channel_eqb]; rewrite Hm2; cbn [channel_eqb];
        rewrite Hm1; reflexivity).
  rewrite HB, HC, HD.
  split; [|split; [|split]]; [| |congruence..].
  - unfold test_channel. cbn [List.find].
    destruct (is_inert (gas (mfc ChD s))); [reflexivity|].
    destruct (is_inert (gas (mfc ChC s))); [reflexivity|].
    destruct (is_inert (gas (mfc ChB s))); [reflexivity|].
    destruct (is_inert (gas (mfc ChA s))); reflexivity.
  - intros x. rewrite Hm4, HD.
    destruct x; cbn [channel_eqb]; try reflexivity;
      rewrite Hm3, HC; cbn [channel_eqb]; try reflexivity;
      rewrite Hm2, HB; cbn [channel_eqb]; try reflexivity;
      rewrite Hm1; reflexivity.
Qed.

(** X23.  [test_pressure] on a bank with neither argon nor nitrogen on the
    controllers A to D closes all four of them and then fails on the name
    [test_mfc], which was never bound: [UnboundLocalError].  It does so
    whatever the flag says, and the flag is left as it was. *)
Theorem test_pressure_no_inert_gas (s : GS) :
  works s ->
  test_channel s = None ->
  fst (test_pressure s) = Raised UnboundLocalError
  /\ devices (snd (test_pressure s))
     = [Mfc (gas (mfc_A s)) zero; Mfc (gas (mfc_B s)) zero;
        Mfc (gas (mfc_C s)) zero; Mfc (gas (mfc_D s)) zero; mfc_E s]
  /\ is_busy (snd (test_pressure s)) = is_busy s.
Proof.
  intros Hok Ht. unfold test_pressure.
  destruct (test_pressure_scans s
              (fun t => match t with
                        | None => raise UnboundLocalError
                        | Some c =>
                            d <- issue c Get ;;
                            issue ChE (SetGas (gas d)) ;;;
                            print_flows ;;;
                            for_each (range 5 51 5) (test_pressure_setpoint c)
                        end) Hok) as (s4 & E & Hm & Hb & _).
  rewrite E, Ht. cbn [raise fst snd].
  split; [reflexivity|]. split; [|exact Hb].
  unfold test_channel in Ht. cbn [List.find] in Ht.
  change (mfc ChD s) with (mfc_D s) in Ht.
  change (mfc ChC s) with (mfc_C s) in Ht.
  change (mfc ChB s) with (mfc_B s) in Ht.
  change (mfc ChA s) with (mfc_A s) in Ht.
  destruct (is_inert (gas (mfc_D s))) eqn:ED; [discriminate|].
  destruct (is_inert (gas (mfc_C s))) eqn:EC; [discriminate|].
  destruct (is_inert (gas (mfc_B s))) eqn:EB; [discriminate|].
  destruct (is_inert (gas (mfc_A s))) eqn:EA; [discriminate|].
  unfold devices.
  change (mfc_A s4) with (mfc ChA s4). change (mfc_B s4) with (mfc ChB s4).
  change (mfc_C s4) with (mfc ChC s4). change (mfc_D s4) with (mfc ChD s4).
  change (mfc_E s4) with (mfc ChE s4).
  rewrite !Hm. cbn [channel_eqb mfc]. unfold vented.
  rewrite EA, EB, EC, ED. reflexivity.
Qed.

(** X24.  [test_pressure] on an idle bank with argon or nitrogen on one of the
    controllers A to D.  The test runs on the last such controller; the
    controllers on other gases are closed, and a further controller on
    argon or nitrogen keeps its flow.  Channel E is put on the gas of the
    test controller.  The call returns with the flag clear and with the
    test controller left at the last setpoint, 50, which nothing sets
    back. *)
Theorem test_pressure_runs (s : GS) (c : channel) :
  is_busy s = false ->
  works s ->
  test_channel s = Some c ->
  fst (test_pressure s) = Returned tt
  /\ devices (snd (test_pressure s))
     = map (pressure_tested c s) [ChA; ChB; ChC; ChD; ChE]
  /\ is_busy (snd (test_pressure s)) = false.
Proof.
  intros Hi Hok Ht. unfold test_pressure.
  destruct (test_pressure_scans s
              (fun t => match t with
                        | None => raise UnboundLocalError
                        | Some c =>
                            d <- issue c Get ;;
                            issue ChE (SetGas (gas d)) ;;;
                            print_flows ;;;
                            for_each (range 5 51 5) (test_pressure_setpoint c)
                        end) Hok) as (s4 & E & Hm & Hb & Hw).
  rewrite E, Ht. clear E.
  assert (Hok4 : works s4) by (intros n; rewrite Hw; apply Hok).
  assert (Hc : is_inert (gas (mfc c s)) = true /\ channel_eqb c ChE = false).
  { unfold test_channel in Ht. apply List.find_some in Ht as [Hin Hc].
    split; [exact Hc|]. destruct c; try reflexivity.
    cbn in Hin. intuition discriminate. }
  destruct Hc as [Hc HcE].
  do 2 step_issue. cbn [apply_cmd].
  set (s6 := after ChE _ (after c Get s4)).
  assert (Hm6 : forall x, mfc x s6
                  = if channel_eqb x ChE
                    then Mfc (gas (mfc c s)) (mass_flow (mfc_E s))
                    else vented (mfc x s)).
  { intros x. unfold s6. rewrite !mfc_after.
    destruct x, c; try discriminate HcE;
      cbn [channel_eqb apply_cmd gas mass_flow];
      rewrite ?Hm; cbn [channel_eqb]; try reflexivity;
      unfold vented; rewrite Hc; reflexivity. }
  assert (Hb6 : is_busy s6 = false)
    by (unfold s6; rewrite !is_busy_after; congruence).
  assert (Hok6 : works s6) by (unfold s6; auto with works).
  destruct (print_flows_run s6 Hb6 Hok6)
    as (s7 & E7 & Hd7 & _ & Hb7 & Hw7 & _).
  assert (Hok7 : works s7) by (intros n; rewrite Hw7; apply Hok6).
  rewrite (bind_run _ _ _ _ _ E7).
  destruct (setpoints_run c (range 5 51 5) s7 Hok7)
    as (s8 & E8 & Hm8 & Hb8 & _).
  rewrite E8. cbn [fst snd].
  split; [reflexivity|]. split; [|congruence].
  assert (Hm7 : forall x, mfc x s7 = mfc x s6).
  { unfold devices in Hd7. injection Hd7 as HA HB HC HD HE.
    intros x. destruct x; assumption. }
  unfold devices.
  change (mfc_A s8) with (mfc ChA s8). change (mfc_B s8) with (mfc ChB s8).
  change (mfc_C s8) with (mfc ChC s8). change (mfc_D s8) with (mfc ChD s8).
  change (mfc_E s8) with (mfc ChE s8).
  rewrite !Hm8, !Hm7, !Hm6. cbn [map]. unfold pressure_tested.
  assert (Hr : range 5 51 5 = [5; 10; 15; 20; 25; 30; 35; 40; 45; 50]%Z)
    by reflexivity.
  rewrite Hr. cbn [List.last].
  destruct c; try discriminate HcE; cbn [channel_eqb];
    unfold vented; rewrite Hc; reflexivity.
Qed.
End Pressure.

Lemma test_pressure_no_inert_gas_witness :
  let s := at_rest ["H2"; "O2"; "CO2"; "CH4"]%string [1; 0; 0; 0]%float in
  fst (test_pressure s) = Raised UnboundLocalError.
Proof.
  destruct (test_pressure_no_inert_gas
              (at_rest ["H2"; "O2"; "CO2"; "CH4"]%string [1; 0; 0; 0]%float))
    as (Hr & _).
  - intros n. reflexivity.
  - reflexivity.
  - exact Hr.
Defined.

Lemma test_pressure_runs_witness :
  let s := at_rest ["Ar"; "H2"; "N2"; "O2"]%string [1; 0; 0; 0]%float in
  fst (test_pressure s) = Returned tt
  /\ map mass_flow (devices (snd (test_pressure s)))
     = [0; 0; 50; 0; 0]%float.
Proof.
  destruct (test_pressure_runs
              (at_rest ["Ar"; "H2"; "N2"; "O2"]%string [1; 0; 0; 0]%float)
              ChC)
    as (Hr & Hd & _).
  - reflexivity.
  - intros n. reflexivity.
  - reflexivity.
  - split; [exact Hr|]. cbn zeta. rewrite Hd. reflexivity.
Defined.

(** ** The sweep and the enabled widgets *)

Section Enabled.
Context {F : Type} `{Number F}.

Lemma Forall2_filter_same {A} (R : A -> A -> Prop) (f : A -> bool)
    (l l' : list A) :
  (forall a b, R a b -> f a = f b) ->
  Forall2 R l l' -> Forall2 R (List.filter f l) (List.filter f l').
Proof.
  intros Hf. induction 1 as [|a b l l' Hab Hl IH]; cbn; [constructor|].
  rewrite <- (Hf a b Hab). destruct (f a); [constructor|]; assumption.
Qed.

Lemma same_enabled_status (s : status) (r r' : row F) :
  same_enabled r r' -> has_status s r = has_status s r'.
Proof. intros [Hs _]. unfold has_status. rewrite Hs. reflexivity. Qed.

Lemma same_enabled_rows_of (s : status) (rows rows' : list (row F)) :
  Forall2 same_enabled rows rows' ->
  Forall2 same_enabled (rows_of s rows) (rows_of s rows').
Proof.
  apply Forall2_filter_same. intros a b. apply same_enabled_status.
Qed.

Lemma same_enabled_exists (s : status) (rows rows' : list (row F)) :
  Forall2 same_enabled rows rows' ->
  existsb (has_status s) rows = existsb (has_status s) rows'.
Proof.
  induction 1 as [|a b l l' Hab Hl IH]; cbn; [reflexivity|].
  rewrite (same_enabled_status s a b Hab), IH. reflexivity.
Qed.

Lemma rows_of_has (s : status) (rows : list (row F)) :
  Forall (fun r => Status r = s) (rows_of s rows).
Proof.
  apply List.Forall_forall. intros r Hr.
  apply List.filter_In in Hr as [_ Hr]. unfold has_status in Hr.
  destruct (Status r), s; try discriminate; reflexivity.
Qed.

Lemma same_enabled_fold (col : list F -> row F -> list F) (s : status)
    (ind : list F) (l l' : list (row F)) (f : list F) :
  (forall r r', same_enabled r r' -> Status r = s ->
                col ind r = col ind r') ->
  Forall2 same_enabled l l' ->
  Forall (fun r => Status r = s) l ->
  fold_left (fun f r => vsub f (col ind r)) l f
  = fold_left (fun f r => vsub f (col ind r)) l' f.
Proof.
  intros Hcol Hl. revert f.
  induction Hl as [|a b l l' Hab Hl IH]; intros f Hs; cbn; [reflexivity|].
  rewrite (Hcol a b Hab (List.Forall_inv Hs)).
  apply IH, (List.Forall_inv_tail Hs).
Qed.

Lemma same_enabled_fill (rows rows' : list (row F)) (ind : list F) :
  Forall2 same_enabled rows rows' ->
  fill_vals rows ind = fill_vals rows' ind.
Proof.
  intros Hr. unfold fill_vals.
  rewrite (same_enabled_fold col_Multiple Multiple ind
             (rows_of Multiple rows) (rows_of Multiple rows')).
  - apply (same_enabled_fold col_Fixed Fixed).
    + intros r r' [Hs Hv] Hst. rewrite Hst in Hv. cbn in Hv.
      unfold col_Fixed. destruct Hv as (_ & Ha & _). rewrite (Ha eq_refl).
      reflexivity.
    + apply same_enabled_rows_of, Hr.
    + apply rows_of_has.
  - intros r r' [Hs Hv] Hst. rewrite Hst in Hv. cbn in Hv.
    unfold col_Multiple. destruct Hv as (Hm & _). rewrite (Hm eq_refl).
    reflexivity.
  - apply same_enabled_rows_of, Hr.
  - apply rows_of_has.
Qed.

Lemma same_enabled_comp_list (rows rows' : list (row F)) (ind fill : list F) :
  Forall2 same_enabled rows rows' ->
  comp_list rows ind fill = comp_list rows' ind fill.
Proof.
  unfold comp_list. induction 1 as [|a b l l' Hab Hl IH]; cbn;
    [reflexivity|].
  rewrite IH. f_equal. destruct Hab as [Hs Hv]. unfold comp_col.
  rewrite <- Hs. destruct (Status a); cbn in Hv; try reflexivity.
  - unfold col_Fixed. destruct Hv as (_ & Ha & _). rewrite (Ha eq_refl).
    reflexivity.
  - unfold col_Multiple. destruct Hv as (Hm & _). rewrite (Hm eq_refl).
    reflexivity.
Qed.

Lemma same_enabled_range (r r' : row F) :
  same_enabled r r' -> Status r = IndVariable ->
  sweep_range r = sweep_range r'.
Proof.
  intros [Hs Hv] Hst. rewrite Hst in Hv. cbn in Hv.
  destruct Hv as (_ & Ha & Hb & Hc).
  unfold sweep_range. rewrite (Ha eq_refl), (Hb eq_refl), (Hc eq_refl).
  reflexivity.
Qed.

Lemma same_enabled_plan (rows rows' : list (row F)) :
  Forall2 same_enabled rows rows' ->
  plan_comp_sweep rows = plan_comp_sweep rows'.
Proof.
  intros Hr. unfold plan_comp_sweep, row_count.
  rewrite (same_enabled_exists Unset rows rows' Hr).
  rewrite (List.Forall2_length (same_enabled_rows_of Fill rows rows' Hr)).
  rewrite (List.Forall2_length (same_enabled_rows_of IndVariable rows rows' Hr)).
  pose proof (same_enabled_rows_of IndVariable rows rows' Hr) as Hi.
  pose proof (rows_of_has IndVariable rows) as Hst.
  destruct Hi as [|r r' l l' Hrr' Hl]; [reflexivity|].
  rewrite (same_enabled_range r r' Hrr' (List.Forall_inv Hst)).
  destruct (sweep_range r') as [| |ind]; try reflexivity.
  rewrite (same_enabled_fill rows rows' ind Hr).
  rewrite (same_enabled_comp_list rows rows' ind _ Hr). reflexivity.
Qed.

(** X6.  For a composition sweep or a calibration, [update_ind_var] reads of
    every row only the widgets that [update_ind_var_grid] enables for the
    row's status: two forms whose rows agree in their status and in the
    enabled widgets give the same verdict and the same experiment,
    whatever the disabled widgets and the three widgets of the plain
    sweep hold. *)
Theorem update_ind_var_reads_enabled (form form' : design_form F)
    (expt : Experiment F) :
  is_sweep_type (expt_type expt) = true ->
  Forall2 same_enabled (comp_sweep_widgets form) (comp_sweep_widgets form') ->
  update_ind_var form expt = update_ind_var form' expt.
Proof.
  intros Ht Hr. unfold update_ind_var. rewrite Ht.
  rewrite (same_enabled_plan _ _ Hr). reflexivity.
Qed.

End Enabled.

Lemma update_ind_var_reads_enabled_witness :
  let rows' := [ Row 7%Q IndVariable 0%Q 10%Q 5%Q;
                 Row 2%Q Multiple 33%Q 44%Q 55%Q;
                 Row 9%Q Fixed 20%Q 1%Q 1%Q;
                 Row 1%Q Fill 2%Q 3%Q 4%Q ] in
  update_ind_var (form_of rows') demo_expt
  = update_ind_var (form_of demo_rows) demo_expt.
Proof.
  apply (update_ind_var_reads_enabled
           (form_of [ Row 7%Q IndVariable 0%Q 10%Q 5%Q;
                      Row 2%Q Multiple 33%Q 44%Q 55%Q;
                      Row 9%Q Fixed 20%Q 1%Q 1%Q;
                      Row 1%Q Fill 2%Q 3%Q 4%Q ])
           (form_of demo_rows) demo_expt).
  - reflexivity.
  - cbn. repeat constructor; cbn; intros; try discriminate; reflexivity.
Defined.

(** ** The data files *)

Lemma string_leb_trans (s1 s2 s3 : string) :
  String.leb s1 s2 = true -> String.leb s2 s3 = true ->
  String.leb s1 s3 = true.
Proof.
  unfold String.leb. revert s2 s3.
  induction s1 as [|c1 s1 IH]; intros [|c2 s2] [|c3 s3]; cbn;
    try reflexivity; try discriminate.
  unfold Ascii.compare.
  destruct (N.compare_spec (N_of_ascii c1) (N_of_ascii c2)) as [E12|L12|G12];
    destruct (N.compare_spec (N_of_ascii c2) (N_of_ascii c3)) as [E23|L23|G23];
    try discriminate; intros H12 H23.
  - rewrite E12, E23, N.compare_refl. apply (IH s2 s3); assumption.
  - rewrite E12. apply N.compare_lt_iff in L23. rewrite L23. reflexivity.
  - rewrite <- E23. apply N.compare_lt_iff in L12. rewrite L12. reflexivity.
  - assert (L13 : (N_of_ascii c1 < N_of_ascii c3)%N) by lia.
    apply N.compare_lt_iff in L13. rewrite L13. reflexivity.
Qed.

Local Abbreviation ascending :=
  (ForallOrdPairs (fun a b : string => String.leb a b = true)).

Lemma insert_sorted_perm (x : string) (l : list string) :
  Permutation (insert_sorted x l) (x :: l).
Proof.
  induction l as [|h t IH]; cbn; [reflexivity|].
  destruct (String.leb x h); [reflexivity|].
  rewrite IH. apply perm_swap.
Qed.

Lemma sorted_perm (l : list string) : Permutation (sorted l) l.
Proof.
  induction l as [|x l IH]; cbn; [reflexivity|].
  rewrite insert_sorted_perm. constructor. exact IH.
Qed.

Lemma insert_sorted_ascending (x : string) (l : list string) :
  ascending l -> ascending (insert_sorted x l).
Proof.
  induction 1 as [|h t Hh Ht IH]; cbn [insert_sorted].
  - constructor; constructor.
  - destruct (String.leb x h) eqn:E.
    + constructor; [|constructor; assumption].
      constructor; [exact E|].
      apply List.Forall_forall. intros y Hy.
      rewrite List.Forall_forall in Hh.
      apply string_leb_trans with h; [exact E | apply Hh, Hy].
    + constructor; [|exact IH].
      apply List.Forall_forall. intros y Hy.
      apply (Permutation_in y (insert_sorted_perm x t)) in Hy.
      destruct Hy as [<-|Hy].
      * destruct (String.leb_total x h) as [Hx|Hx]; [congruence | exact Hx].
      * rewrite List.Forall_forall in Hh. apply Hh, Hy.
Qed.

Lemma sorted_ascending (l : list string) : ascending (sorted l).
Proof.
  induction l as [|x l IH]; cbn; [constructor|].
  apply insert_sorted_ascending, IH.
Qed.

(** Two ascending lists with the same members are the same list. *)
Lemma ascending_unique (l l' : list string) :
  ascending l -> ascending l' -> Permutation l l' -> l = l'.
Proof.
  intros Hl. revert l'. induction Hl as [|a l Ha Hl IH]; intros l' Hl' Hp.
  - apply Permutation_nil in Hp. subst. reflexivity.
  - destruct Hl' as [|b l' Hb Hl'].
    + apply Permutation_sym, Permutation_nil in Hp. discriminate.
    + assert (Hab : a = b).
      { assert (Hbin : In b (a :: l))
          by (apply (Permutation_in b (Permutation_sym Hp)); left; reflexivity).
        assert (Hain : In a (b :: l'))
          by (apply (Permutation_in a Hp); left; reflexivity).
        destruct Hbin as [Hbin|Hbin]; [exact Hbin|].
        destruct Hain as [Hain|Hain]; [symmetry; exact Hain|].
        rewrite List.Forall_forall in Ha, Hb.
        apply String.leb_antisym; [apply Ha, Hbin | apply Hb, Hain]. }
      subst b. f_equal. apply IH; [exact Hl'|].
      apply Permutation_cons_inv in Hp. exact Hp.
Qed.

Lemma sorted_order_independent (l l' : list string) :
  Permutation l l' -> sorted l = sorted l'.
Proof.
  intros Hp. apply ascending_unique; try apply sorted_ascending.
  rewrite (sorted_perm l), Hp. symmetry. apply sorted_perm.
Qed.

Lemma filter_sorted_spec (p : string -> bool) (listdir : list string) :
  (forall f, In f (List.filter p (sorted listdir))
             <-> In f listdir /\ p f = true)
  /\ ascending (List.filter p (sorted listdir))
  /\ (forall listdir', Permutation listdir listdir' ->
        List.filter p (sorted listdir') = List.filter p (sorted listdir)).
Proof.
  split; [|split].
  - intros f. rewrite List.filter_In. split; intros [Hin Hp]; split;
      try exact Hp.
    + apply (Permutation_in f (sorted_perm listdir)), Hin.
    + apply (Permutation_in f (Permutation_sym (sorted_perm listdir))), Hin.
  - apply ForallOrdPairs_filter, sorted_ascending.
  - intros l' Hp. rewrite (sorted_order_independent _ _ Hp). reflexivity.
Qed.

(** X28.  [list_FID] and [list_TCD] return the names of the directory that end
    in '.ASC' and contain 'FID' (or 'TCD'), each as often as it is listed,
    in ascending order of the character codes; the order in which the
    directory lists its names has no influence on the result. *)
Theorem list_FID_TCD_sorted (listdir : list string) :
  ((forall f, In f (list_FID listdir)
              <-> In f listdir
                  /\ endswith f ".ASC" && contains "FID" f = true)
   /\ ForallOrdPairs (fun a b => String.leb a b = true) (list_FID listdir)
   /\ (forall listdir', Permutation listdir listdir' ->
         list_FID listdir' = list_FID listdir))
  /\ ((forall f, In f (list_TCD listdir)
                 <-> In f listdir
                     /\ endswith f ".ASC" && contains "TCD" f = true)
      /\ ForallOrdPairs (fun a b => String.leb a b = true) (list_TCD listdir)
      /\ (forall listdir', Permutation listdir listdir' ->
            list_TCD listdir' = list_TCD listdir)).
Proof.
  split.
  - apply (filter_sorted_spec
             (fun f => endswith f ".ASC" && contains "FID" f)).
  - apply (filter_sorted_spec
             (fun f => endswith f ".ASC" && contains "TCD" f)).
Qed.

(** *** The run number of a file *)

Lemma append_nil (b : string) : (EmptyString ++ b)%string = b.
Proof. reflexivity. Qed.

Lemma append_cons (c : ascii) (a b : string) :
  (String c a ++ b)%string = String c (a ++ b).
Proof. reflexivity. Qed.

Lemma list_ascii_app (a b : string) :
  list_ascii_of_string (a ++ b)
  = list_ascii_of_string a ++ list_ascii_of_string b.
Proof.
  induction a as [|c a IH]; [reflexivity|].
  rewrite append_cons. cbn. rewrite IH. reflexivity.
Qed.

Lemma string_app_assoc (a b c : string) :
  ((a ++ b) ++ c)%string = (a ++ (b ++ c))%string.
Proof.
  induction a as [|x a IH]; [reflexivity|].
  rewrite !append_cons, IH. reflexivity.
Qed.

Lemma split_nonempty (sep : ascii) (s : string) : split sep s <> [].
Proof.
  destruct s as [|c s]; cbn; [discriminate|].
  destruct (Ascii.eqb c sep); [discriminate|].
  destruct (split sep s); discriminate.
Qed.

Lemma split_app_sep (sep : ascii) (a b : string) :
  split sep (a ++ String sep b) = split sep a ++ split sep b.
Proof.
  induction a as [|c a IH]; rewrite ?append_nil, ?append_cons; cbn [split].
  - rewrite Ascii.eqb_refl. reflexivity.
  - destruct (Ascii.eqb c sep); rewrite IH; [reflexivity|].
    pose proof (split_nonempty sep a) as Hn.
    destruct (split sep a) as [|h t]; [congruence | reflexivity].
Qed.

Lemma split_no_sep (sep : ascii) (b : string) :
  ~ In sep (list_ascii_of_string b) -> split sep b = [b].
Proof.
  induction b as [|c b IH]; cbn; intros Hn; [reflexivity|].
  destruct (Ascii.eqb c sep) eqn:E.
  - apply Ascii.eqb_eq in E. exfalso. apply Hn. left. exact E.
  - rewrite IH; [reflexivity|]. intros Hin. apply Hn. right. exact Hin.
Qed.

Lemma split_app_no_sep (sep : ascii) (a b : string) :
  ~ In sep (list_ascii_of_string b) ->
  split sep (a ++ b)
  = removelast (split sep a) ++ [(List.last (split sep a) "" ++ b)%string].
Proof.
  intros Hn. induction a as [|c a IH]; rewrite ?append_nil, ?append_cons;
    cbn [split].
  - rewrite (split_no_sep sep b Hn). reflexivity.
  - pose proof (split_nonempty sep a) as Hne.
    destruct (Ascii.eqb c sep).
    + rewrite IH. destruct (split sep a) as [|h t]; [congruence|].
      reflexivity.
    + rewrite IH. destruct (split sep a) as [|h [|h' t]]; [congruence|..];
        reflexivity.
Qed.

Lemma split_single (sep : ascii) (s h : string) :
  split sep s = [h] -> s = h.
Proof.
  revert h. induction s as [|c s IH]; cbn [split]; intros h Hs.
  - injection Hs as <-. reflexivity.
  - pose proof (split_nonempty sep s) as Hne.
    destruct (Ascii.eqb c sep).
    + injection Hs as _ Hs. congruence.
    + destruct (split sep s) as [|h' t]; [congruence|].
      injection Hs as <- ->. rewrite (IH h' eq_refl). reflexivity.
Qed.

Lemma split_last_suffix (sep : ascii) (s : string) :
  exists q, s = (q ++ List.last (split sep s) "")%string.
Proof.
  induction s as [|c s [q IH]]; cbn [split].
  - exists ""%string. reflexivity.
  - pose proof (split_nonempty sep s) as Hne.
    destruct (Ascii.eqb c sep).
    + exists (String c q). rewrite append_cons. rewrite IH at 1.
      destruct (split sep s); [congruence | reflexivity].
    + destruct (split sep s) as [|h [|h' t]] eqn:Es; [congruence|..].
      * exists ""%string. rewrite (split_single sep s h Es). reflexivity.
      * exists (String c q). rewrite append_cons. rewrite IH at 1.
        reflexivity.
Qed.

Lemma is_digit_not_newline (c : ascii) :
  is_digit c = true -> Ascii.eqb c "010" = false.
Proof.
  intros Hd. destruct (Ascii.eqb c "010") eqn:E; [|reflexivity].
  apply Ascii.eqb_eq in E. subst c. discriminate.
Qed.

Lemma take_while_app {A} (p : A -> bool) (l l' : list A) :
  forallb p l = true -> take_while p (l ++ l') = l ++ take_while p l'.
Proof.
  induction l as [|x l IH]; cbn; intros Hl; [reflexivity|].
  apply andb_true_iff in Hl as [Hx Hl]. rewrite Hx, IH by exact Hl.
  reflexivity.
Qed.

Lemma search_digits_end_app (p digits : string) :
  digits <> ""%string ->
  forallb is_digit (list_ascii_of_string digits) = true ->
  ends_in_digit p = false ->
  search_digits_end (p ++ digits) = Some (list_ascii_of_string digits).
Proof.
  intros Hne Hd Hp. unfold search_digits_end.
  rewrite list_ascii_app, rev_app_distr.
  assert (Hrd : forallb is_digit (rev (list_ascii_of_string digits)) = true).
  { apply forallb_forall. intros c Hc. apply in_rev in Hc.
    rewrite forallb_forall in Hd. apply Hd, Hc. }
  destruct (rev (list_ascii_of_string digits)) as [|c r] eqn:Er.
  - exfalso. apply Hne.
    apply (f_equal (@rev _)) in Er. rewrite rev_involutive in Er.
    destruct digits; [reflexivity | discriminate].
  - cbn [app]. cbn [forallb] in Hrd.
    apply andb_true_iff in Hrd as [Hc Hr].
    rewrite (is_digit_not_newline c Hc).
    change (c :: r ++ rev (list_ascii_of_string p))
      with ((c :: r) ++ rev (list_ascii_of_string p)).
    rewrite take_while_app by (cbn; rewrite Hc, Hr; reflexivity).
    assert (Htw : take_while is_digit (rev (list_ascii_of_string p)) = []).
    { unfold ends_in_digit in Hp.
      destruct (rev (list_ascii_of_string p)) as [|x l]; [reflexivity|].
      cbn. rewrite Hp. reflexivity. }
    rewrite Htw, app_nil_r.
    change (Some (rev (c :: r)) = Some (list_ascii_of_string digits)).
    rewrite <- Er, rev_involutive. reflexivity.
Qed.

Lemma ends_in_digit_last_part (sep : ascii) (s : string) :
  ends_in_digit s = false ->
  ends_in_digit (List.last (split sep s) "") = false.
Proof.
  destruct (split_last_suffix sep s) as [q Hq].
  set (p := List.last (split sep s) ""%string) in *.
  intros Hs. unfold ends_in_digit in *.
  destruct (rev (list_ascii_of_string p)) as [|c r] eqn:Er; [reflexivity|].
  rewrite Hq, list_ascii_app, rev_app_distr, Er in Hs. exact Hs.
Qed.

Lemma getitem_wrap_second_to_last {A} (l : list A) (x y : A) :
  getitem_wrap (l ++ [x; y]) (Z.of_nat (length (l ++ [x; y])) - 2) = inr x.
Proof.
  unfold getitem_wrap. rewrite length_app. cbn [length].
  replace (Z.of_nat (length l + 2) - 2)%Z with (Z.of_nat (length l)) by lia.
  destruct (Z.ltb_spec (Z.of_nat (length l)) 0); [lia|].
  cbv zeta. destruct (Z.ltb_spec (Z.of_nat (length l)) 0); [lia|].
  rewrite Nat2Z.id, nth_error_app2, Nat.sub_diag by lia. reflexivity.
Qed.

(** For a name without a period the index [len(parts) - 2] is -1, which
    Python counts from the end. *)
Lemma get_run_number_no_period (filename : string) :
  ~ In "."%char (list_ascii_of_string filename) ->
  get_run_number filename
  = inr (option_map int_of_digits (search_digits_end filename)).
Proof.
  intros Hn. unfold get_run_number.
  rewrite (split_no_sep "." filename Hn). reflexivity.
Qed.

(** X29.  The run number of a file named [prefix digits . ext]: when the
    extension holds no period and the prefix does not end in a digit, it
    is the number the digits spell, whatever periods stand in the prefix.
    A name [prefix digits] without any period gives the same number: the
    index [len(parts) - 2] is then -1, which Python counts from the end,
    so that no [IndexError] is raised and the whole name is searched. *)
Theorem get_run_number_reads (prefix digits ext : string) :
  digits <> ""%string ->
  forallb is_digit (list_ascii_of_string digits) = true ->
  ends_in_digit prefix = false ->
  ~ In "."%char (list_ascii_of_string ext) ->
  get_run_number (prefix ++ digits ++ String "." ext)
  = inr (Some (int_of_digits (list_ascii_of_string digits)))
  /\ (~ In "."%char (list_ascii_of_string prefix) ->
      get_run_number (prefix ++ digits)
      = inr (Some (int_of_digits (list_ascii_of_string digits)))).
Proof.
  intros Hne Hd Hp Hext.
  assert (Hnd : ~ In "."%char (list_ascii_of_string digits)).
  { intros Hin. rewrite forallb_forall in Hd. specialize (Hd _ Hin).
    discriminate. }
  split.
  - unfold get_run_number.
    rewrite <- string_app_assoc, split_app_sep.
    rewrite (split_app_no_sep "." prefix digits Hnd).
    rewrite (split_no_sep "." ext Hext), <- app_assoc. cbn [app].
    rewrite getitem_wrap_second_to_last.
    rewrite (search_digits_end_app _ digits Hne Hd
               (ends_in_digit_last_part "." prefix Hp)).
    reflexivity.
  - intros Hnp. rewrite get_run_number_no_period.
    + rewrite (search_digits_end_app prefix digits Hne Hd Hp). reflexivity.
    + rewrite list_ascii_app. intros Hin.
      apply in_app_or in Hin as [Hin|Hin]; auto.
Qed.


Lemma get_run_number_reads_witness :
  get_run_number "2022.10.26_FID05.ASC" = inr (Some 5%Z).
Proof.
  destruct (get_run_number_reads "2022.10.26_FID" "05" "ASC") as [Hr _].
  - discriminate.
  - reflexivity.
  - reflexivity.
  - cbn. intuition discriminate.
  - exact Hr.
Defined.


(** *** The index of the result tables *)

Lemma sub_nondigits_app (a b : string) :
  sub_nondigits (a ++ b) = sub_nondigits a ++ sub_nondigits b.
Proof. unfold sub_nondigits. rewrite list_ascii_app. apply List.filter_app. Qed.

Lemma sub_nondigits_digits (a : string) :
  forallb is_digit (list_ascii_of_string a) = true ->
  sub_nondigits a = list_ascii_of_string a.
Proof.
  intros Ha. unfold sub_nondigits. apply filter_all.
  apply List.Forall_forall. intros c Hc.
  rewrite forallb_forall in Ha. apply Ha, Hc.
Qed.

Lemma sub_nondigits_none (a : string) :
  forallb (fun c => negb (is_digit c)) (list_ascii_of_string a) = true ->
  sub_nondigits a = [].
Proof.
  unfold sub_nondigits.
  induction (list_ascii_of_string a) as [|c l IH]; cbn; [reflexivity|].
  intros Hl. apply andb_true_iff in Hl as [Hc Hl].
  apply negb_true_iff in Hc. rewrite Hc. apply IH, Hl.
Qed.

(** The shape of a label whose decimal point [convert_index] loses: digits
    before and after the point, at least one before it, and a unit
    without digits. *)
Local Abbreviation well_formed wfu :=
  (fst (fst wfu) <> ""%string
   /\ forallb is_digit (list_ascii_of_string (fst (fst wfu))) = true
   /\ forallb is_digit (list_ascii_of_string (snd (fst wfu))) = true
   /\ forallb (fun c => negb (is_digit c)) (list_ascii_of_string (snd wfu))
      = true).

Lemma decimal_label_digits (wfu : string * string * string) :
  well_formed wfu ->
  sub_nondigits (decimal_label wfu)
  = list_ascii_of_string (fst (fst wfu) ++ snd (fst wfu))
  /\ sub_nondigits (decimal_label wfu) <> []
  /\ String.eqb (decimal_label wfu) "Over_Run_Data" = false.
Proof.
  destruct wfu as [[w f] u]. cbn [fst snd decimal_label].
  intros (Hne & Hw & Hf & Hu).
  assert (Hd : sub_nondigits (w ++ String "." (f ++ u))
               = list_ascii_of_string (w ++ f)).
  { change (String "." (f ++ u)) with ("." ++ (f ++ u))%string.
    rewrite !sub_nondigits_app, (sub_nondigits_digits w Hw),
      (sub_nondigits_digits f Hf), (sub_nondigits_none u Hu), app_nil_r.
    rewrite list_ascii_app. reflexivity. }
  split; [exact Hd|]. split.
  - rewrite Hd, list_ascii_app. destruct w; [congruence | discriminate].
  - apply String.eqb_neq. intros Heq.
    destruct w as [|c w]; [congruence|].
    cbn in Hw. apply andb_true_iff in Hw as [Hc _].
    rewrite append_cons in Heq. injection Heq as -> _. discriminate.
Qed.

(** X30.  [convert_index] removes every character that is not a digit before
    it converts a label, the decimal point with the others: a label
    written as [whole . frac unit] becomes the binary64 value nearest to
    the number that the digits of [whole] and [frac] spell together, so
    that '0.5sccm' becomes 5.0 and '1.25sccm' becomes 125.0. *)
Theorem convert_index_loses_point (labels : list (string * string * string)) :
  labels <> [] ->
  Forall (fun wfu => well_formed wfu) labels ->
  convert_index (map decimal_label labels)
  = inr (map (fun wfu =>
                nearest_float
                  (int_of_digits
                     (list_ascii_of_string (fst (fst wfu) ++ snd (fst wfu)))))
             labels).
Proof.
  intros Hne Hl. unfold convert_index.
  destruct (map decimal_label labels) eqn:Em;
    [destruct labels; [congruence | discriminate]|].
  rewrite <- Em. clear Em Hne. cbv zeta.
  induction Hl as [|wfu labels Hw Hl IH]; [reflexivity|].
  destruct (decimal_label_digits wfu Hw) as (Hd & Hn & Ho).
  cbn [map List.filter]. rewrite Ho. cbn [negb map astype_float].
  unfold float_of_digits at 1.
  destruct (sub_nondigits (decimal_label wfu)) as [|c ds] eqn:Es;
    [congruence|].
  rewrite IH, <- Hd. reflexivity.
Qed.

Lemma convert_index_loses_point_witness :
  convert_index ["0.5sccm"; "1.25sccm"; "10.0sccm"]%string
  = inr [5; 125; 100]%float.
Proof.
  refine (eq_trans
            (convert_index_loses_point
               [("0", "5", "sccm"); ("1", "25", "sccm");
                ("10", "0", "sccm")]%string _ _) _).
  - discriminate.
  - repeat constructor; discriminate.
  - vm_compute. reflexivity.
Defined.

(** The conversion rounds: seventeen digits do not fit a binary64 value,
    and a label of four hundred digits becomes infinite. *)
Example convert_index_rounds :
  convert_index ["10.799999999999999sccm"; "9007199254740993"]%string
  = inr [10800000000000000; 9007199254740992]%float
  /\ float_of_digits (repeat "9"%char 400) = inr infinity.
Proof. vm_compute. split; reflexivity. Qed.
